(** * The stylesheet enhancement engine: [CSSParser] and [CSSEnhancer]

    A shallow embedding of [src/services/cssParser.ts] and
    [src/services/cssEnhancer.ts].

    Conventions of the embedding.
    - A JavaScript string is a [string]: a sequence of code units below 256.
      Character classes, [trim] and [toLowerCase] follow ECMAScript on that
      range.
    - A JavaScript number is the rational ([Q]) it denotes, and arithmetic
      rounds as IEEE doubles do: every operation is the exact one followed
      by [F64.round], and a decimal literal is the double nearest to it.
      No division of the engine has a zero divisor (see
      [getAllNodes_nonempty] and [subscores_bounds]), so NaN never has to
      be represented except as the result of [parseFloat], which is an
      [option].
    - A regular expression literal is a value of [regex], run by a
      backtracking matcher with ECMAScript's priorities (leftmost start,
      greedy or lazy quantifiers in order, first alternative first).
    - An exception is the [Throw] case of [Result].
    - The two clocks the code reads ([performance.now()] and [new Date()])
      are a [Clock]: the readings in program order. *)

From Stdlib Require Import List String Ascii Bool Arith ZArith QArith Lia.
From Stdlib Require Import Qabs Qround Qpower Qreduction Lqa Sorted Permutation.
From Stdlib Require Import DecimalString.
Import ListNotations.

Local Open Scope string_scope.
Local Open Scope list_scope.
Local Open Scope nat_scope.

(** ** Characters and strings *)

Module Str.

Definition code (a : ascii) : nat := nat_of_ascii a.

Definition in_range (lo hi : nat) (a : ascii) : bool :=
  (lo <=? code a) && (code a <=? hi).

Definition is_lower (a : ascii) : bool := in_range 97 122 a.
Definition is_upper (a : ascii) : bool := in_range 65 90 a.
Definition is_alpha (a : ascii) : bool := is_lower a || is_upper a.
Definition is_digit (a : ascii) : bool := in_range 48 57 a.
Definition is_hex (a : ascii) : bool :=
  is_digit a || in_range 97 102 a || in_range 65 70 a.

Definition is_char (c : ascii) (a : ascii) : bool := Ascii.eqb a c.

(** ECMAScript WhiteSpace and LineTerminator below 256: TAB, LF, VT, FF, CR,
    SP and NBSP.  This is the class [\s] and what [trim] strips. *)
Definition is_space (a : ascii) : bool :=
  in_range 9 13 a || (code a =? 32) || (code a =? 160).

(** [String.prototype.toLowerCase] on one code unit. *)
Definition lower_char (a : ascii) : ascii :=
  if is_upper a then ascii_of_nat (code a + 32)
  else if in_range 192 222 a && negb (code a =? 215)
       then ascii_of_nat (code a + 32)
       else a.

Fixpoint toLowerCase (s : string) : string :=
  match s with
  | EmptyString => EmptyString
  | String a s' => String (lower_char a) (toLowerCase s')
  end.

Fixpoint rev_onto (s acc : string) : string :=
  match s with
  | EmptyString => acc
  | String a s' => rev_onto s' (String a acc)
  end.

Definition rev (s : string) : string := rev_onto s EmptyString.

Fixpoint trimStart (s : string) : string :=
  match s with
  | EmptyString => EmptyString
  | String a s' => if is_space a then trimStart s' else s
  end.

Definition trimEnd (s : string) : string := rev (trimStart (rev s)).

(** [String.prototype.trim]. *)
Definition trim (s : string) : string := trimEnd (trimStart s).

(** [hay.includes(needle)]. *)
Fixpoint includes (hay needle : string) : bool :=
  if String.prefix needle hay then true
  else match hay with
       | EmptyString => false
       | String _ hay' => includes hay' needle
       end.

(** [s.substring(1)]. *)
Definition substring1 (s : string) : string :=
  match s with
  | EmptyString => EmptyString
  | String _ s' => s'
  end.

(** The string is not the empty string (JavaScript truthiness). *)
Definition truthy (s : string) : bool :=
  match s with
  | EmptyString => false
  | String _ _ => true
  end.

(** Decimal text of an integer, as a template literal prints it. *)
Definition of_Z (z : Z) : string := NilZero.string_of_int (Z.to_int z).

Definition of_nat (n : nat) : string := of_Z (Z.of_nat n).

(** [s.split(',')]: the pieces between occurrences of one character. *)
Fixpoint split_char_from (c : ascii) (s cur : string) : list string :=
  match s with
  | EmptyString => [rev cur]
  | String a s' =>
      if Ascii.eqb a c then rev cur :: split_char_from c s' EmptyString
      else split_char_from c s' (String a cur)
  end.

Definition split_char (c : ascii) (s : string) : list string :=
  split_char_from c s EmptyString.

End Str.

(** ** Regular expressions *)

Module RegExp.

Inductive regex : Type :=
| Eps
| Cls (p : ascii -> bool)
| Seq (r1 r2 : regex)
| Alt (r1 r2 : regex)
| Star (greedy : bool) (r : regex)
| Grp (i : nat) (r : regex).

Definition Plus (greedy : bool) (r : regex) : regex := Seq r (Star greedy r).
Definition Opt (r : regex) : regex := Alt r Eps.
Definition Chr (c : ascii) : regex := Cls (Str.is_char c).
Definition Any : regex := Cls (fun _ => true).
Definition NotChr (c : ascii) : regex := Cls (fun a => negb (Str.is_char c a)).

Fixpoint Lit (s : string) : regex :=
  match s with
  | EmptyString => Eps
  | String a s' => Seq (Chr a) (Lit s')
  end.

Fixpoint Repeat (n : nat) (r : regex) : regex :=
  match n with
  | O => Eps
  | S n' => Seq r (Repeat n' r)
  end.

(** Captures: group number to captured text, latest first. *)
Definition captures := list (nat * string).

Fixpoint group (i : nat) (c : captures) : option string :=
  match c with
  | [] => None
  | (j, s) :: c' => if Nat.eqb i j then Some s else group i c'
  end.

(** The text consumed between input [s] and its suffix [s']. *)
Definition taken (s s' : string) : string :=
  String.substring 0 (String.length s - String.length s') s.

Definition Cont := string -> captures -> option (string * captures).

(** The loop of a quantifier [r*] ([greedy]) or [r*?]: [body] matches one
    more [r], [k] is what follows the quantifier.  An iteration that consumes
    nothing is rejected, as in ECMAScript, so the loop runs at most
    [length s] times and the counter [n], which starts above that, never
    runs out. *)
Section StarLoop.
Variable body : string -> captures -> Cont -> option (string * captures).
Variable greedy : bool.
Variable k : Cont.

Fixpoint star_loop (n : nat) (s : string) (c : captures) {struct n}
  : option (string * captures) :=
  match n with
  | O => k s c
  | S n' =>
      let again :=
        body s c (fun s' c' =>
          if String.length s' <? String.length s then star_loop n' s' c'
          else None) in
      if greedy
      then match again with Some x => Some x | None => k s c end
      else match k s c with Some x => Some x | None => again end
  end.
End StarLoop.

(** The backtracking matcher, in continuation-passing style: [rmatch r s c k]
    matches [r] at the start of [s] and hands the rest of the input to [k];
    when [k] fails the next choice of [r] is tried. *)
Fixpoint rmatch (r : regex) : string -> captures -> Cont -> option (string * captures) :=
  match r with
  | Eps => fun s c k => k s c
  | Cls p => fun s c k =>
      match s with
      | String a s' => if p a then k s' c else None
      | EmptyString => None
      end
  | Seq r1 r2 => fun s c k => rmatch r1 s c (fun s' c' => rmatch r2 s' c' k)
  | Alt r1 r2 => fun s c k =>
      match rmatch r1 s c k with
      | Some x => Some x
      | None => rmatch r2 s c k
      end
  | Star greedy r1 => fun s c k =>
      star_loop (rmatch r1) greedy k (S (String.length s)) s c
  | Grp i r1 => fun s c k =>
      rmatch r1 s c (fun s' c' => k s' ((i, taken s s') :: c'))
  end.

(** What [exec] returns: [m[0]] and the groups. *)
Record RegExpMatch : Type := mkMatch { m0 : string; groups : captures }.

Definition accept : Cont := fun s c => Some (s, c).

(** A match attempt at the start of [s] only. *)
Definition match_at (r : regex) (s : string) : option RegExpMatch :=
  match rmatch r s [] accept with
  | Some (s', c) => Some (mkMatch (taken s s') c)
  | None => None
  end.

(** [s.match(r)] for a regex without the [g] flag: the leftmost match. *)
Fixpoint search (r : regex) (s : string) : option RegExpMatch :=
  match match_at r s with
  | Some m => Some m
  | None => match s with
            | EmptyString => None
            | String _ s' => search r s'
            end
  end.

(** All successive matches of a global regex: [s.match(r)] with the [g]
    flag, and the matches a [while ((m = r.exec(s)) !== null)] loop sees.
    [skip] counts the characters still covered by the previous match.  After
    an empty match the scan moves one character on, as [String.prototype.match]
    does; a bare [exec] loop would not advance there, but the regexes the
    parser loops over consume at least one character per match. *)
Fixpoint match_all_from (r : regex) (s : string) (skip : nat) {struct s}
  : list RegExpMatch :=
  match skip with
  | S k =>
      match s with
      | EmptyString => []
      | String _ s' => match_all_from r s' k
      end
  | O =>
      match match_at r s with
      | Some m =>
          m :: match s with
               | EmptyString => []
               | String _ s' => match_all_from r s' (pred (String.length (m0 m)))
               end
      | None =>
          match s with
          | EmptyString => []
          | String _ s' => match_all_from r s' 0
          end
      end
  end.

Definition match_all (r : regex) (s : string) : list RegExpMatch :=
  match_all_from r s 0.

(** [s.replace(r, '')] with the [g] flag. *)
Fixpoint remove_all_from (r : regex) (s : string) (skip : nat) {struct s} : string :=
  match s with
  | EmptyString => EmptyString
  | String a s' =>
      match skip with
      | S k => remove_all_from r s' k
      | O =>
          match match_at r s with
          | Some m =>
              match String.length (m0 m) with
              | O => String a (remove_all_from r s' 0)
              | S l => remove_all_from r s' l
              end
          | None => String a (remove_all_from r s' 0)
          end
      end
  end.

Definition remove_all (r : regex) (s : string) : string := remove_all_from r s 0.

(** [s.split(r)]: [cur] is the piece being collected, reversed.  A
    separator match that is empty and sits at the start of the piece is
    ignored; no attempt is made at the end of the input. *)
Fixpoint split_from (r : regex) (s : string) (skip : nat) (cur : string) {struct s}
  : list string :=
  match s with
  | EmptyString => [Str.rev cur]
  | String a s' =>
      match skip with
      | S k => split_from r s' k cur
      | O =>
          match match_at r s with
          | Some m =>
              match String.length (m0 m), cur with
              | O, EmptyString => split_from r s' 0 (String a cur)
              | O, _ => Str.rev cur :: split_from r s' 0 (String a EmptyString)
              | S l, _ => Str.rev cur :: split_from r s' l EmptyString
              end
          | None => split_from r s' 0 (String a cur)
          end
      end
  end.

Definition split (r : regex) (s : string) : list string :=
  match s with
  | EmptyString =>
      match match_at r s with
      | Some _ => []
      | None => [EmptyString]
      end
  | _ => split_from r s 0 EmptyString
  end.

End RegExp.

(** ** Exceptions *)

Inductive Exception : Type :=
| Error (message : string)
| TypeError (message : string).

Inductive Result (A : Type) : Type :=
| Ok (a : A)
| Throw (e : Exception).

Arguments Ok {A} a.
Arguments Throw {A} e.

Definition bind {A B : Type} (m : Result A) (f : A -> Result B) : Result B :=
  match m with
  | Ok a => f a
  | Throw e => Throw e
  end.

Notation "x <- m ;; k" := (bind m (fun x => k))
  (at level 61, m at next level, right associativity).
Notation "' pat <- m ;; k" := (bind m (fun x => match x with pat => k end))
  (at level 61, pat pattern, m at next level, right associativity).

(** [xs.forEach(x => ...)] whose body updates a local state and may throw. *)
Fixpoint forEachM {A S : Type} (body : S -> A -> Result S) (xs : list A) (st : S)
  : Result S :=
  match xs with
  | [] => Ok st
  | x :: xs' => st' <- body st x ;; forEachM body xs' st'
  end.

(** The text a template literal gives an exception. *)
Definition Exception_toString (e : Exception) : string :=
  match e with
  | Error m => ("Error: " ++ m)%string
  | TypeError m => ("TypeError: " ++ m)%string
  end.

(** ** Numbers *)

Definition Qnat (n : nat) : Q := inject_Z (Z.of_nat n).

Definition Qltb (x y : Q) : bool := negb (Qle_bool y x).
Definition Qgeb (x y : Q) : bool := Qle_bool y x.
Definition Qgtb (x y : Q) : bool := Qltb y x.

(** *** Arithmetic of the runtime

    The numbers of the runtime are IEEE 754 doubles: each operation gives
    the exact result rounded to 53 significant bits, a tie going to the even
    neighbour.  A number is the rational it denotes.  The exponent of the
    four operations is not bounded: a result is the runtime's wherever that
    is finite (below 2^1024 in magnitude) and, for a product or a quotient,
    not subnormal (not below 2^-1022); the sums and differences of doubles
    in the subnormal range are exact in both.  The conversions between
    numbers and text use [nearest], which has the subnormal doubles. *)

Module F64.

Definition pow2 (e : Z) : Q := (2 ^ e)%Q.

(** The nearest integer, a tie going to the even one. *)
Definition rne (x : Q) : Z :=
  let f := Qfloor x in
  match (x - inject_Z f ?= 1 # 2)%Q with
  | Lt => f
  | Gt => (f + 1)%Z
  | Eq => if Z.even f then f else (f + 1)%Z
  end.

(** The exponent [e] of the last place of a positive [x]:
    [2^52 <= x / 2^e < 2^53]. *)
Definition ulp_exp (x : Q) : Z :=
  let e0 := (Z.log2 (Qnum x) - Z.log2 (Zpos (Qden x)) - 53)%Z in
  if Qle_bool (pow2 (e0 + 53)) x then (e0 + 1)%Z else e0.

Definition round_pos (x : Q) : Q :=
  let e := ulp_exp x in
  Qred (inject_Z (rne (x / pow2 e)) * pow2 e).

(** The double nearest to [x]; a decimal literal of the source denotes the
    double nearest to it. *)
Definition round (x : Q) : Q :=
  match (x ?= 0)%Q with
  | Eq => 0%Q
  | Gt => round_pos x
  | Lt => (- round_pos (- x))%Q
  end.

(** The double nearest to [x], the subnormal ones included: below 2^-1022
    the doubles are the multiples of 2^-1074. *)
Definition nearest (x : Q) : Q :=
  if Qle_bool (pow2 (-1022)) (Qabs x) then round x
  else Qred (inject_Z (rne (x / pow2 (-1074))) * pow2 (-1074)).

Definition add (x y : Q) : Q := round (x + y).
Definition sub (x y : Q) : Q := round (x - y).
Definition mul (x y : Q) : Q := round (x * y).
Definition div (x y : Q) : Q := round (x / y).

(** Where the runtime's result is an infinity. *)
Definition overflows (x : Q) : bool := Qle_bool (pow2 1024) (Qabs x).

#[global] Arguments round : simpl never.
#[global] Arguments add : simpl never.
#[global] Arguments sub : simpl never.
#[global] Arguments mul : simpl never.
#[global] Arguments div : simpl never.

End F64.

(** [Math.round]: the nearest integer, a half going up. *)
Definition Math_round (x : Q) : Z := Qfloor (x + (1 # 2)).

Definition Math_min (x y : Q) : Q := if Qle_bool x y then x else y.

(** ** The stylesheet parser ([cssParser.ts]) *)

Module CSSParser.
Import RegExp.

Record CSSProperty : Type := mkProperty {
  property : string;
  value : string;
  important : bool;
  line : nat
}.

Record CSSRule : Type := mkRule {
  selector : string;
  properties : list CSSProperty;
  specificity : nat;
  rule_line : nat;
  rule_column : nat
}.

Record ParseStatistics : Type := mkParseStatistics {
  totalRules : nat;
  totalProperties : nat;
  totalSelectors : nat;
  processingTime : Q
}.

Record CSSParseResult : Type := mkParseResult {
  rules : list CSSRule;
  errors : list string;
  warnings : list string;
  statistics : ParseStatistics;
  isValid : bool
}.

(** [/\/\*[\s\S]*?\*\//g] *)
Definition commentRegex : regex :=
  Seq (Lit "/*") (Seq (Star false Any) (Lit "*/")).

(** [/([^{]+)\{([^}]+)\}/g] *)
Definition ruleRegex : regex :=
  Seq (Grp 1 (Plus true (NotChr "{")))
      (Seq (Chr "{") (Seq (Grp 2 (Plus true (NotChr "}"))) (Chr "}"))).

Definition is_prop_char (a : ascii) : bool := Str.is_alpha a || Str.is_char "-" a.

(** [/([a-zA-Z-]+)\s*:\s*([^;]+)(!important)?;?/g] *)
Definition propRegex : regex :=
  Seq (Grp 1 (Plus true (Cls is_prop_char)))
 (Seq (Star true (Cls Str.is_space))
 (Seq (Chr ":")
 (Seq (Star true (Cls Str.is_space))
 (Seq (Grp 2 (Plus true (NotChr ";")))
 (Seq (Opt (Grp 3 (Lit "!important")))
      (Opt (Chr ";"))))))).

(** [match[i]] of a group that took part in the match. *)
Definition group_text (i : nat) (m : RegExpMatch) : string :=
  match group i (groups m) with
  | Some s => s
  | None => EmptyString
  end.

(** [!!match[i]]: the group took part and captured a non-empty text. *)
Definition group_truthy (i : nat) (m : RegExpMatch) : bool :=
  match group i (groups m) with
  | Some s => Str.truthy s
  | None => false
  end.

Fixpoint properties_of_matches (ms : list RegExpMatch) (startLine lineOffset : nat)
  : list CSSProperty :=
  match ms with
  | [] => []
  | m :: ms' =>
      mkProperty (Str.trim (group_text 1 m)) (Str.trim (group_text 2 m))
                 (group_truthy 3 m) (startLine + lineOffset)
      :: properties_of_matches ms' startLine (S lineOffset)
  end.

(** [parsePropertiesEnhanced] is called inside a [try] block.  It returns a
    [Result], so that the [catch] clause of [parse] has its counterpart,
    although no step of it raises. *)
Definition parsePropertiesEnhanced (declarations : string) (startLine : nat)
  : Result (list CSSProperty) :=
  Ok (properties_of_matches (match_all propRegex declarations) startLine 0).

Definition calculateSpecificity (selector : string) : nat :=
  List.length (match_all (Chr "#") selector) * 100
  + List.length (match_all (Alt (Chr ".") (Alt (Chr ":") (Chr "["))) selector) * 10
  + List.length (match_all (Cls Str.is_alpha) selector).

(** The variables the scanning loop of [parse] updates. *)
Record ParseState : Type := mkParseState {
  st_rules : list CSSRule;
  st_errors : list string;
  st_warnings : list string;
  st_totalProperties : nat;
  st_totalSelectors : nat;
  st_isValid : bool;
  st_lineNumber : nat
}.

Definition initialState : ParseState := mkParseState [] [] [] 0 0 true 1.

(** One turn of the [while] loop, for one match of [ruleRegex]. *)
Definition parseStep (st : ParseState) (m : RegExpMatch) : ParseState :=
  let sel := Str.trim (group_text 1 m) in
  let declarations := Str.trim (group_text 2 m) in
  let lineNumber := st_lineNumber st in
  if negb (Str.truthy sel) || negb (Str.truthy declarations) then
    mkParseState (st_rules st) (st_errors st)
      (st_warnings st ++ [("Empty rule at line " ++ Str.of_nat lineNumber)%string])
      (st_totalProperties st) (st_totalSelectors st) (st_isValid st) lineNumber
  else
    match parsePropertiesEnhanced declarations lineNumber with
    | Ok props =>
        mkParseState
          (st_rules st ++ [mkRule sel props (calculateSpecificity sel) lineNumber 1])
          (st_errors st) (st_warnings st)
          (st_totalProperties st + List.length props)
          (st_totalSelectors st + List.length (Str.split_char "," sel))
          (st_isValid st) (S lineNumber)
    | Throw error =>
        mkParseState (st_rules st)
          (st_errors st ++ [("Error parsing rule at line " ++ Str.of_nat lineNumber
                               ++ ": " ++ Exception_toString error)%string])
          (st_warnings st) (st_totalProperties st) (st_totalSelectors st)
          false (S lineNumber)
    end.

Definition scan (cleanCSS : string) : ParseState :=
  fold_left parseStep (match_all ruleRegex cleanCSS) initialState.

(** [CSSParser.parse]; [startTime] and [endTime] are the two readings of
    [performance.now()].  Nothing in the outer [try] block raises on a
    string, so its [catch] clause has no counterpart here. *)
Definition parse (startTime endTime : Q) (cssText : string) : CSSParseResult :=
  let cleanCSS := remove_all commentRegex cssText in
  let st := scan cleanCSS in
  mkParseResult (st_rules st) (st_errors st) (st_warnings st)
    (mkParseStatistics (List.length (st_rules st)) (st_totalProperties st)
       (st_totalSelectors st) (F64.sub endTime startTime))
    (st_isValid st).

End CSSParser.

(** ** Number conversions of the runtime *)

Module Num.

Definition digit_char (d : Z) : ascii := ascii_of_nat (48 + Z.to_nat d).

Definition pow10 (e : Z) : Q :=
  if (e <? 0)%Z then 1 # Z.to_pos (10 ^ (- e)) else inject_Z (10 ^ e).

Fixpoint zeros (n : nat) : string :=
  match n with
  | O => EmptyString
  | S n' => String "0" (zeros n')
  end.

(** The decimal exponent [n] of a positive [x], [10^(n-1) <= x < 10^n],
    found from an estimate. *)
Fixpoint adjust_exp (fuel : nat) (x : Q) (n : Z) : Z :=
  match fuel with
  | O => n
  | S fuel' =>
      if Qltb x (pow10 (n - 1)) then adjust_exp fuel' x (n - 1)
      else if Qle_bool (pow10 n) x then adjust_exp fuel' x (n + 1)
      else n
  end.

Definition dec_exp (x : Q) : Z :=
  adjust_exp 8 x ((Z.log2 (Qnum x) - Z.log2 (Zpos (Qden x))) * 30103 / 100000 + 1).

(** A mantissa [c] of [k] digits and the exponent [n]; [c = 10^k] is
    [10^(k-1)] one exponent higher. *)
Definition normal (k : nat) (c n : Z) : Z * Z :=
  if (c =? 10 ^ Z.of_nat k)%Z then ((10 ^ (Z.of_nat k - 1))%Z, (n + 1)%Z) else (c, n).

(** The [k]-digit decimal [s * 10^(n-k)] that reads back as the double [x],
    the one nearest to [x] if there are two. *)
Definition reads_back (x : Q) (n : Z) (k : nat) : option (Z * Z) :=
  let scale := pow10 (n - Z.of_nat k) in
  let y := (x / scale)%Q in
  let lo := Qfloor y in
  let hi := (lo + 1)%Z in
  let ok (c : Z) := Qeq_bool (F64.nearest (inject_Z c * scale)) x in
  match ok lo, ok hi with
  | true, true =>
      match (y - inject_Z lo ?= 1 # 2)%Q with
      | Lt => Some (normal k lo n)
      | Gt => Some (normal k hi n)
      | Eq => Some (normal k (if Z.even lo then lo else hi) n)
      end
  | true, false => Some (normal k lo n)
  | false, true => Some (normal k hi n)
  | false, false => None
  end.

(** The shortest such decimal, of [k] digits or more; seventeen digits
    always read back. *)
Fixpoint shortest (fuel : nat) (x : Q) (n : Z) (k : nat) : Z * Z :=
  match fuel with
  | O => normal k (F64.rne (x / pow10 (n - Z.of_nat k))) n
  | S fuel' =>
      match reads_back x n k with
      | Some sn => sn
      | None => shortest fuel' x n (S k)
      end
  end.

Definition exponent_text (e : Z) : string :=
  ((if (e <? 0)%Z then "e-" else "e+") ++ Str.of_Z (Z.abs e))%string.

(** The text of a positive double, from its shortest digits [s] and the
    position [n] of the decimal point. *)
Definition positive_text (x : Q) : string :=
  let '(s, n) := shortest 16 x (dec_exp x) 1 in
  let ds := Str.of_Z s in
  let k := Z.of_nat (String.length ds) in
  if ((k <=? n) && (n <=? 21))%Z then (ds ++ zeros (Z.to_nat (n - k)))%string
  else if ((0 <? n) && (n <=? 21))%Z then
    (String.substring 0 (Z.to_nat n) ds ++ "."
       ++ String.substring (Z.to_nat n) (Z.to_nat (k - n)) ds)%string
  else if ((-6 <? n) && (n <=? 0))%Z then
    ("0." ++ zeros (Z.to_nat (- n)) ++ ds)%string
  else if (k =? 1)%Z then (ds ++ exponent_text (n - 1))%string
  else (String.substring 0 1 ds ++ "."
          ++ String.substring 1 (Z.to_nat (k - 1)) ds ++ exponent_text (n - 1))%string.

(** Number to string, as in a template literal or [toString()]: the fewest
    digits that read back as the same double, in positional notation from
    1e-6 up to 1e21 and with an exponent outside.  The argument is a number
    of the runtime; another rational is taken for the double nearest to
    it. *)
Definition toString (q : Q) : string :=
  let x := F64.nearest q in
  match (x ?= 0)%Q with
  | Eq => "0"
  | Gt => if F64.overflows x then "Infinity" else positive_text x
  | Lt => if F64.overflows x then "-Infinity" else ("-" ++ positive_text (- x))%string
  end.

(** [x.toFixed(1)]: one fractional digit, a tie going away from zero; from
    1e21 on, the text [toString] gives. *)
Definition toFixed1 (q : Q) : string :=
  if Qle_bool (pow10 21) (Qabs q) then toString q
  else
    let n := Qfloor (Qabs q * inject_Z 10 + (1 # 2))%Q in
    let sign := if Qltb q 0 then "-" else EmptyString in
    (sign ++ Str.of_Z (n / 10) ++ "." ++ String (digit_char (n mod 10)) EmptyString)%string.

(** Leading decimal digits of [s]: their value after [acc], how many there
    are, and the rest of the text. *)
Fixpoint digits (s : string) (acc : Z) (n : nat) : Z * nat * string :=
  match s with
  | String a s' =>
      if Str.is_digit a
      then digits s' (acc * 10 + Z.of_nat (Str.code a - 48))%Z (S n)
      else (acc, n, s)
  | EmptyString => (acc, n, s)
  end.

Definition sign_of (s : string) : bool * string :=
  match s with
  | String "-" s' => (true, s')
  | String "+" s' => (false, s')
  | _ => (false, s)
  end.

(** [parseFloat]: the longest prefix, after leading white space, that is a
    decimal literal, read as the double nearest to it.  [None] stands for
    NaN and for the infinities; the engine only compares the distance of the
    result to a finite number with a bound, which is false for all three. *)
Definition parseFloat (s : string) : option Q :=
  let '(neg, s1) := sign_of (Str.trimStart s) in
  let '(ip, ni, s2) := digits s1 0 0 in
  let '(fp, nf, s3) :=
    match s2 with
    | String "." s2' => digits s2' ip 0
    | _ => (ip, 0, s2)
    end in
  if ni + nf =? 0 then None
  else
    let e :=
      match s3 with
      | String c s4 =>
          if Str.is_char "e" c || Str.is_char "E" c then
            let '(eneg, s5) := sign_of s4 in
            let '(ev, ne, _) := digits s5 0 0 in
            if ne =? 0 then 0%Z else if eneg then (- ev)%Z else ev
          else 0%Z
      | EmptyString => 0%Z
      end in
    let m := F64.nearest ((fp # Z.to_pos (10 ^ Z.of_nat nf)) * pow10 e)%Q in
    if F64.overflows m then None
    else Some (if neg then (- m)%Q else m).

End Num.

(** ** The design tree

    The declarations of [FigmaNode] and [FigmaApiResponse] ([types/figma])
    are not among the sources. *)

(** Modelled from the spec: the colour of a paint, three channels between
    0 and 1. *)
Record Color : Type := mkColor { r : Q; g : Q; b : Q }.

(** Modelled from the spec: an entry of [fills], with the two fields the
    enhancer reads ([type] and [color]). *)
Record Paint : Type := mkPaint { paint_type : string; color : option Color }.

(** Modelled from the spec: the text style of a node, with the three fields
    the enhancer reads. *)
Record TypeStyle : Type := mkTypeStyle {
  fontSize : option Q;
  fontWeight : option Q;
  fontFamily : option string
}.

(** Modelled from the spec: the bounding box of a node. *)
Record Rect : Type := mkRect { width : option Q; height : option Q }.

(** Modelled from the spec: the design node, with the fields the enhancer
    reads; an absent optional field is [None]. *)
#[warnings="-register-all"]
Inductive FigmaNode : Type :=
  mkNode {
    id : string;
    name : string;
    type : string;
    children : option (list FigmaNode);
    fills : option (list Paint);
    style : option TypeStyle;
    absoluteBoundingBox : option Rect
  }.

(** Modelled from the spec: the fetched file, of which the enhancer reads
    [document] and copies the rest. *)
Record FigmaApiResponse : Type := mkResponse {
  fileName : string;
  document : FigmaNode
}.

(** The clocks: the [i]-th reading of [performance.now()] and the text of
    the [i]-th [new Date().toISOString()] of one call of [enhance]. *)
Record Clock : Type := mkClock {
  performance_now : nat -> Q;
  Date_toISOString : nat -> string
}.

(** ** The enhancer ([cssEnhancer.ts]) *)

Module CSSEnhancer.
Import RegExp CSSParser.

Inductive MappingStrategy : Type :=
| strategy_name | strategy_class | strategy_id | strategy_hybrid.

Record EnhancementOptions : Type := mkOptions {
  strictMatching : bool;
  ignoreColors : bool;
  ignoreTypography : bool;
  ignoreSpacing : bool;
  enableAutoMapping : bool;
  mappingStrategy : MappingStrategy;
  minConfidence : Q;
  maxSuggestions : Z
}.

(** The default value of the [options] parameter of [enhance]. *)
Definition defaultOptions : EnhancementOptions :=
  mkOptions false false false false true strategy_hybrid (1 # 2) 10.

Inductive ConflictType : Type := color_conflict | typography | spacing | layout | effects.
Inductive Severity : Type := low | medium | high.

Record StyleConflict : Type := mkConflict {
  conflict_type : ConflictType;
  conflict_property : string;
  figmaValue : string;
  cssValue : string;
  severity : Severity;
  suggestion : string
}.

Inductive MappingMethod : Type :=
| method_name | method_class | method_id | method_auto | method_manual.

Record NodeCSSMapping : Type := mkMapping {
  nodeId : string;
  nodeName : string;
  nodeType : string;
  cssRules : list CSSRule;
  confidence : Q;
  mappingMethod : MappingMethod;
  mapping_conflicts : option (list StyleConflict)
}.

Record EnhancementStatistics : Type := mkStatistics {
  totalNodes : nat;
  mappedNodes : nat;
  stat_cssRules : nat;
  stat_conflicts : nat;
  stat_processingTime : Q
}.

(** The object [generateEnhancedCode] serialises into the generated text. *)
Record EnhancedData : Type := mkEnhancedData {
  data_figma : FigmaApiResponse;
  data_mappings : list NodeCSSMapping;
  data_conflicts : list StyleConflict;
  data_coverage : Q;
  data_options : EnhancementOptions;
  enhancedAt : string
}.

(** The generated text, as the values that fill the holes of its template:
    the date of the header line, the coverage percentage and the serialised
    object.  The text between the holes is constant. *)
Record EnhancedCode : Type := mkEnhancedCode {
  generatedAt : string;
  coveragePercent : string;
  enhancedData : EnhancedData
}.

Record CSSEnhancementResult : Type := mkResult {
  enhancedCode : EnhancedCode;
  mappingResults : list NodeCSSMapping;
  coverage : Q;
  conflicts : list StyleConflict;
  suggestions : list string;
  statistics : EnhancementStatistics
}.

(** *** Utility methods *)

(** [getAllNodes(node, nodes)]: pushes the node onto [nodes], then the
    nodes of each child in turn, and returns the array.  The callers leave
    [nodes] to its default, the empty array. *)
Fixpoint getAllNodes (node : FigmaNode) (nodes : list FigmaNode) : list FigmaNode :=
  match node with
  | mkNode _ _ _ cs _ _ _ =>
      let nodes := nodes ++ [node] in
      match cs with
      | Some l => fold_left (fun acc child => getAllNodes child acc) l nodes
      | None => nodes
      end
  end.

(** [this.getAllNodes.length], read in [generateSuggestions]: the [length]
    of the function object, which counts the parameters before the first
    one with a default value.  (Compiled down to ES5 the default is moved
    into the body and the count is 2; the test that reads it has the same
    outcome for both.) *)
Definition getAllNodes_length : nat := 1.

Definition rgb_text (c : Color) : string :=
  let channel (x : Q) : string :=
    Num.toString (inject_Z (Math_round (F64.mul x (inject_Z 255)))) in
  ("rgb(" ++ channel (r c) ++ ", " ++ channel (g c) ++ ", " ++ channel (b c) ++ ")")%string.

Definition extractFigmaColor (fills : list Paint) : option string :=
  match find (fun fill => String.eqb (paint_type fill) "SOLID") fills with
  | Some solidFill =>
      match color solidFill with
      | Some c => Some (rgb_text c)
      | None => None
      end
  | None => None
  end.

Definition paren_color (fn : string) : regex :=
  Seq (Lit fn) (Seq (Chr "(") (Seq (Plus true (NotChr ")")) (Chr ")"))).

(** [/(#[0-9a-fA-F]{6}|#[0-9a-fA-F]{3}|rgb\([^)]+\)|rgba\([^)]+\)|[a-zA-Z]+)/] *)
Definition colorRegex : regex :=
  Grp 1 (Alt (Seq (Chr "#") (Repeat 6 (Cls Str.is_hex)))
        (Alt (Seq (Chr "#") (Repeat 3 (Cls Str.is_hex)))
        (Alt (paren_color "rgb")
        (Alt (paren_color "rgba")
             (Plus true (Cls Str.is_alpha)))))).

Definition extractCSSColor (value : string) : option string :=
  match search colorRegex value with
  | Some colorMatch => Some (m0 colorMatch)
  | None => None
  end.

Definition areColorsEqual (color1 color2 : string) : bool :=
  String.eqb (Str.toLowerCase color1) (Str.toLowerCase color2).

(** The method the class defines.  Nothing calls it. *)
Definition areColorsimilar (color1 color2 : string) : bool :=
  areColorsEqual color1 color2.

(** [this.areColorssimilar(figmaColor, cssColor)], as
    [calculateStyleSimilarityScore] spells the call: the class has no
    property of that name, so the call raises a TypeError. *)
Definition areColorssimilar (color1 color2 : option string) : Result bool :=
  Throw (TypeError "this.areColorssimilar is not a function").

Definition number_truthy (x : option Q) : option Q :=
  match x with
  | Some q => if Qeq_bool q 0 then None else Some q
  | None => None
  end.

Definition isTypographySimilar (figmaStyle : TypeStyle) (cssProp : CSSProperty) : bool :=
  match String.eqb (property cssProp) "font-size", number_truthy (fontSize figmaStyle) with
  | true, Some figmaSize =>
      match Num.parseFloat (value cssProp) with
      | Some cssSize => Qltb (Qabs (F64.sub figmaSize cssSize)) (inject_Z 2)
      | None => false
      end
  | _, _ => false
  end.

Definition isSpacingSimilar (boundingBox : Rect) (cssProp : CSSProperty) : bool :=
  match String.eqb (property cssProp) "width", number_truthy (width boundingBox) with
  | true, Some figmaWidth =>
      match Num.parseFloat (value cssProp) with
      | Some cssWidth => Qltb (Qabs (F64.sub figmaWidth cssWidth)) (inject_Z 5)
      | None => false
      end
  | _, _ => false
  end.

Definition extractFigmaTypography (style : TypeStyle) (property : string) : option string :=
  if String.eqb property "font-size" then
    match number_truthy (fontSize style) with
    | Some q => Some (Num.toString q ++ "px")%string
    | None => None
    end
  else if String.eqb property "font-weight" then
    match number_truthy (fontWeight style) with
    | Some q => Some (Num.toString q)
    | None => None
    end
  else if String.eqb property "font-family" then
    match fontFamily style with
    | Some f => if Str.truthy f then Some f else None
    | None => None
    end
  else None.

Definition getConflictSeverity (figmaValue cssValue : string) : Severity :=
  if Str.includes figmaValue "rgb" && Str.includes cssValue "rgb" then medium else low.

(** *** Match scores *)

Definition is_name_sep (a : ascii) : bool :=
  Str.is_char "-" a || Str.is_char "_" a || Str.is_space a.

Definition is_selector_sep (a : ascii) : bool :=
  is_name_sep a || Str.is_char "." a || Str.is_char "#" a.

Definition is_ident_char (a : ascii) : bool :=
  Str.is_alpha a || Str.is_digit a || Str.is_char "-" a || Str.is_char "_" a.

(** [/[-_\s]+/] and [/[-_\s.#]+/] *)
Definition nameSepRegex : regex := Plus true (Cls is_name_sep).
Definition selectorSepRegex : regex := Plus true (Cls is_selector_sep).

(** [/\.[a-zA-Z][a-zA-Z0-9-_]*/g] and [/#[a-zA-Z][a-zA-Z0-9-_]*/g] *)
Definition classRegex : regex :=
  Seq (Chr ".") (Seq (Cls Str.is_alpha) (Star true (Cls is_ident_char))).
Definition idRegex : regex :=
  Seq (Chr "#") (Seq (Cls Str.is_alpha) (Star true (Cls is_ident_char))).

(** How many elements of the array satisfy the test: the [matches] counter
    of a [forEach]. *)
Definition count {A : Type} (f : A -> bool) (l : list A) : nat :=
  List.length (filter f l).

Definition calculateNameMatchScore (nodeName selector : string) : Q :=
  let nameWords := split nameSepRegex nodeName in
  let selectorWords := split selectorSepRegex selector in
  let matches :=
    count (fun nameWord =>
             existsb (fun selWord =>
                        Str.includes selWord nameWord || Str.includes nameWord selWord)
                     selectorWords)
          nameWords in
  F64.div (Qnat matches) (Qnat (Nat.max (List.length nameWords) (List.length selectorWords))).

(** The common body of [calculateClassMatchScore] and [calculateIdMatchScore],
    which differ in the regex only. *)
Definition prefixedMatchScore (re : regex) (nodeName selector : string) : Q :=
  let found := map m0 (match_all re selector) in
  let nameWords := split nameSepRegex nodeName in
  let matches :=
    count (fun token =>
             let clean := Str.substring1 token in
             existsb (fun word => Str.includes clean word || Str.includes word clean)
                     nameWords)
          found in
  F64.div (Qnat matches) (Qnat (Nat.max (List.length found) (List.length nameWords))).

Definition calculateClassMatchScore : string -> string -> Q := prefixedMatchScore classRegex.
Definition calculateIdMatchScore : string -> string -> Q := prefixedMatchScore idRegex.

Definition includes_any (names : list string) (x : string) : bool :=
  existsb (String.eqb x) names.

Definition calculateStyleSimilarityScore
    (node : FigmaNode) (rule : CSSRule) (options : EnhancementOptions) : Result Q :=
  let st0 := (0%Q, 0) in
  (* Check color similarity *)
  st1 <-
    match negb (ignoreColors options), fills node with
    | true, Some nodeFills =>
        let colorProps :=
          filter (fun prop => Str.includes (property prop) "color"
                              || Str.includes (property prop) "background")
                 (properties rule) in
        forEachM (fun '(score, totalChecks) prop =>
                    let figmaColor := extractFigmaColor nodeFills in
                    let cssColor := extractCSSColor (value prop) in
                    similar <- areColorssimilar figmaColor cssColor ;;
                    Ok (if similar then F64.add score (F64.round (3 # 10)) else score,
                        S totalChecks))
                 colorProps st0
    | _, _ => Ok st0
    end ;;
  (* Check typography similarity *)
  let st2 :=
    match negb (ignoreTypography options), style node with
    | true, Some nodeStyle =>
        let typographyProps :=
          filter (fun prop => includes_any
                    ["font-size"; "font-weight"; "font-family"; "line-height"]
                    (property prop))
                 (properties rule) in
        fold_left (fun '(score, totalChecks) prop =>
                     (if isTypographySimilar nodeStyle prop
                      then F64.add score (F64.round (2 # 10)) else score, S totalChecks))
                  typographyProps st1
    | _, _ => st1
    end in
  (* Check spacing similarity *)
  let st3 :=
    match negb (ignoreSpacing options), absoluteBoundingBox node with
    | true, Some box =>
        let spacingProps :=
          filter (fun prop => includes_any
                    ["margin"; "padding"; "gap"; "width"; "height"] (property prop))
                 (properties rule) in
        fold_left (fun '(score, totalChecks) prop =>
                     (if isSpacingSimilar box prop
                      then F64.add score (F64.round (1 # 10)) else score, S totalChecks))
                  spacingProps st2
    | _, _ => st2
    end in
  let '(score, totalChecks) := st3 in
  Ok (if 0 <? totalChecks then F64.div score (Qnat totalChecks) else 0%Q).

Definition calculateRuleMatchScore
    (node : FigmaNode) (rule : CSSRule) (options : EnhancementOptions) : Result Q :=
  let sel := Str.toLowerCase (selector rule) in
  let nodeName := Str.toLowerCase (name node) in
  let score :=
    match mappingStrategy options with
    | strategy_name => F64.add 0 (calculateNameMatchScore nodeName sel)
    | strategy_class => F64.add 0 (calculateClassMatchScore nodeName sel)
    | strategy_id => F64.add 0 (calculateIdMatchScore nodeName sel)
    | strategy_hybrid =>
        let score :=
          F64.add 0 (F64.mul (calculateNameMatchScore nodeName sel) (F64.round (4 # 10))) in
        let score :=
          F64.add score
                  (F64.mul (calculateClassMatchScore nodeName sel) (F64.round (4 # 10))) in
        F64.add score (F64.mul (calculateIdMatchScore nodeName sel) (F64.round (2 # 10)))
    end in
  (* Style similarity bonus *)
  match fills node with
  | Some _ =>
      bonus <- calculateStyleSimilarityScore node rule options ;;
      Ok (F64.add score bonus)
  | None => Ok score
  end.

(** *** Mapping *)

(** The comparator handed to [sort]: [score(b) - score(a)]. *)
Definition compareRules (node : FigmaNode) (options : EnhancementOptions)
    (a b : CSSRule) : Result Q :=
  sb <- calculateRuleMatchScore node b options ;;
  sa <- calculateRuleMatchScore node a options ;;
  Ok (F64.sub sb sa).

(** [Array.prototype.sort] with a comparator, which is stable: [x], which
    stood before every element of the sorted [l], goes before the first
    element it does not have to follow.  Every stable sort gives this result
    when the comparator is a consistent order, as a difference of scores is:
    rounding the difference keeps its sign. *)
Fixpoint insertM {A : Type} (cmp : A -> A -> Result Q) (x : A) (l : list A)
  : Result (list A) :=
  match l with
  | [] => Ok [x]
  | y :: l' =>
      c <- cmp x y ;;
      if Qle_bool c 0 then Ok (x :: l)
      else (l'' <- insertM cmp x l' ;; Ok (y :: l''))
  end.

Fixpoint sortM {A : Type} (cmp : A -> A -> Result Q) (l : list A) : Result (list A) :=
  match l with
  | [] => Ok []
  | x :: l' => sorted <- sortM cmp l' ;; insertM cmp x sorted
  end.

Definition findMatchingCSSRules
    (node : FigmaNode) (cssRules : list CSSRule) (options : EnhancementOptions)
  : Result (list CSSRule) :=
  matchingRules <-
    forEachM (fun matchingRules rule =>
                matchScore <- calculateRuleMatchScore node rule options ;;
                Ok (if Qgtb matchScore 0 then matchingRules ++ [rule] else matchingRules))
             cssRules [] ;;
  sortM (compareRules node options) matchingRules.

Definition calculateMappingConfidence
    (node : FigmaNode) (rules : list CSSRule) (options : EnhancementOptions) : Result Q :=
  total <-
    forEachM (fun sum rule =>
                sc <- calculateRuleMatchScore node rule options ;; Ok (F64.add sum sc))
             rules 0%Q ;;
  let avgScore := F64.div total (Qnat (List.length rules)) in
  (* Boost confidence for exact name matches *)
  let boosted :=
    if existsb (fun rule => Str.includes (Str.toLowerCase (selector rule))
                                         (Str.toLowerCase (name node))) rules
    then F64.mul avgScore (F64.round (12 # 10)) else avgScore in
  (* Reduce confidence for generic selectors *)
  let reduced :=
    if existsb (fun rule => includes_any ["div"; "span"; "p"; "h1"; "h2"; "h3"]
                                         (selector rule)) rules
    then F64.mul boosted (F64.round (8 # 10)) else boosted in
  Ok (Math_min reduced 1).

Definition determineMappingMethod
    (node : FigmaNode) (rules : list CSSRule) (options : EnhancementOptions)
  : MappingMethod :=
  let sel := match rules with
             | rule :: _ => selector rule
             | [] => EmptyString
             end in
  if Str.includes sel "#" then method_id
  else if Str.includes sel "." then method_class
  else if Str.includes (Str.toLowerCase sel) (Str.toLowerCase (name node)) then method_name
  else if enableAutoMapping options then method_auto
  else method_manual.

(** The body of the [forEach] of [createNodeMappings]: what one node adds to
    [mappings]. *)
Definition mapNode
    (cssRules : list CSSRule) (options : EnhancementOptions)
    (mappings : list NodeCSSMapping) (node : FigmaNode) : Result (list NodeCSSMapping) :=
  matchingRules <- findMatchingCSSRules node cssRules options ;;
  if 0 <? List.length matchingRules then
    conf <- calculateMappingConfidence node matchingRules options ;;
    if Qgeb conf (minConfidence options) then
      Ok (mappings ++ [mkMapping (id node) (name node) (type node) matchingRules conf
                         (determineMappingMethod node matchingRules options) None])
    else Ok mappings
  else Ok mappings.

Definition createNodeMappings
    (document : FigmaNode) (cssRules : list CSSRule) (options : EnhancementOptions)
  : Result (list NodeCSSMapping) :=
  forEachM (mapNode cssRules options) (getAllNodes document []) [].

(** *** Conflicts *)

Definition detectPropertyConflict
    (node : FigmaNode) (prop : CSSProperty) (options : EnhancementOptions)
  : option StyleConflict :=
  let colorConflict :=
    match Str.includes (property prop) "color", fills node, negb (ignoreColors options) with
    | true, Some nodeFills, true =>
        match extractFigmaColor nodeFills, extractCSSColor (value prop) with
        | Some figmaColor, Some cssColor =>
            if Str.truthy figmaColor && Str.truthy cssColor
               && negb (areColorsEqual figmaColor cssColor)
            then Some (mkConflict color_conflict (property prop) figmaColor cssColor
                         (getConflictSeverity figmaColor cssColor)
                         ("Consider using Figma color: " ++ figmaColor)%string)
            else None
        | _, _ => None
        end
    | _, _, _ => None
    end in
  match colorConflict with
  | Some conflict => Some conflict
  | None =>
      match includes_any ["font-size"; "font-weight"; "font-family"] (property prop),
            style node, negb (ignoreTypography options) with
      | true, Some nodeStyle, true =>
          match extractFigmaTypography nodeStyle (property prop) with
          | Some figmaValue =>
              if Str.truthy figmaValue && negb (String.eqb (value prop) figmaValue)
              then Some (mkConflict typography (property prop) figmaValue (value prop)
                           medium
                           ("Consider using Figma typography: " ++ figmaValue)%string)
              else None
          | None => None
          end
      | _, _, _ => None
      end
  end.

Definition option_to_list {A : Type} (o : option A) : list A :=
  match o with
  | Some a => [a]
  | None => []
  end.

Definition detectConflicts
    (mappings : list NodeCSSMapping) (document : FigmaNode) (options : EnhancementOptions)
  : list StyleConflict :=
  let allNodes := getAllNodes document [] in
  flat_map (fun mapping =>
    match find (fun n => String.eqb (id n) (nodeId mapping)) allNodes with
    | None => []
    | Some node =>
        flat_map (fun rule =>
          flat_map (fun prop => option_to_list (detectPropertyConflict node prop options))
                   (properties rule))
          (cssRules mapping)
    end) mappings.

(** *** The result *)

Definition coverageOf (mappings : list NodeCSSMapping) (document : FigmaNode) : Q :=
  F64.div (Qnat (List.length mappings)) (Qnat (List.length (getAllNodes document []))).

Definition generateEnhancedCode
    (clk : Clock) (figmaData : FigmaApiResponse) (mappings : list NodeCSSMapping)
    (conflicts : list StyleConflict) (options : EnhancementOptions) : EnhancedCode :=
  let enhancedData :=
    mkEnhancedData figmaData mappings conflicts
      (coverageOf mappings (document figmaData)) options (Date_toISOString clk 0) in
  mkEnhancedCode (Date_toISOString clk 1)
    (Num.toFixed1 (F64.mul (coverageOf mappings (document figmaData)) (inject_Z 100)))
    enhancedData.

Definition noMappingsSuggestion : string :=
  "No CSS mappings found. Consider adjusting your CSS selectors to match Figma node names.".
Definition lowCoverageSuggestion : string :=
  "Low CSS coverage. Consider using more specific selectors or enabling auto-mapping.".
Definition lowConfidenceSuggestion : string :=
  "Many mappings have low confidence. Consider switching to a different mapping strategy.".

Definition is_high (c : StyleConflict) : bool :=
  match severity c with
  | high => true
  | _ => false
  end.

(** The array [suggestions] of [generateSuggestions] before it is sliced. *)
Definition collectSuggestions
    (mappings : list NodeCSSMapping) (conflicts : list StyleConflict) : list string :=
  (* Coverage suggestions *)
  (if List.length mappings =? 0 then [noMappingsSuggestion]
   else if Qltb (F64.div (Qnat (List.length mappings)) (Qnat getAllNodes_length))
                (F64.round (3 # 10))
        then [lowCoverageSuggestion] else [])
  (* Conflict suggestions *)
  ++ (if 0 <? List.length conflicts then
        let highSeverityConflicts := filter is_high conflicts in
        if 0 <? List.length highSeverityConflicts
        then [(Str.of_nat (List.length highSeverityConflicts)
                ++ " high-severity conflicts found. Review color and typography differences.")%string]
        else []
      else [])
  (* Mapping strategy suggestions *)
  ++ (let lowConfidenceMappings :=
        filter (fun m => Qltb (confidence m) (F64.round (7 # 10))) mappings in
      if Qgtb (Qnat (List.length lowConfidenceMappings))
              (F64.mul (Qnat (List.length mappings)) (F64.round (5 # 10)))
      then [lowConfidenceSuggestion] else []).

(** [xs.slice(0, n)]: a negative [n] counts from the end. *)
Definition slice0 {A : Type} (xs : list A) (n : Z) : list A :=
  if (n <? 0)%Z then firstn (Z.to_nat (Z.of_nat (List.length xs) + n)) xs
  else firstn (Z.to_nat n) xs.

Definition generateSuggestions
    (mappings : list NodeCSSMapping) (conflicts : list StyleConflict)
    (options : EnhancementOptions) : list string :=
  slice0 (collectSuggestions mappings conflicts) (maxSuggestions options).

(** [CSSEnhancer.enhance].  Readings 0 and 3 of [performance.now()] are its
    own, readings 1 and 2 are the parser's. *)
Definition enhance
    (clk : Clock) (figmaData : FigmaApiResponse) (cssText : string)
    (options : EnhancementOptions) : Result CSSEnhancementResult :=
  let startTime := performance_now clk 0 in
  let cssParseResult := parse (performance_now clk 1) (performance_now clk 2) cssText in
  if negb (isValid cssParseResult) then Throw (Error "CSS parsing failed")
  else
    mappingResults <-
      createNodeMappings (document figmaData) (rules cssParseResult) options ;;
    let conflicts := detectConflicts mappingResults (document figmaData) options in
    let enhancedCode :=
      generateEnhancedCode clk figmaData mappingResults conflicts options in
    let processingTime := F64.sub (performance_now clk 3) startTime in
    Ok (mkResult enhancedCode mappingResults
          (coverageOf mappingResults (document figmaData))
          conflicts
          (generateSuggestions mappingResults conflicts options)
          (mkStatistics (List.length (getAllNodes (document figmaData) []))
             (List.length mappingResults)
             (List.length (rules cssParseResult))
             (List.length conflicts)
             processingTime)).

End CSSEnhancer.

(** ** The string helpers of the legacy parser ([cssParser.ts])

    [parseLegacy] and the functions that build its records are objects and
    sets of the runtime; the helpers below are the part of it that is a
    function from strings to strings. *)

Module LegacyParser.
Import RegExp.

(** One pattern character under the [i] flag: the two characters have the
    same canonical form.  Below 256 and for the ASCII characters the
    patterns of this file use, that is having the same lower case. *)
Definition ChrI (c : ascii) : regex :=
  Cls (fun a => Ascii.eqb (Str.lower_char a) (Str.lower_char c)).

Fixpoint LitI (s : string) : regex :=
  match s with
  | EmptyString => Eps
  | String a s' => Seq (ChrI a) (LitI s')
  end.

(** [\w] *)
Definition is_word_char (a : ascii) : bool :=
  Str.is_alpha a || Str.is_digit a || Str.is_char "_" a.

Definition test (r : regex) (s : string) : bool :=
  match search r s with
  | Some _ => true
  | None => false
  end.

(** [/\.(component|figma|layer|frame|group)/i] *)
Definition componentRegex : regex :=
  Seq (Chr ".")
      (Grp 1 (Alt (LitI "component")
             (Alt (LitI "figma")
             (Alt (LitI "layer")
             (Alt (LitI "frame")
                  (LitI "group")))))).

Definition isComponentSelector (selector : string) : bool :=
  test componentRegex selector.

Definition layerName (kind : string) : regex :=
  Seq (LitI kind) (Seq (Chr "-") (Plus true (Cls is_word_char))).

(** [/\.(layer-\w+|component-\w+|frame-\w+)/i] *)
Definition layerRegex : regex :=
  Seq (Chr ".")
      (Grp 1 (Alt (layerName "layer")
             (Alt (layerName "component")
                  (layerName "frame")))).

Definition extractFigmaLayer (selector : string) : option string :=
  match search layerRegex selector with
  | Some m => group 1 (groups m)
  | None => None
  end.

(** [/color|background|border|shadow|fill|stroke/i] *)
Definition colorPropertyRegex : regex :=
  Alt (LitI "color")
 (Alt (LitI "background")
 (Alt (LitI "border")
 (Alt (LitI "shadow")
 (Alt (LitI "fill")
      (LitI "stroke"))))).

Definition isColorProperty (prop : string) : bool := test colorPropertyRegex prop.

(** [/#([0-9A-Fa-f]{3}|[0-9A-Fa-f]{6})/g] *)
Definition hexRegex : regex :=
  Seq (Chr "#") (Grp 1 (Alt (Repeat 3 (Cls Str.is_hex)) (Repeat 6 (Cls Str.is_hex)))).

(** [/rgba?\([^)]+\)/g] and [/hsla?\([^)]+\)/g] *)
Definition functionalColor (fn : string) : regex :=
  Seq (Lit fn)
 (Seq (Opt (Chr "a"))
 (Seq (Chr "(")
 (Seq (Plus true (NotChr ")"))
      (Chr ")")))).

Definition hexMatches (value : string) : list string :=
  map m0 (match_all hexRegex value).
Definition rgbMatches (value : string) : list string :=
  map m0 (match_all (functionalColor "rgb") value).
Definition hslMatches (value : string) : list string :=
  map m0 (match_all (functionalColor "hsl") value).

Definition extractColorValues (value : string) : list string :=
  hexMatches value ++ rgbMatches value ++ hslMatches value.

End LegacyParser.

(** ** Vocabulary of the properties *)

Module Spec.
Import RegExp CSSParser CSSEnhancer.

(** *** Matching *)

Fixpoint groups_of (r : regex) : list nat :=
  match r with
  | Eps | Cls _ => []
  | Seq r1 r2 | Alt r1 r2 => groups_of r1 ++ groups_of r2
  | Star _ r1 => groups_of r1
  | Grp i r1 => i :: groups_of r1
  end.

(** The least number of characters a match of [r] consumes. *)
Fixpoint min_length (r : regex) : nat :=
  match r with
  | Eps => 0
  | Cls _ => 1
  | Seq r1 r2 => min_length r1 + min_length r2
  | Alt r1 r2 => Nat.min (min_length r1) (min_length r2)
  | Star _ _ => 0
  | Grp _ r1 => min_length r1
  end.

(** What a successful run of [r] from [(s, c)] leaves to its continuation:
    a state [(s', c')] at least [min_length r] characters further, with the
    groups that are not of [r] untouched. *)
Definition reaches (r : regex) (s : string) (c : captures) (s' : string) (c' : captures)
  : Prop :=
  String.length s' + min_length r <= String.length s
  /\ forall i, ~ In i (groups_of r) -> group i c' = group i c.

(** The input after the longest run of characters of the class [p]. *)
Fixpoint skip (p : ascii -> bool) (s : string) : string :=
  match s with
  | String a s' => if p a then skip p s' else s
  | EmptyString => EmptyString
  end.

(** The run of [p] cannot go on at [s]. *)
Definition run_end (p : ascii -> bool) (s : string) : Prop :=
  match s with
  | String a _ => p a = false
  | EmptyString => True
  end.

(** A regex that matches exactly one character of a class. *)
Definition one_char (r : regex) (p : ascii -> bool) : Prop :=
  forall s, match_at r s =
            match s with
            | String a _ => if p a then Some (mkMatch (String a "") []) else None
            | EmptyString => None
            end.

(** How many characters of [s] are in the class [p]. *)
Fixpoint count_chars (p : ascii -> bool) (s : string) : nat :=
  match s with
  | String a s' => (if p a then 1 else 0) + count_chars p s'
  | EmptyString => 0
  end.

(** The characters the specificity counts ten times. *)
Definition is_class_mark (a : ascii) : bool :=
  Str.is_char "." a || (Str.is_char ":" a || Str.is_char "[" a).

Definition not_semicolon (a : ascii) : bool := negb (Str.is_char ";" a).

(** What follows the value group: [(!important)?;?]. *)
Definition propTail : regex := Seq (Opt (Grp 3 (Lit "!important"))) (Opt (Chr ";")).

(** *** The tree *)

(** The nodes of a tree in pre-order: a node, then its children's subtrees
    from first to last. *)
Fixpoint preorder (node : FigmaNode) : list FigmaNode :=
  match node with
  | mkNode _ _ _ cs _ _ _ =>
      node :: match cs with
              | Some l => flat_map preorder l
              | None => []
              end
  end.

(** *** Ranking *)

(** [a] is ranked before [b]: a higher score, or the same score and an
    earlier position. *)
Definition ranked {A : Type} (f : A -> Q) (pos : A -> nat) (a b : A) : Prop :=
  (f b < f a)%Q \/ ((f a == f b)%Q /\ pos a < pos b).

(** The score of a rule for a node, where computing it does not raise. *)
Definition scoreOf (node : FigmaNode) (options : EnhancementOptions) (rule : CSSRule) : Q :=
  match calculateRuleMatchScore node rule options with
  | Ok sc => sc
  | Throw _ => 0%Q
  end.

(** The score of a rule before the style-similarity bonus is added: what
    the [switch] of [calculateRuleMatchScore] leaves in [score]. *)
Definition baseScore (strategy : MappingStrategy) (nodeName sel : string) : Q :=
  match strategy with
  | strategy_name => F64.add 0 (calculateNameMatchScore nodeName sel)
  | strategy_class => F64.add 0 (calculateClassMatchScore nodeName sel)
  | strategy_id => F64.add 0 (calculateIdMatchScore nodeName sel)
  | strategy_hybrid =>
      F64.add
        (F64.add
           (F64.add 0 (F64.mul (calculateNameMatchScore nodeName sel) (F64.round (4 # 10))))
           (F64.mul (calculateClassMatchScore nodeName sel) (F64.round (4 # 10))))
        (F64.mul (calculateIdMatchScore nodeName sel) (F64.round (2 # 10)))
  end.

(** [m] is the mapping [createNodeMappings] builds for [node]. *)
Definition mapping_of (rs : list CSSRule) (options : EnhancementOptions)
    (node : FigmaNode) (m : NodeCSSMapping) : Prop :=
  exists matchingRules conf,
    findMatchingCSSRules node rs options = Ok matchingRules
    /\ matchingRules <> []
    /\ calculateMappingConfidence node matchingRules options = Ok conf
    /\ (minConfidence options <= conf)%Q
    /\ m = mkMapping (id node) (name node) (type node) matchingRules conf
             (determineMappingMethod node matchingRules options) None.

(** The matched rules of the mapping [m] of a tree, given the parsed rules
    [rs]: [m] belongs to a node of the tree; its rules are not empty; each is
    a parsed rule, the one of its line number, whose score for the node is
    positive; and they are ranked by descending score, an earlier rule first
    among equal scores. *)
Definition well_ranked (rs : list CSSRule) (options : EnhancementOptions)
    (document : FigmaNode) (m : NodeCSSMapping) : Prop :=
  exists node,
    In node (getAllNodes document [])
    /\ nodeId m = id node /\ nodeName m = name node /\ nodeType m = type node
    /\ cssRules m <> []
    /\ (forall rule, In rule (cssRules m) ->
          exists i, nth_error rs i = Some rule
            /\ rule_line rule = S i
            /\ calculateRuleMatchScore node rule options = Ok (scoreOf node options rule)
            /\ (0 < scoreOf node options rule)%Q)
    /\ StronglySorted (ranked (scoreOf node options) rule_line) (cssRules m).

(** *** Outcomes *)

(** The exception of the misspelt call in [calculateStyleSimilarityScore]. *)
Definition misspeltCall : Exception :=
  TypeError "this.areColorssimilar is not a function".

(** The computation returns, or raises [misspeltCall] and nothing else. *)
Definition raises_at_most {A : Type} (e : Exception) (res : Result A) : Prop :=
  match res with
  | Ok _ => True
  | Throw e' => e' = e
  end.

Definition returns {A : Type} (res : Result A) : Prop := exists a, res = Ok a.

Definition is_color_conflict (c : StyleConflict) : bool :=
  match conflict_type c with
  | color_conflict => true
  | _ => false
  end.

(** Two outcomes of [enhance] that differ in nothing but the readings of the
    clocks: the processing time and the two dates in the generated code. *)
Definition same_outcome (r1 r2 : Result CSSEnhancementResult) : Prop :=
  match r1, r2 with
  | Ok a, Ok b =>
      mappingResults a = mappingResults b
      /\ conflicts a = conflicts b
      /\ coverage a = coverage b
      /\ suggestions a = suggestions b
      /\ totalNodes (statistics a) = totalNodes (statistics b)
      /\ mappedNodes (statistics a) = mappedNodes (statistics b)
      /\ stat_cssRules (statistics a) = stat_cssRules (statistics b)
      /\ stat_conflicts (statistics a) = stat_conflicts (statistics b)
      /\ coveragePercent (enhancedCode a) = coveragePercent (enhancedCode b)
      /\ data_figma (enhancedData (enhancedCode a)) = data_figma (enhancedData (enhancedCode b))
      /\ data_mappings (enhancedData (enhancedCode a))
         = data_mappings (enhancedData (enhancedCode b))
      /\ data_conflicts (enhancedData (enhancedCode a))
         = data_conflicts (enhancedData (enhancedCode b))
      /\ data_coverage (enhancedData (enhancedCode a))
         = data_coverage (enhancedData (enhancedCode b))
      /\ data_options (enhancedData (enhancedCode a))
         = data_options (enhancedData (enhancedCode b))
  | Throw e1, Throw e2 => e1 = e2
  | _, _ => False
  end.

(** *** Which inputs reach the colour comparison *)

(** The rule has a declaration whose property name contains [color] or
    [background]. *)
Definition declaresColor (rule : CSSRule) : bool :=
  existsb (fun prop => Str.includes (property prop) "color"
                       || Str.includes (property prop) "background")
          (properties rule).

Definition hasFills (node : FigmaNode) : bool :=
  match fills node with
  | Some _ => true
  | None => false
  end.

(** Scoring [rule] for [node] compares colours. *)
Definition comparesColors (options : EnhancementOptions) (node : FigmaNode)
    (rule : CSSRule) : bool :=
  negb (ignoreColors options) && hasFills node && declaresColor rule.

(** Some node of the tree and some rule of the stylesheet compare colours. *)
Definition reachesColorComparison (options : EnhancementOptions) (document : FigmaNode)
    (rs : list CSSRule) : bool :=
  existsb (fun node => existsb (comparesColors options node) rs) (getAllNodes document []).

(** *** Text *)

(** Every character of [s] is in the class [p]. *)
Fixpoint all_chars (p : ascii -> bool) (s : string) : bool :=
  match s with
  | EmptyString => true
  | String a s' => p a && all_chars p s'
  end.

(** [lit] is a prefix of [s], letter case apart. *)
Fixpoint prefixI (lit s : string) : bool :=
  match lit with
  | EmptyString => true
  | String c lit' =>
      match s with
      | String a s' =>
          Ascii.eqb (Str.lower_char a) (Str.lower_char c) && prefixI lit' s'
      | EmptyString => false
      end
  end.

(** [s] without its first [n] characters. *)
Fixpoint drop (n : nat) (s : string) : string :=
  match n, s with
  | S n', String _ s' => drop n' s'
  | _, _ => s
  end.

(** What [parse] guarantees of each rule it returns. *)
Definition rule_shape (rule : CSSRule) : Prop :=
  Str.truthy (selector rule) = true
  /\ rule_column rule = 1
  /\ specificity rule = calculateSpecificity (selector rule)
  /\ map line (properties rule)
     = seq (rule_line rule) (List.length (properties rule)).

Definition not_open_brace (a : ascii) : bool := negb (Str.is_char "{" a).

(** What [parse] guarantees of the text of a rule: no [{] in the selector;
    declaration names that are not empty and made of letters and hyphens;
    no [;] in a declaration value. *)
Definition rule_text_shape (rule : CSSRule) : Prop :=
  all_chars not_open_brace (selector rule) = true
  /\ forall p, In p (properties rule) ->
       Str.truthy (property p) = true
       /\ all_chars is_prop_char (property p) = true
       /\ all_chars not_semicolon (value p) = true.

(** *** Order *)

(** [l1] is [l2] with some elements left out. *)
Inductive Subseq {A : Type} : list A -> list A -> Prop :=
| Subseq_nil : Subseq [] []
| Subseq_skip (x : A) (l1 l2 : list A) : Subseq l1 l2 -> Subseq l1 (x :: l2)
| Subseq_keep (x : A) (l1 l2 : list A) : Subseq l1 l2 -> Subseq (x :: l1) (x :: l2).


End Spec.

(** ** Scenarios *)

Module Scenario.
Import CSSParser CSSEnhancer Spec.

Definition clock0 : Clock := mkClock (fun i => Qnat i) (fun _ => "2024-01-01T00:00:00.000Z").

Definition leaf (i n : string) : FigmaNode := mkNode i n "FRAME" None None None None.

Definition headerCSS : string := ".header { color: rgb(255,0,0); font-size: 18px; }".

(** Scenario 2: the root [Header] with the solid fill rgb(0,0,255). *)
Definition blueHeader : FigmaNode :=
  mkNode "0:1" "Header" "FRAME" None
    (Some [mkPaint "SOLID" (Some (mkColor 0 0 1))]) None None.

Definition scenario2 : FigmaApiResponse := mkResponse "scenario 2" blueHeader.

(** A root without fills and three children that no rule matches. *)
Definition plainTree : FigmaNode :=
  mkNode "0:1" "Header" "FRAME"
    (Some [leaf "0:2" "zzz"; leaf "0:3" "qqq"; leaf "0:4" "www"]) None None None.

Definition sampleData : FigmaApiResponse := mkResponse "sample" plainTree.
Definition sampleCSS : string := ".header { width: 10px; }".

(** A second clock, which runs twice as fast as [clock0]. *)
Definition clock1 : Clock :=
  mkClock (fun i => Qnat (2 * i)) (fun _ => "2024-01-01T00:00:01.000Z").

(** Scenario 4: a rule block that is never closed. *)
Definition unterminatedCSS : string := ".foo { color: red;".

Definition importantCSS : string := ".a { color: red !important; }".

Definition importantDeclaration : CSSProperty :=
  mkProperty "color" "red !important" false 1.

Definition importantRule : CSSRule := mkRule ".a" [importantDeclaration] 11 1 1.

Definition unwrap {A : Type} (res : Result A)
  : match res with Ok _ => A | Throw _ => unit end :=
  match res with
  | Ok a => a
  | Throw _ => tt
  end.

(** What [enhance] returns for the sample. *)
Definition sampleResult : CSSEnhancementResult :=
  Eval vm_compute in unwrap (enhance clock0 sampleData sampleCSS defaultOptions).

Definition sampleMapping : NodeCSSMapping :=
  Eval vm_compute in hd (mkMapping "" "" "" [] 0 method_manual None)
                        (mappingResults sampleResult).

Definition sampleRule : CSSRule :=
  Eval vm_compute in hd (mkRule "" [] 0 0 0) (cssRules sampleMapping).

(** The confidence computed for the first child of the sample, which is
    below the default threshold. *)
Definition childConfidence : Q :=
  Eval vm_compute in
    unwrap (calculateMappingConfidence (leaf "0:2" "zzz") [sampleRule] defaultOptions).

(** The default options with colours and typography ignored. *)
Definition quietOptions : EnhancementOptions :=
  mkOptions false true true false true strategy_hybrid (1 # 2) 10.

(** Three rules of which the first and the third score the same for the
    root of the sample and the second scores less. *)
Definition rankedCSS : string :=
  ".header { width: 10px; } #header { gap: 1px; } .header { height: 2px; }".

Definition rankedResult : CSSEnhancementResult :=
  Eval vm_compute in unwrap (enhance clock0 sampleData rankedCSS defaultOptions).

Definition rankedMapping : NodeCSSMapping :=
  Eval vm_compute in hd (mkMapping "" "" "" [] 0 method_manual None)
                        (mappingResults rankedResult).

(** A node [Card] and two rules whose scores for it differ in the last
    place only: 0.6 for the first and 0.6000000000000001 for the second. *)
Definition cardData : FigmaApiResponse := mkResponse "card" (leaf "0:1" "Card").

Definition nearTieCSS : string := "#list.card #card { gap: 1px; } .card { gap: 2px; }".

Definition nearTieResult : CSSEnhancementResult :=
  Eval vm_compute in unwrap (enhance clock0 cardData nearTieCSS defaultOptions).

Definition nearTieMapping : NodeCSSMapping :=
  Eval vm_compute in hd (mkMapping "" "" "" [] 0 method_manual None)
                        (mappingResults nearTieResult).

(** A text node [card] with an empty [fills] array and a font size of 16,
    and the rule [card] that declares that font size eighteen times. *)
Definition textCard : FigmaNode :=
  mkNode "0:1" "card" "TEXT" None (Some [])
    (Some (mkTypeStyle (Some (inject_Z 16)) None None)) None.

Definition fontSizesCSS : string :=
  ("card {" ++ String.concat "" (repeat " font-size: 16px;" 18) ++ " }")%string.

Definition fontSizesRule : CSSRule :=
  Eval vm_compute in hd (mkRule "" [] 0 0 0) (rules (parse 0 0 fontSizesCSS)).

(** The default options with the [name] strategy. *)
Definition nameOptions : EnhancementOptions :=
  mkOptions false false false false true strategy_name (1 # 2) 10.

(** The conflict scenario 2 is about, as the conflict detector reports it. *)
Definition scenario2Conflict : StyleConflict :=
  mkConflict color_conflict "color" "rgb(0, 0, 255)" "rgb(255,0,0)" medium
    "Consider using Figma color: rgb(0, 0, 255)".

End Scenario.

(** * Properties *)

(** ** The matcher *)

Module RegExpFacts.
Import RegExp Spec.

Lemma star_loop_cont (body : string -> captures -> Cont -> option (string * captures))
    (gs : list nat) (greedy : bool) (k : Cont) :
  (forall s c k' res, body s c k' = Some res ->
     exists s' c', k' s' c' = Some res
       /\ String.length s' <= String.length s
       /\ forall i, ~ In i gs -> group i c' = group i c) ->
  forall n s c res, star_loop body greedy k n s c = Some res ->
    exists s' c', k s' c' = Some res
      /\ String.length s' <= String.length s
      /\ forall i, ~ In i gs -> group i c' = group i c.
Proof.
  intros Hbody n.
  induction n as [|n IH]; intros s c res H; simpl in H.
  - exists s, c. auto.
  - assert (Hagain : forall x,
              body s c (fun s' c' =>
                if String.length s' <? String.length s
                then star_loop body greedy k n s' c' else None) = Some x ->
              exists s' c', k s' c' = Some x
                /\ String.length s' <= String.length s
                /\ forall i, ~ In i gs -> group i c' = group i c).
    { intros x Hx. apply Hbody in Hx as (s1 & c1 & H1 & L1 & P1).
      destruct (String.length s1 <? String.length s); [|discriminate].
      apply IH in H1 as (s2 & c2 & H2 & L2 & P2).
      exists s2, c2. repeat split; [assumption | lia |].
      intros i Hi. rewrite P2, P1; auto. }
    destruct greedy.
    + destruct (body s c _) as [x|] eqn:E.
      * inversion H; subst. now apply Hagain.
      * exists s, c. auto.
    + destruct (k s c) as [x|] eqn:E.
      * inversion H; subst. exists s, c. auto.
      * now apply Hagain.
Qed.

Lemma rmatch_cont (r : regex) :
  forall s c k res, rmatch r s c k = Some res ->
    exists s' c', k s' c' = Some res /\ reaches r s c s' c'.
Proof.
  unfold reaches.
  induction r as [|p|r1 IH1 r2 IH2|r1 IH1 r2 IH2|greedy r1 IH1|j r1 IH1];
    intros s c k res H; cbn [rmatch] in H.
  - exists s, c. simpl. repeat split; auto. lia.
  - destruct s as [|a s']; [discriminate|].
    destruct (p a); [|discriminate].
    exists s', c. simpl. repeat split; auto. lia.
  - apply IH1 in H as (s1 & c1 & H1 & L1 & P1).
    apply IH2 in H1 as (s2 & c2 & H2 & L2 & P2).
    exists s2, c2. simpl. repeat split; [assumption | lia |].
    intros i Hi. rewrite P2, P1; auto; intro; apply Hi, in_or_app; auto.
  - destruct (rmatch r1 s c k) as [x|] eqn:E.
    + inversion H; subst. apply IH1 in E as (s1 & c1 & H1 & L1 & P1).
      exists s1, c1. simpl. repeat split; [assumption | lia |].
      intros i Hi. apply P1. intro; apply Hi, in_or_app; auto.
    + apply IH2 in H as (s1 & c1 & H1 & L1 & P1).
      exists s1, c1. simpl. repeat split; [assumption | lia |].
      intros i Hi. apply P1. intro; apply Hi, in_or_app; auto.
  - apply star_loop_cont with (gs := groups_of r1) in H.
    + destruct H as (s1 & c1 & H1 & L1 & P1).
      exists s1, c1. simpl. repeat split; [assumption | lia | assumption].
    + intros s0 c0 k' res0 H0. apply IH1 in H0 as (s1 & c1 & H1 & L1 & P1).
      exists s1, c1. repeat split; [assumption | lia | assumption].
  - apply IH1 in H as (s1 & c1 & H1 & L1 & P1).
    exists s1, ((j, taken s s1) :: c1). simpl. repeat split; [assumption | lia |].
    intros i Hi. simpl.
    destruct (Nat.eqb_spec i j) as [->|Hne].
    + exfalso. apply Hi. now left.
    + apply P1. intro. apply Hi. now right.
Qed.

Lemma skip_run_end (p : ascii -> bool) (s : string) : run_end p (skip p s).
Proof.
  induction s as [|a s IH]; simpl; [exact I|].
  destruct (p a) eqn:E; [assumption | exact E].
Qed.

(** A greedy quantifier over a character class [p], followed by [k]: when
    [k] accepts wherever the run of [p] can end, the match is the one that
    takes the whole run. *)
Lemma star_greedy_class (p : ascii -> bool) (k : Cont) (c : captures) :
  (forall s, run_end p s -> k s c <> None) ->
  forall s n, String.length s < n ->
    star_loop (rmatch (Cls p)) true k n s c = k (skip p s) c.
Proof.
  intros Hk s.
  induction s as [|a s IH]; intros n Hn; (destruct n as [|n]; [inversion Hn|]); simpl.
  - reflexivity.
  - destruct (p a) eqn:E.
    + replace (String.length s <? S (String.length s)) with true
        by (symmetry; apply Nat.ltb_lt; lia).
      simpl in Hn. rewrite IH by lia.
      destruct (k (skip p s) c) eqn:Ek; [reflexivity|].
      exfalso. exact (Hk _ (skip_run_end p s) Ek).
    + reflexivity.
Qed.

(** Every match a global scan reports is a match at some position. *)
Lemma match_all_from_In (r : regex) (m : RegExpMatch) :
  forall s n, In m (match_all_from r s n) -> exists s', match_at r s' = Some m.
Proof.
  induction s as [|a s IH]; intros n H.
  - destruct n; simpl in H; [|contradiction].
    destruct (match_at r "") as [m'|] eqn:E; [|contradiction].
    destruct H as [->|[]]. now exists "".
  - destruct n; simpl in H; [|now apply IH in H].
    destruct (match_at r (String a s)) as [m'|] eqn:E.
    + destruct H as [->|H]; [now exists (String a s) | now apply IH in H].
    + now apply IH in H.
Qed.

Lemma taken_one (a : ascii) (s : string) : taken (String a s) s = String a "".
Proof.
  unfold taken. simpl String.length.
  replace (S (String.length s) - String.length s) with 1 by lia.
  simpl. now destruct s.
Qed.

Lemma one_char_Cls (p : ascii -> bool) : one_char (Cls p) p.
Proof.
  intros [|a s]; unfold match_at; simpl; [reflexivity|].
  destruct (p a); [|reflexivity]. unfold accept. now rewrite taken_one.
Qed.

Lemma one_char_Alt (r1 r2 : regex) (p1 p2 : ascii -> bool) :
  one_char r1 p1 -> one_char r2 p2 -> one_char (Alt r1 r2) (fun a => p1 a || p2 a).
Proof.
  intros H1 H2 s. specialize (H1 s). specialize (H2 s).
  unfold match_at in *. simpl.
  destruct (rmatch r1 s [] accept) as [[s1 c1]|] eqn:E1.
  - destruct s as [|a s]; [discriminate|].
    destruct (p1 a); [|discriminate]. exact H1.
  - destruct s as [|a s]; [exact H2|].
    destruct (p1 a); [discriminate|]. exact H2.
Qed.

Lemma match_all_one_char (r : regex) (p : ascii -> bool) :
  one_char r p -> forall s, List.length (match_all r s) = count_chars p s.
Proof.
  intros H s. unfold match_all.
  induction s as [|a s IH]; simpl.
  - now rewrite (H "").
  - rewrite (H (String a s)).
    destruct (p a); simpl; now rewrite IH.
Qed.

(** A match consumes at least [min_length r] characters.  For [ruleRegex]
    and [propRegex] that is more than none, so each turn of the parser's
    [exec] loops starts further in the text. *)
Lemma length_substring_0 (n : nat) (s : string) :
  String.length (String.substring 0 n s) = Nat.min n (String.length s).
Proof.
  revert n. induction s as [|a s IH]; intros [|n]; simpl; try reflexivity.
  now rewrite IH.
Qed.

Lemma match_at_min_length (r : regex) (s : string) (m : RegExpMatch) :
  match_at r s = Some m -> min_length r <= String.length (m0 m).
Proof.
  unfold match_at.
  destruct (rmatch r s [] accept) as [[s' c']|] eqn:E; [|discriminate].
  intros H. inversion H; subst; clear H. simpl.
  apply rmatch_cont in E as (s1 & c1 & Hk & Hlen & _).
  unfold accept in Hk. inversion Hk; subst.
  unfold taken. rewrite length_substring_0. lia.
Qed.

Lemma split_from_nonempty (r : regex) (s : string) :
  forall skip cur, split_from r s skip cur <> [].
Proof.
  induction s as [|a s IH]; intros skip cur; simpl; [discriminate|].
  destruct skip; [|apply IH].
  destruct (match_at r (String a s)) as [m|]; [|apply IH].
  destruct (String.length (m0 m)); [destruct cur|]; try discriminate. apply IH.
Qed.

Lemma split_nonempty (r : regex) (s : string) :
  match_at r "" = None -> 1 <= List.length (split r s).
Proof.
  intros H. destruct s as [|a s].
  - unfold split. rewrite H. simpl. lia.
  - unfold split. pose proof (split_from_nonempty r (String a s) 0 "") as Hne.
    destruct (split_from r (String a s) 0 ""); [contradiction | simpl; lia].
Qed.

End RegExpFacts.

(** ** The parser *)

Module ParserFacts.
Import RegExp CSSParser Spec RegExpFacts.

Lemma rmatch_Seq (r1 r2 : regex) (s : string) (c : captures) (k : Cont) :
  rmatch (Seq r1 r2) s c k = rmatch r1 s c (fun s' c' => rmatch r2 s' c' k).
Proof. reflexivity. Qed.

Lemma rmatch_Grp (i : nat) (r : regex) (s : string) (c : captures) (k : Cont) :
  rmatch (Grp i r) s c k = rmatch r s c (fun s' c' => k s' ((i, taken s s') :: c')).
Proof. reflexivity. Qed.

Lemma rmatch_Star (greedy : bool) (r : regex) (s : string) (c : captures) (k : Cont) :
  rmatch (Star greedy r) s c k = star_loop (rmatch r) greedy k (S (String.length s)) s c.
Proof. reflexivity. Qed.

(** *** Progress of the two [exec] loops *)

Lemma ruleRegex_progress (s : string) (m : RegExpMatch) :
  match_at ruleRegex s = Some m -> 4 <= String.length (m0 m).
Proof. apply match_at_min_length. Qed.

Lemma propRegex_progress (s : string) (m : RegExpMatch) :
  match_at propRegex s = Some m -> 3 <= String.length (m0 m).
Proof. apply match_at_min_length. Qed.

(** *** The [!important] group of [propRegex] *)

(** Where the value [[^;]+] ends, at a semicolon or at the end of the
    declarations, the optional group has nothing to match, and the rest of
    the pattern accepts without it. *)
Lemma propTail_at_run_end (s : string) (c : captures) :
  run_end not_semicolon s -> exists rest, rmatch propTail s c accept = Some (rest, c).
Proof.
  destruct s as [|a s]; simpl run_end; intros H.
  - exists "". reflexivity.
  - apply negb_false_iff in H. unfold Str.is_char in H.
    apply Ascii.eqb_eq in H. subst a.
    exists s. reflexivity.
Qed.

Lemma value_group_keeps_3 (s : string) (c : captures) (res : string * captures) :
  rmatch (Seq (Grp 2 (Plus true (NotChr ";"))) propTail) s c accept = Some res ->
  group 3 (snd res) = group 3 c.
Proof.
  intros H.
  rewrite rmatch_Seq, rmatch_Grp in H. unfold Plus in H. rewrite rmatch_Seq in H.
  destruct s as [|a s]; [discriminate|].
  cbn [rmatch NotChr] in H.
  destruct (negb (Str.is_char ";" a)); [|discriminate].
  set (k := fun (s' : string) (c' : captures) =>
              rmatch propTail s' ((2, taken (String a s) s') :: c') accept) in H.
  change (star_loop (rmatch (Cls not_semicolon)) true k (S (String.length s)) s c
          = Some res) in H.
  rewrite star_greedy_class in H by
    (try lia; intros s' Hs'; unfold k;
     destruct (propTail_at_run_end s' ((2, taken (String a s) s') :: c) Hs') as [rest ->];
     discriminate).
  unfold k in H.
  destruct (propTail_at_run_end (skip not_semicolon s)
              ((2, taken (String a s) (skip not_semicolon s)) :: c)
              (skip_run_end _ _)) as [rest Hrest].
  rewrite Hrest in H. inversion H; subst. reflexivity.
Qed.

Lemma propRegex_group_3 (s : string) (m : RegExpMatch) :
  match_at propRegex s = Some m -> group 3 (groups m) = None.
Proof.
  unfold match_at.
  destruct (rmatch propRegex s [] accept) as [[s' c']|] eqn:E; [|discriminate].
  intros H. inversion H; subst; clear H. simpl groups.
  unfold propRegex in E.
  rewrite rmatch_Seq in E. apply rmatch_cont in E as (s1 & c1 & E & _ & P1).
  rewrite rmatch_Seq in E. apply rmatch_cont in E as (s2 & c2 & E & _ & P2).
  rewrite rmatch_Seq in E. apply rmatch_cont in E as (s3 & c3 & E & _ & P3).
  rewrite rmatch_Seq in E. apply rmatch_cont in E as (s4 & c4 & E & _ & P4).
  apply value_group_keeps_3 in E. simpl snd in E.
  rewrite E, P4, P3, P2, P1; simpl; try tauto.
  intros [H|H]; [discriminate | exact H].
Qed.

Lemma properties_of_matches_important (ms : list RegExpMatch) :
  (forall m, In m ms -> group 3 (groups m) = None) ->
  forall startLine lineOffset p,
    In p (properties_of_matches ms startLine lineOffset) -> important p = false.
Proof.
  induction ms as [|m ms IH]; intros Hms startLine lineOffset p H; simpl in H.
  - contradiction.
  - destruct H as [<-|H].
    + simpl. unfold group_truthy. now rewrite (Hms m (or_introl eq_refl)).
    + apply IH in H; [assumption|]. intros m' Hm'. apply Hms. now right.
Qed.

Lemma parsePropertiesEnhanced_Ok (declarations : string) (startLine : nat) :
  parsePropertiesEnhanced declarations startLine
  = Ok (properties_of_matches (match_all propRegex declarations) startLine 0).
Proof. reflexivity. Qed.

Lemma parsePropertiesEnhanced_important
    (declarations : string) (startLine : nat) (props : list CSSProperty) (p : CSSProperty) :
  parsePropertiesEnhanced declarations startLine = Ok props ->
  In p props -> important p = false.
Proof.
  rewrite parsePropertiesEnhanced_Ok. intros H Hp. inversion H; subst; clear H.
  apply properties_of_matches_important in Hp; [assumption|].
  intros m Hm. apply match_all_from_In in Hm as [s' Hs'].
  now apply propRegex_group_3 in Hs'.
Qed.

(** *** Invariants of the scanning loop *)

Lemma fold_left_invariant {A B : Type} (f : A -> B -> A) (P : A -> Prop) :
  (forall a b, P a -> P (f a b)) ->
  forall l a, P a -> P (fold_left f l a).
Proof.
  intros Hstep l. induction l as [|b l IH]; intros a Ha; simpl; auto.
Qed.

Opaque parsePropertiesEnhanced calculateSpecificity.

Ltac parse_step st m :=
  unfold parseStep;
  destruct (negb (Str.truthy (Str.trim (group_text 1 m)))
            || negb (Str.truthy (Str.trim (group_text 2 m)))); simpl;
  [| destruct (parsePropertiesEnhanced (Str.trim (group_text 2 m)) (st_lineNumber st))
       as [props|e] eqn:Eprops; simpl ].

Lemma scan_isValid (cleanCSS : string) : st_isValid (scan cleanCSS) = true.
Proof.
  unfold scan. apply fold_left_invariant; [|reflexivity].
  intros st m Hst. parse_step st m; try assumption.
  rewrite parsePropertiesEnhanced_Ok in Eprops. discriminate.
Qed.

Lemma scan_important (cleanCSS : string) (rule : CSSRule) (p : CSSProperty) :
  In rule (st_rules (scan cleanCSS)) -> In p (properties rule) -> important p = false.
Proof.
  intros Hrule Hp. revert rule Hrule p Hp. unfold scan.
  apply (fold_left_invariant parseStep
           (fun st => forall rule, In rule (st_rules st) ->
                      forall p, In p (properties rule) -> important p = false)).
  - intros st m Hst rule. parse_step st m; try apply Hst.
    intros Hin p Hp. apply in_app_or in Hin as [Hin|[<-|[]]].
    + now apply (Hst rule).
    + simpl in Hp. now apply (parsePropertiesEnhanced_important _ _ _ _ Eprops).
  - intros rule [].
Qed.

(** The rules carry the line numbers 1, 2, 3, ... in parse order. *)
Lemma scan_lines (cleanCSS : string) :
  map rule_line (st_rules (scan cleanCSS))
  = seq 1 (List.length (st_rules (scan cleanCSS))).
Proof.
  unfold scan.
  apply (fold_left_invariant parseStep
           (fun st => st_lineNumber st = S (List.length (st_rules st))
                      /\ map rule_line (st_rules st) = seq 1 (List.length (st_rules st))));
    [|split; reflexivity].
  intros st m [Hl Hm]. parse_step st m.
  - now split.
  - rewrite length_app, map_app, Hm. simpl.
    rewrite Nat.add_1_r. split; [now rewrite Hl|].
    rewrite seq_S, Hl. reflexivity.
  - rewrite parsePropertiesEnhanced_Ok in Eprops. discriminate.
Qed.

Transparent parsePropertiesEnhanced calculateSpecificity.

Lemma parse_isValid (t0 t1 : Q) (cssText : string) : isValid (parse t0 t1 cssText) = true.
Proof. unfold parse. simpl. apply scan_isValid. Qed.

Lemma parse_rules_clock (t0 t1 t0' t1' : Q) (cssText : string) :
  rules (parse t0 t1 cssText) = rules (parse t0' t1' cssText).
Proof. reflexivity. Qed.

Lemma parse_lines (t0 t1 : Q) (cssText : string) (i : nat) (rule : CSSRule) :
  nth_error (rules (parse t0 t1 cssText)) i = Some rule -> rule_line rule = S i.
Proof.
  unfold parse. simpl rules. intros H.
  pose proof (scan_lines (remove_all commentRegex cssText)) as Hl.
  apply (map_nth_error rule_line) in H. rewrite Hl in H.
  assert (Hi : i < List.length (seq 1 (List.length
                 (st_rules (scan (remove_all commentRegex cssText)))))).
  { apply nth_error_Some. rewrite H. discriminate. }
  rewrite length_seq in Hi.
  rewrite (nth_error_nth' _ 0) in H by (rewrite length_seq; exact Hi).
  rewrite seq_nth in H by exact Hi. inversion H. reflexivity.
Qed.

End ParserFacts.

(** ** Rounding *)

Module F64Facts.
Import F64.
Local Open Scope Q_scope.

Lemma pow2_pos (e : Z) : 0 < pow2 e.
Proof. apply Qpower_0_lt. reflexivity. Qed.

Lemma pow2_add (a b : Z) : pow2 (a + b) == pow2 a * pow2 b.
Proof. apply Qpower_plus. discriminate. Qed.

Lemma pow2_le (a b : Z) : (a <= b)%Z -> pow2 a <= pow2 b.
Proof. intros H. apply Qpower_le_compat_l; [exact H | discriminate]. Qed.

Lemma pow2_Z (k : Z) : (0 <= k)%Z -> pow2 k == inject_Z (2 ^ k).
Proof. intros H. unfold pow2. now rewrite Zpower_Qpower. Qed.

(** *** Rounding to an integer *)

Lemma rne_bounds (x : Q) : (Qfloor x <= rne x <= Qfloor x + 1)%Z.
Proof.
  unfold rne. destruct (x - inject_Z (Qfloor x) ?= 1 # 2); try lia.
  destruct (Z.even (Qfloor x)); lia.
Qed.

Lemma rne_le (x y : Q) : x <= y -> (rne x <= rne y)%Z.
Proof.
  intros H.
  pose proof (Qfloor_resp_le _ _ H) as Hf.
  destruct (Z.eq_dec (Qfloor x) (Qfloor y)) as [E|E].
  - unfold rne. rewrite E.
    destruct (Qcompare_spec (x - inject_Z (Qfloor y)) (1 # 2)) as [H1|H1|H1];
      destruct (Qcompare_spec (y - inject_Z (Qfloor y)) (1 # 2)) as [H2|H2|H2];
      try (destruct (Z.even (Qfloor y))); try lia; exfalso; lra.
  - pose proof (rne_bounds x). pose proof (rne_bounds y). lia.
Qed.

Lemma rne_Z (n : Z) : rne (inject_Z n) = n.
Proof.
  unfold rne. rewrite Qfloor_Z.
  destruct (Qcompare_spec (inject_Z n - inject_Z n) (1 # 2)) as [H|H|H];
    try reflexivity; exfalso; lra.
Qed.

(** *** The exponent *)

Lemma Qnum_pos (x : Q) : 0 < x -> (0 < Qnum x)%Z.
Proof. unfold Qlt. simpl. lia. Qed.

Lemma Q_as_fraction (x : Q) : x * inject_Z (Zpos (Qden x)) == inject_Z (Qnum x).
Proof. destruct x as [p q]. unfold Qeq, Qmult, inject_Z. simpl. lia. Qed.

Lemma log2_bounds (x : Q) :
  0 < x ->
  let e0 := (Z.log2 (Qnum x) - Z.log2 (Zpos (Qden x)) - 53)%Z in
  pow2 (e0 + 52) <= x /\ x < pow2 (e0 + 54).
Proof.
  intros Hx e0.
  pose proof (Qnum_pos x Hx) as Hp.
  pose proof (Z.log2_spec (Qnum x) Hp) as [Hp1 Hp2].
  pose proof (Z.log2_spec (Zpos (Qden x)) eq_refl) as [Hq1 Hq2].
  pose proof (Z.log2_nonneg (Qnum x)) as Hlp.
  pose proof (Z.log2_nonneg (Zpos (Qden x))) as Hlq.
  set (lp := Z.log2 (Qnum x)) in *. set (lq := Z.log2 (Zpos (Qden x))) in *.
  pose proof (Q_as_fraction x) as Hfrac.
  set (q := inject_Z (Zpos (Qden x))) in *.
  assert (Hqpos : 0 < q) by (unfold q, Qlt; simpl; lia).
  assert (Hq1' : pow2 lq <= q).
  { rewrite pow2_Z by lia. unfold q. now rewrite <- Zle_Qle. }
  assert (Hq2' : q < pow2 (lq + 1)).
  { rewrite pow2_Z by lia. unfold q. now rewrite <- Zlt_Qlt. }
  assert (Hp1' : pow2 lp <= x * q).
  { rewrite Hfrac, pow2_Z by lia. now rewrite <- Zle_Qle. }
  assert (Hp2' : x * q < pow2 (lp + 1)).
  { rewrite Hfrac, pow2_Z by lia. now rewrite <- Zlt_Qlt. }
  split.
  - apply Qmult_le_r with (z := pow2 (lq + 1)); [apply pow2_pos|].
    rewrite <- pow2_add. replace (e0 + 52 + (lq + 1))%Z with lp by (unfold e0; lia).
    apply Qle_trans with (1 := Hp1').
    apply Qmult_le_l; [exact Hx | now apply Qlt_le_weak].
  - apply Qmult_lt_r with (z := pow2 lq); [apply pow2_pos|].
    rewrite <- pow2_add. replace (e0 + 54 + lq)%Z with (lp + 1)%Z by (unfold e0; lia).
    apply Qle_lt_trans with (2 := Hp2').
    apply Qmult_le_l; [exact Hx | exact Hq1'].
Qed.

Lemma ulp_exp_spec (x : Q) :
  0 < x -> pow2 (ulp_exp x + 52) <= x /\ x < pow2 (ulp_exp x + 53).
Proof.
  intros Hx. destruct (log2_bounds x Hx) as [H1 H2]. unfold ulp_exp.
  set (e0 := (Z.log2 (Qnum x) - Z.log2 (Zpos (Qden x)) - 53)%Z) in *.
  destruct (Qle_bool (pow2 (e0 + 53)) x) eqn:E.
  - apply Qle_bool_iff in E. split.
    + now replace (e0 + 1 + 52)%Z with (e0 + 53)%Z by lia.
    + now replace (e0 + 1 + 53)%Z with (e0 + 54)%Z by lia.
  - split; [exact H1|]. apply Qnot_le_lt. intros H.
    apply Qle_bool_iff in H. congruence.
Qed.

Lemma ulp_exp_le (x y : Q) : 0 < x -> x <= y -> (ulp_exp x <= ulp_exp y)%Z.
Proof.
  intros Hx Hxy.
  assert (Hy : 0 < y) by lra.
  destruct (ulp_exp_spec x Hx) as [Hx1 _]. destruct (ulp_exp_spec y Hy) as [_ Hy2].
  destruct (Z_le_gt_dec (ulp_exp x) (ulp_exp y)) as [H|H]; [exact H|exfalso].
  assert (pow2 (ulp_exp y + 53) <= pow2 (ulp_exp x + 52)) by (apply pow2_le; lia).
  lra.
Qed.

Lemma scaled_bounds (x : Q) :
  0 < x -> pow2 52 <= x / pow2 (ulp_exp x) /\ x / pow2 (ulp_exp x) <= pow2 53.
Proof.
  intros Hx. destruct (ulp_exp_spec x Hx) as [H1 H2].
  pose proof (pow2_pos (ulp_exp x)) as Hp.
  rewrite Z.add_comm, pow2_add in H1. rewrite Z.add_comm, pow2_add in H2.
  split.
  - apply Qle_shift_div_l; [exact Hp | exact H1].
  - apply Qle_shift_div_r; [exact Hp | now apply Qlt_le_weak].
Qed.

Lemma mantissa_bounds (x : Q) :
  0 < x ->
  pow2 52 <= inject_Z (rne (x / pow2 (ulp_exp x)))
  /\ inject_Z (rne (x / pow2 (ulp_exp x))) <= pow2 53.
Proof.
  intros Hx. destruct (scaled_bounds x Hx) as [H1 H2].
  rewrite (pow2_Z 52) in * by lia. rewrite (pow2_Z 53) in * by lia.
  apply rne_le in H1. apply rne_le in H2. rewrite rne_Z in H1, H2.
  rewrite <- !Zle_Qle. split; assumption.
Qed.

(** *** Rounding *)

Lemma round_pos_value (x : Q) :
  round_pos x == inject_Z (rne (x / pow2 (ulp_exp x))) * pow2 (ulp_exp x).
Proof. unfold round_pos. apply Qred_correct. Qed.

Lemma round_pos_positive (x : Q) : 0 < x -> 0 < round_pos x.
Proof.
  intros Hx. rewrite round_pos_value.
  destruct (mantissa_bounds x Hx) as [H1 _].
  pose proof (pow2_pos 52). pose proof (pow2_pos (ulp_exp x)).
  apply Qmult_lt_0_compat; lra.
Qed.

Lemma round_pos_le (x y : Q) : 0 < x -> x <= y -> round_pos x <= round_pos y.
Proof.
  intros Hx Hxy.
  assert (Hy : 0 < y) by lra.
  rewrite !round_pos_value.
  pose proof (ulp_exp_le x y Hx Hxy) as He.
  pose proof (pow2_pos (ulp_exp x)) as Hpx. pose proof (pow2_pos (ulp_exp y)) as Hpy.
  destruct (Z.eq_dec (ulp_exp x) (ulp_exp y)) as [E|E].
  - rewrite E in *. apply Qmult_le_compat_r; [|now apply Qlt_le_weak].
    rewrite <- Zle_Qle. apply rne_le.
    apply Qmult_le_compat_r; [exact Hxy|].
    apply Qlt_le_weak, Qinv_lt_0_compat, Hpy.
  - destruct (mantissa_bounds x Hx) as [_ Hmx]. destruct (mantissa_bounds y Hy) as [Hmy _].
    apply Qle_trans with (pow2 53 * pow2 (ulp_exp x)).
    + apply Qmult_le_compat_r; [exact Hmx | now apply Qlt_le_weak].
    + apply Qle_trans with (pow2 52 * pow2 (ulp_exp y)).
      * rewrite <- !pow2_add. apply pow2_le. lia.
      * apply Qmult_le_compat_r; [exact Hmy | now apply Qlt_le_weak].
Qed.

Lemma round_sign (x : Q) :
  (0 < x -> 0 < round x) /\ (x == 0 -> round x = 0) /\ (x < 0 -> round x < 0).
Proof.
  unfold round. destruct (Qcompare_spec x 0) as [H|H|H].
  - repeat split; try reflexivity; intros H'; exfalso; lra.
  - repeat split; try (intros H'; exfalso; lra). intros _.
    assert (0 < round_pos (- x)) by (apply round_pos_positive; lra). lra.
  - repeat split; try (intros H'; exfalso; lra). intros _. now apply round_pos_positive.
Qed.

Lemma round_le (x y : Q) : x <= y -> round x <= round y.
Proof.
  intros Hxy.
  destruct (round_sign x) as (Hxp & Hx0 & Hxn).
  destruct (round_sign y) as (Hyp & Hy0 & Hyn).
  destruct (Qcompare_spec x 0) as [Hx|Hx|Hx];
    destruct (Qcompare_spec y 0) as [Hy|Hy|Hy];
    try (exfalso; lra).
  - rewrite (Hx0 Hx), (Hy0 Hy). lra.
  - rewrite (Hx0 Hx). specialize (Hyp Hy). lra.
  - rewrite (Hy0 Hy). specialize (Hxn Hx). lra.
  - unfold round.
    destruct (Qcompare_spec x 0) as [H|H|H]; try (exfalso; lra).
    destruct (Qcompare_spec y 0) as [H'|H'|H']; try (exfalso; lra).
    assert (round_pos (- y) <= round_pos (- x)) by (apply round_pos_le; lra). lra.
  - specialize (Hxn Hx). specialize (Hyp Hy). lra.
  - unfold round.
    destruct (Qcompare_spec x 0) as [H|H|H]; try (exfalso; lra).
    destruct (Qcompare_spec y 0) as [H'|H'|H']; try (exfalso; lra).
    now apply round_pos_le.
Qed.

Lemma round_eq (x y : Q) : x == y -> round x == round y.
Proof. intros H. apply Qle_antisym; apply round_le; lra. Qed.

#[global] Instance round_Proper : Proper (Qeq ==> Qeq) round.
Proof. intros x y H. now apply round_eq. Qed.

Lemma round_nonneg (x : Q) : 0 <= x -> 0 <= round x.
Proof. intros H. change 0 with (round 0). now apply round_le. Qed.

Lemma round_le_0 (x : Q) : round x <= 0 <-> x <= 0.
Proof.
  destruct (round_sign x) as (Hp & H0 & Hn). split; intros H.
  - apply Qnot_lt_le. intros H'. specialize (Hp H'). lra.
  - change 0 with (round 0) at 1. now apply round_le.
Qed.

Lemma round_1 : round 1 = 1.
Proof. vm_compute. reflexivity. Qed.

Lemma rne_eq (x y : Q) : x == y -> rne x = rne y.
Proof. intros H. apply Z.le_antisymm; apply rne_le; lra. Qed.

(** A number of at most 53 significant bits is a double: rounding leaves
    it as it is. *)
Lemma round_representable (m e : Z) :
  (0 < m < 2 ^ 53)%Z -> round (inject_Z m * pow2 e) == inject_Z m * pow2 e.
Proof.
  intros [Hm0 Hm1].
  set (x := inject_Z m * pow2 e).
  assert (Hm : 0 < inject_Z m) by (change 0 with (inject_Z 0); now rewrite <- Zlt_Qlt).
  assert (Hx : 0 < x) by (apply Qmult_lt_0_compat; [exact Hm | apply pow2_pos]).
  unfold round. destruct (Qcompare_spec x 0) as [H|H|H]; try (exfalso; lra).
  rewrite round_pos_value.
  destruct (ulp_exp_spec x Hx) as [H1 H2].
  set (e' := ulp_exp x) in *.
  assert (He : (e' <= e)%Z).
  { destruct (Z_le_gt_dec e' e) as [Hle|Hgt]; [exact Hle|exfalso].
    assert (Hp : pow2 (e + 53) <= pow2 (e' + 52)) by (apply pow2_le; lia).
    assert (Hlt : x < pow2 (e + 53)).
    { unfold x. rewrite Z.add_comm, pow2_add, (pow2_Z 53) by lia.
      apply Qmult_lt_compat_r; [apply pow2_pos | now rewrite <- Zlt_Qlt]. }
    lra. }
  assert (Hscaled : x / pow2 e' == inject_Z (m * 2 ^ (e - e'))).
  { rewrite inject_Z_mult, <- pow2_Z by lia. unfold x, Qdiv.
    rewrite <- Qmult_assoc. apply Qmult_comp; [reflexivity|].
    unfold pow2. rewrite Qpower_minus by discriminate. reflexivity. }
  rewrite (rne_eq _ _ Hscaled), rne_Z, <- Hscaled.
  unfold Qdiv. rewrite <- Qmult_assoc, (Qmult_comm (/ pow2 e')), Qmult_inv_r.
  - apply Qmult_1_r.
  - pose proof (pow2_pos e'). lra.
Qed.

Lemma round_positive (x : Q) : 0 < x -> 0 < round x.
Proof. apply round_sign. Qed.

Lemma round_zero (x : Q) : x == 0 -> round x = 0.
Proof. apply round_sign. Qed.

Lemma round_unit (x : Q) : 0 <= x <= 1 -> 0 <= round x <= 1.
Proof.
  intros [H0 H1]. split; [now apply round_nonneg|].
  rewrite <- round_1. now apply round_le.
Qed.

(** *** The operations *)

Lemma add_le (x x' y y' : Q) : x <= x' -> y <= y' -> add x y <= add x' y'.
Proof. intros Hx Hy. apply round_le. lra. Qed.

Lemma add_nonneg (x y : Q) : 0 <= x -> 0 <= y -> 0 <= add x y.
Proof. intros Hx Hy. apply round_nonneg. lra. Qed.

Lemma add_positive_l (x y : Q) : 0 < x -> 0 <= y -> 0 < add x y.
Proof. intros Hx Hy. apply round_positive. lra. Qed.

Lemma add_positive_r (x y : Q) : 0 <= x -> 0 < y -> 0 < add x y.
Proof. intros Hx Hy. apply round_positive. lra. Qed.

Lemma mul_le_l (x x' c : Q) : 0 <= c -> x <= x' -> mul x c <= mul x' c.
Proof. intros Hc Hx. apply round_le. now apply Qmult_le_compat_r. Qed.

Lemma mul_nonneg (x y : Q) : 0 <= x -> 0 <= y -> 0 <= mul x y.
Proof. intros Hx Hy. apply round_nonneg. now apply Qmult_le_0_compat. Qed.

Lemma mul_positive (x y : Q) : 0 < x -> 0 < y -> 0 < mul x y.
Proof. intros Hx Hy. apply round_positive. now apply Qmult_lt_0_compat. Qed.

Lemma div_nonneg (x y : Q) : 0 <= x -> 0 < y -> 0 <= div x y.
Proof.
  intros Hx Hy. apply round_nonneg. apply Qle_shift_div_l; [exact Hy | lra].
Qed.

Lemma div_positive (x y : Q) : 0 < x -> 0 < y -> 0 < div x y.
Proof.
  intros Hx Hy. apply round_positive. apply Qlt_shift_div_l; [exact Hy | lra].
Qed.

(** The sign of a difference is the sign of the exact difference: two
    numbers compare as their difference compares with zero. *)
Lemma sub_le_0 (x y : Q) : sub x y <= 0 <-> x <= y.
Proof. unfold sub. rewrite round_le_0. split; intros H; lra. Qed.

End F64Facts.

(** ** The enhancer *)

Module EnhancerFacts.
Import RegExp CSSParser CSSEnhancer Spec RegExpFacts ParserFacts F64Facts.

(** *** Loops *)

Lemma forEachM_invariant {A S : Type} (body : S -> A -> Result S) (xs : list A)
    (P : S -> Prop) :
  (forall st x st', In x xs -> P st -> body st x = Ok st' -> P st') ->
  forall st out, P st -> forEachM body xs st = Ok out -> P out.
Proof.
  induction xs as [|x xs IH]; intros Hstep st out Hst H; simpl in H.
  - inversion H; subst. exact Hst.
  - destruct (body st x) as [st'|e] eqn:E; simpl in H; [|discriminate].
    apply (IH (fun st x st' Hx => Hstep st x st' (or_intror Hx)) st' out); [|exact H].
    exact (Hstep st x st' (or_introl eq_refl) Hst E).
Qed.

(** *** The order of the matched rules *)

Section Sorting.
Variable A : Type.
Variable cmp : A -> A -> Result Q.
Variable f : A -> Q.
Variable pos : A -> nat.

Lemma insertM_spec (x : A) (l out : list A) :
  (forall y, In y l -> cmp x y = Ok (F64.sub (f y) (f x))) ->
  (forall y, In y l -> pos x < pos y) ->
  StronglySorted (ranked f pos) l ->
  insertM cmp x l = Ok out ->
  StronglySorted (ranked f pos) out /\ Permutation (x :: l) out.
Proof.
  revert out. induction l as [|y l IH]; intros out Hcmp Hpos Hs H; simpl in H.
  - inversion H; subst. split; [|reflexivity].
    constructor; constructor.
  - rewrite (Hcmp y (or_introl eq_refl)) in H. cbn [bind] in H.
    apply StronglySorted_inv in Hs as [Hs Hy].
    destruct (Qle_bool (F64.sub (f y) (f x)) 0) eqn:E.
    + inversion H; subst; clear H. split; [|reflexivity].
      apply Qle_bool_iff in E. apply (proj1 (sub_le_0 _ _)) in E.
      constructor; [constructor; assumption|].
      assert (Hall : forall z, In z (y :: l) -> (f z <= f x)%Q).
      { intros z [<-|Hz]; [lra|].
        rewrite Forall_forall in Hy. destruct (Hy z Hz) as [Hlt|[Heq _]]; lra. }
      apply Forall_forall. intros z Hz. specialize (Hall z Hz).
      destruct (Qlt_le_dec (f z) (f x)) as [Hlt|Hle]; [now left|].
      right. split; [lra | now apply Hpos].
    + destruct (insertM cmp x l) as [l''|e] eqn:El; cbn [bind] in H; [|discriminate].
      inversion H; subst; clear H.
      destruct (IH l'') as [Hs'' Hp''];
        [intros; apply Hcmp; now right | intros; apply Hpos; now right
        | assumption | reflexivity |].
      split.
      * constructor; [assumption|].
        apply Forall_forall. intros z Hz.
        apply (Permutation_in _ (Permutation_sym Hp'')) in Hz.
        destruct Hz as [Hxz|Hz].
        -- subst z. left.
           destruct (Qlt_le_dec (f x) (f y)) as [Hlt|Hle]; [assumption|].
           assert (Qle_bool (F64.sub (f y) (f x)) 0 = true)
             by (apply Qle_bool_iff, sub_le_0; lra).
           congruence.
        -- rewrite Forall_forall in Hy. now apply Hy.
      * rewrite perm_swap. now constructor.
Qed.

Lemma sortM_spec (l out : list A) :
  (forall x y, In x l -> In y l -> cmp x y = Ok (F64.sub (f y) (f x))) ->
  StronglySorted (fun a b => pos a < pos b) l ->
  sortM cmp l = Ok out ->
  StronglySorted (ranked f pos) out /\ Permutation l out.
Proof.
  revert out. induction l as [|x l IH]; intros out Hcmp Hl H; simpl in H.
  - inversion H; subst. split; constructor.
  - destruct (sortM cmp l) as [sorted|e] eqn:E; simpl in H; [|discriminate].
    apply StronglySorted_inv in Hl as [Hl Hx]. rewrite Forall_forall in Hx.
    destruct (IH sorted) as [Hs Hp];
      [intros; apply Hcmp; now right | assumption | reflexivity |].
    destruct (insertM_spec x sorted out) as [Hs' Hp']; try assumption.
    + intros y Hy. apply Hcmp; [now left|].
      right. exact (Permutation_in _ (Permutation_sym Hp) Hy).
    + intros y Hy. apply Hx. exact (Permutation_in _ (Permutation_sym Hp) Hy).
    + split; [assumption|].
      rewrite <- Hp'. now constructor.
Qed.
End Sorting.

Lemma StronglySorted_filter {A : Type} (R : A -> A -> Prop) (p : A -> bool) (l : list A) :
  StronglySorted R l -> StronglySorted R (filter p l).
Proof.
  induction 1 as [|a l Hl IH Ha]; simpl; [constructor|].
  destruct (p a); [|assumption].
  constructor; [assumption|].
  rewrite Forall_forall in *. intros x Hx. apply Ha.
  now apply filter_In in Hx.
Qed.

Lemma StronglySorted_of_seq {A : Type} (pos : A -> nat) (l : list A) :
  forall a, map pos l = seq a (List.length l) ->
            StronglySorted (fun x y => pos x < pos y) l.
Proof.
  induction l as [|x l IH]; intros a H; [constructor|].
  simpl in H. inversion H as [[Hx Hl]].
  constructor; [now apply (IH (S (pos x)))|].
  apply Forall_forall. intros y Hy.
  apply (in_map pos) in Hy. rewrite Hl in Hy. apply in_seq in Hy. lia.
Qed.

(** *** Numbers *)

Lemma Qltb_lt (x y : Q) : Qltb x y = true <-> (x < y)%Q.
Proof.
  unfold Qltb. rewrite negb_true_iff. split; intros H.
  - apply Qnot_le_lt. intros Hle. apply Qle_bool_iff in Hle. congruence.
  - destruct (Qle_bool y x) eqn:E; [|reflexivity].
    apply Qle_bool_iff in E. exfalso. exact (Qlt_not_le _ _ H E).
Qed.

Lemma Qnat_le (a b : nat) : a <= b -> (Qnat a <= Qnat b)%Q.
Proof. intros H. unfold Qnat. rewrite <- Zle_Qle. lia. Qed.

Lemma Qnat_pos (a : nat) : 1 <= a -> (0 < Qnat a)%Q.
Proof. intros H. unfold Qnat. change 0%Q with (inject_Z 0). rewrite <- Zlt_Qlt. lia. Qed.

Lemma ratio_bounds (a b : nat) :
  a <= b -> 1 <= b -> (0 <= F64.div (Qnat a) (Qnat b) <= 1)%Q.
Proof.
  intros Hab Hb.
  pose proof (Qnat_pos b Hb) as Hpos.
  pose proof (Qnat_le 0 a (Nat.le_0_l a)) as Ha. change (Qnat 0) with 0%Q in Ha.
  pose proof (Qnat_le a b Hab) as Hle.
  apply round_unit. split.
  - apply Qle_shift_div_l; [assumption | lra].
  - apply Qle_shift_div_r; [assumption | lra].
Qed.

Lemma ratio_positive (a b : nat) : 1 <= a -> 1 <= b -> (0 < F64.div (Qnat a) (Qnat b))%Q.
Proof. intros Ha Hb. apply div_positive; now apply Qnat_pos. Qed.

(** *** Sub-scores *)

Lemma count_le {A : Type} (f : A -> bool) (l : list A) : count f l <= List.length l.
Proof. apply filter_length_le. Qed.

Lemma nameWords_nonempty (nodeName : string) :
  1 <= List.length (split nameSepRegex nodeName).
Proof. apply split_nonempty. reflexivity. Qed.

(** The three sub-scores divide by a positive count and lie between 0 and 1. *)
Lemma subscores_bounds (nodeName selector : string) :
  (0 <= calculateNameMatchScore nodeName selector <= 1)%Q
  /\ (0 <= calculateClassMatchScore nodeName selector <= 1)%Q
  /\ (0 <= calculateIdMatchScore nodeName selector <= 1)%Q.
Proof.
  pose proof (nameWords_nonempty nodeName) as Hn.
  unfold calculateNameMatchScore, calculateClassMatchScore, calculateIdMatchScore,
    prefixedMatchScore.
  repeat split; apply ratio_bounds;
    try (etransitivity; [apply count_le | apply Nat.le_max_l]); lia.
Qed.

(** *** The tree *)

Section FigmaNode_induction.
Variable P : FigmaNode -> Prop.
Hypothesis step :
  forall i n t cs f s b,
    match cs with Some l => Forall P l | None => True end ->
    P (mkNode i n t cs f s b).

Fixpoint FigmaNode_nested_ind (node : FigmaNode) : P node :=
  match node with
  | mkNode i n t cs f s b =>
      step i n t cs f s b
        (match cs as c return match c with Some l => Forall P l | None => True end with
         | Some l =>
             (fix all (l : list FigmaNode) : Forall P l :=
                match l with
                | [] => Forall_nil P
                | x :: l' => Forall_cons x (FigmaNode_nested_ind x) (all l')
                end) l
         | None => I
         end)
  end.
End FigmaNode_induction.

Lemma fold_getAllNodes (l : list FigmaNode) :
  Forall (fun x => forall nodes, getAllNodes x nodes = nodes ++ preorder x) l ->
  forall acc,
    fold_left (fun acc child => getAllNodes child acc) l acc = acc ++ flat_map preorder l.
Proof.
  induction 1 as [|x l Hx Hl IH]; intros acc; simpl.
  - now rewrite app_nil_r.
  - now rewrite Hx, IH, <- app_assoc.
Qed.

(** [getAllNodes] appends the nodes of the subtree in pre-order. *)
Lemma getAllNodes_preorder (node : FigmaNode) :
  forall nodes, getAllNodes node nodes = nodes ++ preorder node.
Proof.
  induction node as [i n t cs f s b IH] using FigmaNode_nested_ind.
  intros nodes. simpl. destruct cs as [l|]; [|reflexivity].
  rewrite (fold_getAllNodes l IH). now rewrite <- app_assoc.
Qed.

Lemma getAllNodes_nonempty (node : FigmaNode) : 1 <= List.length (getAllNodes node []).
Proof. rewrite getAllNodes_preorder. destruct node; simpl; lia. Qed.

(** *** Matching *)

Lemma filter_pass (node : FigmaNode) (options : EnhancementOptions) (rs : list CSSRule) :
  forall acc out,
    forEachM (fun matchingRules rule =>
                matchScore <- calculateRuleMatchScore node rule options ;;
                Ok (if Qgtb matchScore 0 then matchingRules ++ [rule] else matchingRules))
             rs acc = Ok out ->
    (forall rule, In rule rs ->
       calculateRuleMatchScore node rule options = Ok (scoreOf node options rule))
    /\ out = acc ++ filter (fun rule => Qgtb (scoreOf node options rule) 0) rs.
Proof.
  induction rs as [|rule rs IH]; intros acc out H; simpl in H.
  - inversion H; subst. split; [intros ? []|]. simpl. now rewrite app_nil_r.
  - destruct (calculateRuleMatchScore node rule options) as [sc|e] eqn:E;
      simpl in H; [|discriminate].
    apply IH in H as [Hall Hout].
    assert (Esc : scoreOf node options rule = sc) by (unfold scoreOf; now rewrite E).
    split.
    + intros rule' [<-|Hin]; [now rewrite Esc | now apply Hall].
    + simpl. rewrite Esc, Hout.
      destruct (Qgtb sc 0); [now rewrite <- app_assoc | reflexivity].
Qed.

Lemma findMatchingCSSRules_spec
    (node : FigmaNode) (options : EnhancementOptions) (rs out : list CSSRule) :
  StronglySorted (fun a b => rule_line a < rule_line b) rs ->
  findMatchingCSSRules node rs options = Ok out ->
  (forall rule, In rule out ->
     In rule rs
     /\ calculateRuleMatchScore node rule options = Ok (scoreOf node options rule)
     /\ (0 < scoreOf node options rule)%Q)
  /\ StronglySorted (ranked (scoreOf node options) rule_line) out.
Proof.
  intros Hrs H. unfold findMatchingCSSRules in H.
  destruct (forEachM _ rs []) as [matching|e] eqn:E; simpl in H; [|discriminate].
  apply filter_pass in E as [Hall Hm]. simpl in Hm.
  assert (Hin : forall rule, In rule matching ->
                  In rule rs /\ (0 < scoreOf node options rule)%Q).
  { intros rule Hr. rewrite Hm in Hr. apply filter_In in Hr as [Hr Hp].
    split; [assumption|]. now apply Qltb_lt in Hp. }
  destruct (sortM_spec CSSRule (compareRules node options) (scoreOf node options)
              rule_line matching out) as [Hs Hp]; [| |assumption|].
  - intros x y Hx Hy. unfold compareRules.
    rewrite (Hall y (proj1 (Hin y Hy))), (Hall x (proj1 (Hin x Hx))). reflexivity.
  - rewrite Hm. now apply StronglySorted_filter.
  - split; [|assumption].
    intros rule Hr. apply (Permutation_in _ (Permutation_sym Hp)) in Hr.
    destruct (Hin rule Hr) as [Hr1 Hr2]. auto.
Qed.

Lemma findMatchingCSSRules_no_rules (node : FigmaNode) (options : EnhancementOptions) :
  findMatchingCSSRules node [] options = Ok [].
Proof. reflexivity. Qed.

(** *** Mappings *)

Lemma mapNode_cases (rs : list CSSRule) (options : EnhancementOptions)
    (mappings out : list NodeCSSMapping) (node : FigmaNode) :
  mapNode rs options mappings node = Ok out ->
  out = mappings \/ exists m, out = mappings ++ [m] /\ mapping_of rs options node m.
Proof.
  unfold mapNode. intros H.
  destruct (findMatchingCSSRules node rs options) as [matchingRules|e] eqn:E;
    simpl in H; [|discriminate].
  destruct (0 <? List.length matchingRules) eqn:El; [|inversion H; auto].
  destruct (calculateMappingConfidence node matchingRules options) as [conf|e] eqn:Ec;
    simpl in H; [|discriminate].
  destruct (Qgeb conf (minConfidence options)) eqn:Eq; [|inversion H; auto].
  inversion H; subst; clear H. right. eexists. split; [reflexivity|].
  exists matchingRules, conf. repeat split; try assumption.
  - intros ->. discriminate.
  - now apply Qle_bool_iff.
Qed.

Lemma createNodeMappings_origin (document : FigmaNode) (rs : list CSSRule)
    (options : EnhancementOptions) (ms : list NodeCSSMapping) :
  createNodeMappings document rs options = Ok ms ->
  forall m, In m ms ->
    exists node, In node (getAllNodes document []) /\ mapping_of rs options node m.
Proof.
  unfold createNodeMappings.
  apply (forEachM_invariant (mapNode rs options) (getAllNodes document [])
           (fun ms => forall m, In m ms ->
              exists node, In node (getAllNodes document []) /\ mapping_of rs options node m)).
  - intros st node st' Hnode Hst Hstep m Hm.
    apply mapNode_cases in Hstep as [->|(m' & -> & Hm')]; [now apply Hst|].
    apply in_app_or in Hm as [Hm|[<-|[]]]; [now apply Hst|].
    now exists node.
  - intros m [].
Qed.

Lemma forEachM_mapNode_length (rs : list CSSRule) (options : EnhancementOptions)
    (nodes : list FigmaNode) :
  forall st out, forEachM (mapNode rs options) nodes st = Ok out ->
                 List.length out <= List.length st + List.length nodes.
Proof.
  induction nodes as [|node nodes IH]; intros st out H; simpl in H.
  - inversion H; subst. lia.
  - destruct (mapNode rs options st node) as [st'|e] eqn:E; simpl in H; [|discriminate].
    apply IH in H.
    apply mapNode_cases in E as [->|(m & -> & _)]; simpl; [lia|].
    rewrite length_app in H. simpl in *. lia.
Qed.

Lemma createNodeMappings_length (document : FigmaNode) (rs : list CSSRule)
    (options : EnhancementOptions) (ms : list NodeCSSMapping) :
  createNodeMappings document rs options = Ok ms ->
  List.length ms <= List.length (getAllNodes document []).
Proof.
  intros H. apply forEachM_mapNode_length in H. simpl in H. exact H.
Qed.

Lemma createNodeMappings_no_rules (document : FigmaNode) (options : EnhancementOptions) :
  createNodeMappings document [] options = Ok [].
Proof.
  unfold createNodeMappings.
  induction (getAllNodes document []) as [|node nodes IH]; [reflexivity|].
  simpl. exact IH.
Qed.

(** *** Which calls raise *)

Lemma raises_bind {A B : Type} (e : Exception) (m : Result A) (f : A -> Result B) :
  raises_at_most e m -> (forall a, raises_at_most e (f a)) -> raises_at_most e (bind m f).
Proof. destruct m; simpl; auto. Qed.

Lemma raises_forEachM {A S : Type} (e : Exception) (body : S -> A -> Result S)
    (xs : list A) :
  (forall st x, raises_at_most e (body st x)) ->
  forall st, raises_at_most e (forEachM body xs st).
Proof.
  intros Hbody. induction xs as [|x xs IH]; intros st; simpl; [exact I|].
  apply raises_bind; auto.
Qed.

Lemma raises_insertM {A : Type} (e : Exception) (cmp : A -> A -> Result Q)
    (x : A) (l : list A) :
  (forall a b, raises_at_most e (cmp a b)) -> raises_at_most e (insertM cmp x l).
Proof.
  intros Hcmp. induction l as [|y l IH]; simpl; [exact I|].
  apply raises_bind; [apply Hcmp|].
  intros c. destruct (Qle_bool c 0); [exact I|].
  apply raises_bind; [exact IH | intros; exact I].
Qed.

Lemma raises_sortM {A : Type} (e : Exception) (cmp : A -> A -> Result Q) (l : list A) :
  (forall a b, raises_at_most e (cmp a b)) -> raises_at_most e (sortM cmp l).
Proof.
  intros Hcmp. induction l as [|x l IH]; simpl; [exact I|].
  apply raises_bind; [exact IH | intros; now apply raises_insertM].
Qed.

Lemma raises_calculateStyleSimilarityScore node rule options :
  raises_at_most misspeltCall (calculateStyleSimilarityScore node rule options).
Proof.
  unfold calculateStyleSimilarityScore.
  apply raises_bind.
  - destruct (negb (ignoreColors options)), (fills node); try exact I.
    apply raises_forEachM. intros [score totalChecks] prop.
    apply raises_bind; [reflexivity | intros; exact I].
  - intros st1.
    match goal with |- context [let '(_, _) := ?st in _] => destruct st end.
    exact I.
Qed.

Lemma raises_calculateRuleMatchScore node rule options :
  raises_at_most misspeltCall (calculateRuleMatchScore node rule options).
Proof.
  unfold calculateRuleMatchScore. destruct (fills node); [|exact I].
  apply raises_bind; [apply raises_calculateStyleSimilarityScore | intros; exact I].
Qed.

Lemma raises_findMatchingCSSRules node rs options :
  raises_at_most misspeltCall (findMatchingCSSRules node rs options).
Proof.
  unfold findMatchingCSSRules. apply raises_bind.
  - apply raises_forEachM. intros st rule.
    apply raises_bind; [apply raises_calculateRuleMatchScore | intros; exact I].
  - intros matching. apply raises_sortM. intros a b. unfold compareRules.
    apply raises_bind; [apply raises_calculateRuleMatchScore|]. intros sb.
    apply raises_bind; [apply raises_calculateRuleMatchScore | intros; exact I].
Qed.

Lemma raises_createNodeMappings document rs options :
  raises_at_most misspeltCall (createNodeMappings document rs options).
Proof.
  unfold createNodeMappings. apply raises_forEachM. intros mappings node.
  unfold mapNode. apply raises_bind; [apply raises_findMatchingCSSRules|].
  intros matchingRules. destruct (0 <? List.length matchingRules); [|exact I].
  apply raises_bind.
  - unfold calculateMappingConfidence. apply raises_bind; [|intros; exact I].
    apply raises_forEachM. intros sum rule.
    apply raises_bind; [apply raises_calculateRuleMatchScore | intros; exact I].
  - intros conf. destruct (Qgeb conf (minConfidence options)); exact I.
Qed.

(** Without the colour comparison no score raises. *)
Lemma calculateRuleMatchScore_returns node rule options :
  ignoreColors options = true ->
  returns (calculateRuleMatchScore node rule options).
Proof.
  intros H. unfold calculateRuleMatchScore, calculateStyleSimilarityScore.
  rewrite H. cbn [negb bind].
  destruct (fills node); [|eexists; reflexivity].
  match goal with |- context [let '(_, _) := ?st in _] => destruct st end.
  eexists. reflexivity.
Qed.

Lemma returns_bind {A B : Type} (m : Result A) (f : A -> Result B) :
  returns m -> (forall a, returns (f a)) -> returns (bind m f).
Proof. intros [a ->] Hf. apply Hf. Qed.

Lemma returns_forEachM {A S : Type} (body : S -> A -> Result S) (xs : list A) :
  (forall st x, returns (body st x)) -> forall st, returns (forEachM body xs st).
Proof.
  intros Hbody. induction xs as [|x xs IH]; intros st; simpl.
  - now exists st.
  - apply returns_bind; auto.
Qed.

Lemma returns_sortM {A : Type} (cmp : A -> A -> Result Q) (l : list A) :
  (forall a b, returns (cmp a b)) -> returns (sortM cmp l).
Proof.
  intros Hcmp. induction l as [|x l IH]; simpl; [now exists []|].
  apply returns_bind; [exact IH|]. intros sorted. clear IH.
  induction sorted as [|y sorted IH]; simpl; [now eexists|].
  apply returns_bind; [apply Hcmp|]. intros c.
  destruct (Qle_bool c 0); [now eexists|].
  apply returns_bind; [exact IH | intros; now eexists].
Qed.

Lemma createNodeMappings_returns document rs options :
  ignoreColors options = true ->
  returns (createNodeMappings document rs options).
Proof.
  intros H.
  assert (Hscore : forall node rule, returns (calculateRuleMatchScore node rule options))
    by (intros; now apply calculateRuleMatchScore_returns).
  unfold createNodeMappings. apply returns_forEachM. intros mappings node.
  unfold mapNode. apply returns_bind.
  - unfold findMatchingCSSRules. apply returns_bind.
    + apply returns_forEachM. intros st rule.
      apply returns_bind; [apply Hscore | intros; now eexists].
    + intros matching. apply returns_sortM. intros a b. unfold compareRules.
      apply returns_bind; [apply Hscore|]. intros sb.
      apply returns_bind; [apply Hscore | intros; now eexists].
  - intros matchingRules. destruct (0 <? List.length matchingRules); [|now eexists].
    apply returns_bind.
    + unfold calculateMappingConfidence. apply returns_bind; [|intros; now eexists].
      apply returns_forEachM. intros sum rule.
      apply returns_bind; [apply Hscore | intros; now eexists].
    + intros conf. destruct (Qgeb conf (minConfidence options)); now eexists.
Qed.

(** *** The coordinator *)

(** [enhance] with the parser's part spelled out. *)
Lemma enhance_unfold (clk : Clock) (figmaData : FigmaApiResponse) (cssText : string)
    (options : EnhancementOptions) :
  enhance clk figmaData cssText options =
  let st := scan (remove_all commentRegex cssText) in
  if negb (st_isValid st) then Throw (Error "CSS parsing failed")
  else
    mappingResults <- createNodeMappings (document figmaData) (st_rules st) options ;;
    let conflicts := detectConflicts mappingResults (document figmaData) options in
    Ok (mkResult
          (generateEnhancedCode clk figmaData mappingResults conflicts options)
          mappingResults
          (coverageOf mappingResults (document figmaData))
          conflicts
          (generateSuggestions mappingResults conflicts options)
          (mkStatistics (List.length (getAllNodes (document figmaData) []))
             (List.length mappingResults)
             (List.length (st_rules st))
             (List.length conflicts)
             (F64.sub (performance_now clk 3) (performance_now clk 0)))).
Proof. reflexivity. Qed.

(** What a successful call returns. *)
Lemma enhance_Ok (clk : Clock) (figmaData : FigmaApiResponse) (cssText : string)
    (options : EnhancementOptions) (res : CSSEnhancementResult) :
  enhance clk figmaData cssText options = Ok res ->
  createNodeMappings (document figmaData)
    (rules (parse (performance_now clk 1) (performance_now clk 2) cssText)) options
  = Ok (mappingResults res)
  /\ coverage res = coverageOf (mappingResults res) (document figmaData)
  /\ totalNodes (statistics res) = List.length (getAllNodes (document figmaData) [])
  /\ conflicts res = detectConflicts (mappingResults res) (document figmaData) options
  /\ suggestions res = generateSuggestions (mappingResults res) (conflicts res) options.
Proof.
  rewrite enhance_unfold. cbv zeta.
  destruct (negb (st_isValid (scan (remove_all commentRegex cssText)))); [discriminate|].
  change (rules (parse (performance_now clk 1) (performance_now clk 2) cssText))
    with (st_rules (scan (remove_all commentRegex cssText))).
  destruct (createNodeMappings _ _ options) as [ms|e]; simpl; [|discriminate].
  intros H. inversion H; subst; clear H. simpl. auto.
Qed.

(** [enhance] raises nothing but the TypeError of the misspelt call, and
    returns whenever colours are ignored. *)
Lemma enhance_raises (clk : Clock) (figmaData : FigmaApiResponse) (cssText : string)
    (options : EnhancementOptions) :
  raises_at_most misspeltCall (enhance clk figmaData cssText options).
Proof.
  rewrite enhance_unfold. cbv zeta. rewrite scan_isValid. cbn [negb].
  apply raises_bind; [apply raises_createNodeMappings | intros; exact I].
Qed.

Lemma enhance_returns (clk : Clock) (figmaData : FigmaApiResponse) (cssText : string)
    (options : EnhancementOptions) :
  ignoreColors options = true ->
  returns (enhance clk figmaData cssText options).
Proof.
  intros H. rewrite enhance_unfold. cbv zeta. rewrite scan_isValid. cbn [negb].
  apply returns_bind; [now apply createNodeMappings_returns | intros; now eexists].
Qed.

End EnhancerFacts.

(** ** The claims of the specification *)

Section Claims.
Import RegExp CSSParser CSSEnhancer Spec Scenario RegExpFacts ParserFacts F64Facts
  EnhancerFacts.

(** C1 (fails on the code).  The parser reports [isValid = true] on every
    text, yet [enhance] raises on scenario 2: the rule has a [color]
    declaration and the root has fills, so the style-similarity bonus calls
    the misspelt [areColorssimilar]. *)
Theorem enhance_throws_on_valid_stylesheet :
  (forall t0 t1 cssText, isValid (parse t0 t1 cssText) = true)
  /\ enhance clock0 scenario2 headerCSS defaultOptions
     = Throw (TypeError "this.areColorssimilar is not a function").
Proof.
  split; [exact parse_isValid | vm_compute; reflexivity].
Qed.

(** C2, as stated, fails: on scenario 2 [enhance] returns no result, and the
    conflict the detector finds does not carry the CSS value with spaces. *)
Lemma scenario2_claim_fails :
  ~ (exists res, enhance clock0 scenario2 headerCSS defaultOptions = Ok res
       /\ exists c, filter is_color_conflict (conflicts res) = [c]
            /\ figmaValue c = "rgb(0, 0, 255)"
            /\ cssValue c = "rgb(255, 0, 0)"
            /\ severity c = medium)
  /\ ~ (exists c,
          In c (detectConflicts
                  [mkMapping "0:1" "Header" "FRAME" (rules (parse 0 0 headerCSS))
                     1 method_class None]
                  blueHeader defaultOptions)
          /\ cssValue c = "rgb(255, 0, 0)").
Proof.
  split.
  - intros (res & H & _). vm_compute in H. discriminate.
  - intros (c & H & Hc). vm_compute in H.
    destruct H as [<-|[]]. discriminate.
Qed.

(** C2 (amended).  On the stylesheet and the root of scenario 2, the
    conflict detector, given the root's mapping onto the parsed rule,
    reports exactly one conflict: of kind color, with design value
    "rgb(0, 0, 255)", CSS value "rgb(255,0,0)" (the declared text as
    written) and severity medium. *)
Theorem scenario2_conflict :
  forall (t0 t1 conf : Q) (method : MappingMethod) (mc : option (list StyleConflict)),
    detectConflicts
      [mkMapping (id blueHeader) (name blueHeader) (type blueHeader)
         (rules (parse t0 t1 headerCSS)) conf method mc]
      blueHeader defaultOptions
    = [scenario2Conflict]
    /\ conflict_type scenario2Conflict = color_conflict
    /\ figmaValue scenario2Conflict = "rgb(0, 0, 255)"
    /\ cssValue scenario2Conflict = "rgb(255,0,0)"
    /\ severity scenario2Conflict = medium.
Proof.
  intros. split; [vm_compute; reflexivity | repeat split].
Qed.

(** C3, as stated, fails: two calls on the same input, made at different
    times, return different results. *)
Lemma enhance_depends_on_clock :
  enhance clock0 sampleData sampleCSS defaultOptions
  <> enhance clock1 sampleData sampleCSS defaultOptions.
Proof.
  intros H.
  apply (f_equal (fun res => match res with
                             | Ok x => stat_processingTime (statistics x)
                             | Throw _ => 0%Q
                             end)) in H.
  vm_compute in H. discriminate.
Qed.

(** C3 (amended).  For a fixed tree, stylesheet text and options, two calls
    of [enhance] raise the same exception or return results with the same
    mappings in the same order, the same confidence scores, conflicts,
    coverage, suggestions and counts; only the processing time and the dates
    written into the generated code follow the clock. *)
Theorem enhance_deterministic_up_to_clock :
  forall (clk clk' : Clock) (figmaData : FigmaApiResponse) (cssText : string)
         (options : EnhancementOptions),
    same_outcome (enhance clk figmaData cssText options)
                 (enhance clk' figmaData cssText options).
Proof.
  intros. rewrite !enhance_unfold. cbv zeta.
  destruct (negb (st_isValid (scan (remove_all commentRegex cssText)))); [reflexivity|].
  destruct (createNodeMappings _ _ options) as [ms|e]; simpl; [|reflexivity].
  repeat split.
Qed.

(** C4.  The specificity of a selector is 100 times the number of [#], plus
    10 times the number of [.], [:] and [[], plus the number of ASCII
    letters anywhere in it; for [#id.class] that is 100 + 10 + 7, the seven
    letters of [id] and [class] included. *)
Theorem calculateSpecificity_formula :
  (forall sel,
     calculateSpecificity sel
     = 100 * count_chars (Str.is_char "#") sel
       + 10 * count_chars is_class_mark sel
       + 1 * count_chars Str.is_alpha sel)
  /\ calculateSpecificity "#id.class"
     = 100 * 1 + 10 * 1 + count_chars Str.is_alpha "#id.class"
  /\ calculateSpecificity "#id.class" = 117.
Proof.
  split; [|split; reflexivity].
  intros sel. unfold calculateSpecificity.
  rewrite (match_all_one_char _ _ (one_char_Cls (Str.is_char "#"))).
  rewrite (match_all_one_char _ is_class_mark
             (one_char_Alt _ _ _ _ (one_char_Cls (Str.is_char "."))
                (one_char_Alt _ _ _ _ (one_char_Cls (Str.is_char ":"))
                   (one_char_Cls (Str.is_char "["))))).
  rewrite (match_all_one_char _ _ (one_char_Cls Str.is_alpha)).
  lia.
Qed.

(** C5.  Every mapping of a returned result has a confidence of at least
    [minConfidence]; a node whose confidence is below it adds nothing to the
    mappings. *)
Theorem mappings_meet_minConfidence :
  (forall clk figmaData cssText options res m,
     enhance clk figmaData cssText options = Ok res ->
     In m (mappingResults res) ->
     (minConfidence options <= confidence m)%Q)
  /\ (forall rs options mappings node matchingRules conf,
        findMatchingCSSRules node rs options = Ok matchingRules ->
        calculateMappingConfidence node matchingRules options = Ok conf ->
        (conf < minConfidence options)%Q ->
        mapNode rs options mappings node = Ok mappings).
Proof.
  split.
  - intros clk figmaData cssText options res m H Hm.
    apply enhance_Ok in H as (H & _).
    destruct (createNodeMappings_origin _ _ _ _ H m Hm)
      as (node & _ & rules & conf & _ & _ & _ & Hconf & ->).
    exact Hconf.
  - intros rs options mappings node matchingRules conf Hf Hc Hlt.
    unfold mapNode. rewrite Hf. simpl.
    destruct (0 <? List.length matchingRules); [|reflexivity].
    rewrite Hc. simpl.
    destruct (Qgeb conf (minConfidence options)) eqn:E; [|reflexivity].
    apply Qle_bool_iff in E. exfalso. exact (Qlt_not_le _ _ Hlt E).
Qed.

Lemma mappings_meet_minConfidence_witness :
  (minConfidence defaultOptions <= confidence sampleMapping)%Q
  /\ mapNode [sampleRule] defaultOptions [] (leaf "0:2" "zzz") = Ok [].
Proof.
  split.
  - apply (proj1 mappings_meet_minConfidence clock0 sampleData sampleCSS defaultOptions
             sampleResult sampleMapping).
    + vm_compute. reflexivity.
    + vm_compute. left. reflexivity.
  - apply (proj2 mappings_meet_minConfidence [sampleRule] defaultOptions []
             (leaf "0:2" "zzz") [sampleRule] childConfidence).
    + vm_compute. reflexivity.
    + vm_compute. reflexivity.
    + vm_compute. reflexivity.
Defined.

(** C6.  The coverage of a returned result lies between 0 and 1.  The
    divisor is the number of nodes of the tree, which counts the root and is
    never zero, so the quotient is always defined: no tree has zero nodes,
    and the clause for such a tree holds for want of one. *)
Theorem coverage_bounds :
  forall clk figmaData cssText options res,
    enhance clk figmaData cssText options = Ok res ->
    (0 <= coverage res <= 1)%Q
    /\ 1 <= totalNodes (statistics res)
    /\ (totalNodes (statistics res) = 0 -> (coverage res == 0)%Q).
Proof.
  intros clk figmaData cssText options res H.
  apply enhance_Ok in H as (Hm & Hc & Hn & _).
  pose proof (getAllNodes_nonempty (document figmaData)) as Hpos.
  rewrite Hc, Hn. unfold coverageOf. split; [|split].
  - apply ratio_bounds; [|assumption].
    now apply createNodeMappings_length in Hm.
  - assumption.
  - intros H0. lia.
Qed.

Lemma coverage_bounds_witness :
  (0 <= coverage sampleResult <= 1)%Q
  /\ 1 <= totalNodes (statistics sampleResult)
  /\ (totalNodes (statistics sampleResult) = 0 -> (coverage sampleResult == 0)%Q).
Proof.
  apply (coverage_bounds clock0 sampleData sampleCSS defaultOptions sampleResult).
  vm_compute. reflexivity.
Defined.


(** C7 (fails on the code).  On the sample, [enhance] returns one mapping
    for four nodes, a coverage of 1/4, and no suggestion at all: the
    low-coverage suggestion is missing although nothing was trimmed. *)
Theorem low_coverage_suggestion_missing :
  enhance clock0 sampleData sampleCSS defaultOptions = Ok sampleResult
  /\ mappingResults sampleResult <> []
  /\ (coverage sampleResult < 3 # 10)%Q
  /\ ~ In lowCoverageSuggestion
         (collectSuggestions (mappingResults sampleResult) (conflicts sampleResult))
  /\ suggestions sampleResult = [].
Proof.
  split; [vm_compute; reflexivity|].
  split; [discriminate|].
  split; [vm_compute; reflexivity|].
  split; [vm_compute; intros [] | vm_compute; reflexivity].
Qed.

(** C8, as stated, fails: the unterminated block gives no rule and no
    warning either. *)
Lemma unterminated_block_no_warning :
  ~ (rules (parse 0 1 unterminatedCSS) = []
     /\ warnings (parse 0 1 unterminatedCSS) <> []
     /\ isValid (parse 0 1 unterminatedCSS) = true
     /\ exists res, enhance clock0 sampleData unterminatedCSS defaultOptions = Ok res).
Proof.
  intros (_ & H & _). apply H. vm_compute. reflexivity.
Qed.

(** C8 (amended).  For the text [.foo { color: red;] the parser returns no
    rule, no warning and no error, [isValid] stays true, and [enhance]
    returns normally on every tree, with no mapping. *)
Theorem unterminated_block :
  (forall t0 t1,
     rules (parse t0 t1 unterminatedCSS) = []
     /\ warnings (parse t0 t1 unterminatedCSS) = []
     /\ errors (parse t0 t1 unterminatedCSS) = []
     /\ isValid (parse t0 t1 unterminatedCSS) = true)
  /\ (forall clk figmaData options,
        exists res, enhance clk figmaData unterminatedCSS options = Ok res
                    /\ mappingResults res = []
                    /\ (coverage res == 0)%Q).
Proof.
  assert (Hs : scan (remove_all commentRegex unterminatedCSS) = initialState)
    by (vm_compute; reflexivity).
  split.
  - intros t0 t1. unfold parse. cbv zeta. rewrite Hs. repeat split.
  - intros clk figmaData options.
    rewrite enhance_unfold, Hs. cbv zeta. simpl st_isValid. simpl st_rules.
    cbv beta iota delta [negb]. rewrite createNodeMappings_no_rules.
    eexists. split; [reflexivity|]. simpl. split; [reflexivity|].
    unfold coverageOf, F64.div. simpl List.length. change (Qnat 0) with 0%Q.
    rewrite round_zero; [reflexivity | apply Qmult_0_l].
Qed.

(** C9.  Every mapping of a returned result has matched rules that are not
    empty, that all score strictly above zero for the mapping's node, and
    that are sorted by descending score, rules of equal score in the order
    in which they were parsed. *)
Theorem matchedRules_ranked :
  forall clk figmaData cssText options res m,
    enhance clk figmaData cssText options = Ok res ->
    In m (mappingResults res) ->
    well_ranked (rules (parse (performance_now clk 1) (performance_now clk 2) cssText))
                options (document figmaData) m.
Proof.
  intros clk figmaData cssText options res m H Hm.
  apply enhance_Ok in H as (H & _).
  destruct (createNodeMappings_origin _ _ _ _ H m Hm)
    as (node & Hnode & matchingRules & conf & Hf & Hne & _ & _ & ->).
  set (rs := rules (parse (performance_now clk 1) (performance_now clk 2) cssText)) in *.
  assert (Hsorted : StronglySorted (fun a b => rule_line a < rule_line b) rs).
  { apply (StronglySorted_of_seq rule_line rs 1). apply scan_lines. }
  destruct (findMatchingCSSRules_spec node options rs matchingRules Hsorted Hf)
    as [Hall Hranked].
  exists node. simpl. repeat split; try assumption.
  intros rule Hrule. destruct (Hall rule Hrule) as (Hin & Hsc & Hpos).
  apply In_nth_error in Hin as [i Hi].
  exists i. repeat split; try assumption.
  exact (parse_lines (performance_now clk 1) (performance_now clk 2) cssText i rule Hi).
Qed.

Lemma matchedRules_ranked_witness :
  well_ranked (rules (parse (performance_now clock0 1) (performance_now clock0 2) rankedCSS))
              defaultOptions (document sampleData) rankedMapping.
Proof.
  apply (matchedRules_ranked clock0 sampleData rankedCSS defaultOptions
           rankedResult rankedMapping).
  - vm_compute. reflexivity.
  - vm_compute. left. reflexivity.
Defined.

(** On that sample the root keeps all three rules: the two that tie in their
    parse order, then the one that scores less. *)
Example ranked_sample_order :
  map rule_line (cssRules rankedMapping) = [1; 3; 2]
  /\ map selector (cssRules rankedMapping) = [".header"; ".header"; "#header"].
Proof. split; reflexivity. Qed.

(** Scores are compared as the doubles they are: for the node [Card] the
    rule parsed second scores 0.6000000000000001, the rule parsed first 0.6,
    and the second comes first. *)
Example near_tie_order :
  map rule_line (cssRules nearTieMapping) = [2; 1]
  /\ map (scoreOf (document cardData) defaultOptions) (cssRules nearTieMapping)
     = [F64.add (F64.round (2 # 10)) (F64.round (4 # 10)); F64.round (6 # 10)]
  /\ (F64.round (6 # 10) < F64.add (F64.round (2 # 10)) (F64.round (4 # 10)))%Q.
Proof. split; [|split]; vm_compute; reflexivity. Qed.

(** C10.  Every declaration of every rule the parser returns has
    [important = false].  A declaration written with [!important] is no
    exception: the suffix ends up in its value. *)
Theorem important_always_false :
  (forall t0 t1 cssText rule p,
     In rule (rules (parse t0 t1 cssText)) ->
     In p (properties rule) ->
     important p = false)
  /\ rules (parse 0 0 importantCSS) = [importantRule].
Proof.
  split; [|vm_compute; reflexivity].
  intros t0 t1 cssText rule p. unfold parse. simpl rules. apply scan_important.
Qed.

Lemma important_always_false_witness :
  important importantDeclaration = false.
Proof.
  apply (proj1 important_always_false 0%Q 0%Q importantCSS importantRule
           importantDeclaration).
  - vm_compute. left. reflexivity.
  - vm_compute. left. reflexivity.
Defined.

End Claims.

(** ** Further properties of the enhancer *)

Section EnhancerFurther.
Import RegExp CSSParser CSSEnhancer Spec Scenario RegExpFacts ParserFacts F64Facts
  EnhancerFacts.

(** *** Exactly which calls raise *)

Lemma existsb_filter_nil {A : Type} (f : A -> bool) (l : list A) :
  existsb f l = false -> filter f l = [].
Proof.
  induction l as [|x l IH]; simpl; [reflexivity|].
  destruct (f x); simpl; [discriminate | exact IH].
Qed.

Lemma existsb_filter_cons {A : Type} (f : A -> bool) (l : list A) :
  existsb f l = true -> exists x l', filter f l = x :: l'.
Proof.
  induction l as [|x l IH]; simpl; [discriminate|].
  destruct (f x); simpl; [intros _; eauto | exact IH].
Qed.

Lemma calculateRuleMatchScore_cases node rule options :
  if comparesColors options node rule
  then calculateRuleMatchScore node rule options = Throw misspeltCall
  else returns (calculateRuleMatchScore node rule options).
Proof.
  unfold comparesColors, hasFills, calculateRuleMatchScore, calculateStyleSimilarityScore.
  destruct (fills node) as [nodeFills|]; [|rewrite andb_false_r; eexists; reflexivity].
  destruct (ignoreColors options); cbn [negb andb bind].
  - match goal with |- context [let '(_, _) := ?st in _] => destruct st end.
    eexists. reflexivity.
  - unfold declaresColor.
    destruct (existsb _ (properties rule)) eqn:E.
    + apply existsb_filter_cons in E as (x & l' & ->). reflexivity.
    + rewrite (existsb_filter_nil _ _ E). cbn [forEachM bind].
      match goal with |- context [let '(_, _) := ?st in _] => destruct st end.
      eexists. reflexivity.
Qed.

Lemma forEachM_Ok_each {A S : Type} (body : S -> A -> Result S) (xs : list A) :
  forall st out, forEachM body xs st = Ok out ->
    forall x, In x xs -> exists st1 st2, body st1 x = Ok st2.
Proof.
  induction xs as [|y xs IH]; intros st out H x Hx; [contradiction|].
  simpl in H. destruct (body st y) as [st'|e] eqn:E; simpl in H; [|discriminate].
  destruct Hx as [<-|Hx]; [eauto | exact (IH st' out H x Hx)].
Qed.

Lemma returns_forEachM_In {A S : Type} (body : S -> A -> Result S) (xs : list A) :
  (forall st x, In x xs -> returns (body st x)) -> forall st, returns (forEachM body xs st).
Proof.
  induction xs as [|x xs IH]; intros Hbody st; simpl.
  - now exists st.
  - apply returns_bind; [apply Hbody; now left|].
    intros st'. apply IH. intros st'' y Hy. apply Hbody. now right.
Qed.

Lemma insertM_In {A : Type} (cmp : A -> A -> Result Q) (x : A) (l out : list A) :
  insertM cmp x l = Ok out -> forall y, In y out -> y = x \/ In y l.
Proof.
  revert out. induction l as [|z l IH]; intros out H y Hy; simpl in H.
  - inversion H; subst. destruct Hy as [<-|[]]. now left.
  - destruct (cmp x z) as [c|e]; simpl in H; [|discriminate].
    destruct (Qle_bool c 0).
    + inversion H; subst. destruct Hy as [<-|Hy]; auto.
    + destruct (insertM cmp x l) as [l''|e]; simpl in H; [|discriminate].
      inversion H; subst. destruct Hy as [<-|Hy]; [right; now left|].
      destruct (IH l'' eq_refl y Hy); auto. right. now right.
Qed.

Lemma sortM_In {A : Type} (cmp : A -> A -> Result Q) (l out : list A) :
  sortM cmp l = Ok out -> forall y, In y out -> In y l.
Proof.
  revert out. induction l as [|x l IH]; intros out H y Hy; simpl in H.
  - inversion H; subst. exact Hy.
  - destruct (sortM cmp l) as [sorted|e] eqn:E; simpl in H; [|discriminate].
    destruct (insertM_In cmp x sorted out H y Hy) as [->|Hin]; [now left|].
    right. exact (IH sorted eq_refl y Hin).
Qed.

Lemma returns_sortM_In {A : Type} (cmp : A -> A -> Result Q) (l : list A) :
  (forall a b, In a l -> In b l -> returns (cmp a b)) -> returns (sortM cmp l).
Proof.
  induction l as [|x l IH]; intros Hcmp; simpl; [now exists []|].
  destruct IH as [sorted Hs]; [intros; apply Hcmp; now right|].
  rewrite Hs. simpl.
  assert (Hin : forall y, In y sorted -> In y l) by (apply (sortM_In cmp l sorted Hs)).
  clear Hs. induction sorted as [|y sorted IHs]; simpl; [now eexists|].
  apply returns_bind; [apply Hcmp; [now left | right; apply Hin; now left]|].
  intros c. destruct (Qle_bool c 0); [now eexists|].
  apply returns_bind; [|intros; now eexists].
  apply IHs. intros z Hz. apply Hin. now right.
Qed.

(** The rules a node keeps are rules of the stylesheet, each with a score
    that is computed and positive. *)
Lemma findMatchingCSSRules_kept node rs options out :
  findMatchingCSSRules node rs options = Ok out ->
  forall rule, In rule out ->
    In rule rs
    /\ calculateRuleMatchScore node rule options = Ok (scoreOf node options rule)
    /\ (0 < scoreOf node options rule)%Q.
Proof.
  unfold findMatchingCSSRules. intros H rule Hr.
  destruct (forEachM _ rs []) as [matching|e] eqn:E; simpl in H; [|discriminate].
  apply filter_pass in E as [Hall Hm]. simpl in Hm.
  apply (sortM_In _ _ _ H) in Hr. rewrite Hm in Hr.
  apply filter_In in Hr as [Hr Hp]. apply Qltb_lt in Hp. auto.
Qed.

Lemma findMatchingCSSRules_cases node rs options :
  if existsb (comparesColors options node) rs
  then findMatchingCSSRules node rs options = Throw misspeltCall
  else returns (findMatchingCSSRules node rs options).
Proof.
  destruct (existsb (comparesColors options node) rs) eqn:E.
  - pose proof (raises_findMatchingCSSRules node rs options) as Hr.
    destruct (findMatchingCSSRules node rs options) as [out|e] eqn:Ef;
      [|simpl in Hr; now subst].
    exfalso. apply existsb_exists in E as (rule & Hin & Hc).
    unfold findMatchingCSSRules in Ef.
    destruct (forEachM _ rs []) as [matching|e] eqn:Em; simpl in Ef; [|discriminate].
    apply filter_pass in Em as [Hall _].
    pose proof (calculateRuleMatchScore_cases node rule options) as Hs.
    rewrite Hc in Hs. rewrite (Hall rule Hin) in Hs. discriminate.
  - assert (Hscore : forall rule, In rule rs ->
                       returns (calculateRuleMatchScore node rule options)).
    { intros rule Hin.
      pose proof (calculateRuleMatchScore_cases node rule options) as Hs.
      destruct (comparesColors options node rule) eqn:Ec; [|exact Hs].
      assert (existsb (comparesColors options node) rs = true)
        by (apply existsb_exists; eauto).
      congruence. }
    unfold findMatchingCSSRules.
    destruct (returns_forEachM_In
                (fun matchingRules rule =>
                   matchScore <- calculateRuleMatchScore node rule options ;;
                   Ok (if Qgtb matchScore 0 then matchingRules ++ [rule]
                       else matchingRules)) rs) with (st := @nil CSSRule)
      as [matching Em].
    { intros st rule Hin. apply returns_bind; [now apply Hscore | intros; now eexists]. }
    rewrite Em. simpl.
    apply filter_pass in Em as [_ Hm]. simpl in Hm.
    apply returns_sortM_In. intros a b Ha Hb. unfold compareRules.
    rewrite Hm in Ha, Hb. apply filter_In in Ha as [Ha _]. apply filter_In in Hb as [Hb _].
    apply returns_bind; [now apply Hscore|]. intros sb.
    apply returns_bind; [now apply Hscore | intros; now eexists].
Qed.

Lemma mapNode_cases_raise rs options mappings node :
  if existsb (comparesColors options node) rs
  then mapNode rs options mappings node = Throw misspeltCall
  else returns (mapNode rs options mappings node).
Proof.
  pose proof (findMatchingCSSRules_cases node rs options) as Hf.
  unfold mapNode.
  destruct (existsb (comparesColors options node) rs) eqn:E; [now rewrite Hf|].
  destruct Hf as [matchingRules Hf]. rewrite Hf. simpl.
  destruct (0 <? List.length matchingRules); [|now eexists].
  apply returns_bind.
  - unfold calculateMappingConfidence. apply returns_bind; [|intros; now eexists].
    apply returns_forEachM_In. intros sum rule Hin.
    destruct (findMatchingCSSRules_kept node rs options matchingRules Hf rule Hin)
      as (_ & Hs & _).
    rewrite Hs. simpl. now eexists.
  - intros conf. destruct (Qgeb conf (minConfidence options)); now eexists.
Qed.

Lemma createNodeMappings_cases document rs options :
  if reachesColorComparison options document rs
  then createNodeMappings document rs options = Throw misspeltCall
  else returns (createNodeMappings document rs options).
Proof.
  unfold reachesColorComparison, createNodeMappings.
  destruct (existsb _ (getAllNodes document [])) eqn:E.
  - pose proof (raises_createNodeMappings document rs options) as Hr.
    unfold createNodeMappings in Hr.
    destruct (forEachM _ (getAllNodes document []) []) as [out|e] eqn:Ef;
      [|simpl in Hr; now subst].
    exfalso. apply existsb_exists in E as (node & Hin & Hc).
    destruct (forEachM_Ok_each _ _ _ _ Ef node Hin) as (st1 & st2 & Hm).
    pose proof (mapNode_cases_raise rs options st1 node) as Hcases.
    rewrite Hc in Hcases. congruence.
  - apply returns_forEachM_In. intros st node Hin.
    pose proof (mapNode_cases_raise rs options st node) as Hcases.
    destruct (existsb (comparesColors options node) rs) eqn:Ec; [|exact Hcases].
    assert (existsb (fun node => existsb (comparesColors options node) rs)
              (getAllNodes document []) = true)
      by (apply existsb_exists; eauto).
    congruence.
Qed.

(** X1.  [enhance] raises, and then the TypeError of the misspelt call,
    exactly when colours are not ignored, some node of the tree has a
    [fills] array and some parsed rule declares a property whose name
    contains [color] or [background]; on every other input it returns. *)
Theorem enhance_raises_exactly :
  forall clk figmaData cssText options,
    if reachesColorComparison options (document figmaData)
         (rules (parse (performance_now clk 1) (performance_now clk 2) cssText))
    then enhance clk figmaData cssText options = Throw misspeltCall
    else returns (enhance clk figmaData cssText options).
Proof.
  intros clk figmaData cssText options.
  rewrite enhance_unfold. cbv zeta. rewrite scan_isValid. cbn [negb].
  change (rules (parse (performance_now clk 1) (performance_now clk 2) cssText))
    with (st_rules (scan (remove_all commentRegex cssText))).
  pose proof (createNodeMappings_cases (document figmaData)
                (st_rules (scan (remove_all commentRegex cssText))) options) as H.
  destruct (reachesColorComparison options (document figmaData) _).
  - now rewrite H.
  - destruct H as [ms ->]. simpl. now eexists.
Qed.

(** *** Confidence *)

Lemma sum_scores node options (rules : list CSSRule) :
  (forall rule, In rule rules ->
     calculateRuleMatchScore node rule options = Ok (scoreOf node options rule)
     /\ (0 < scoreOf node options rule)%Q) ->
  forall acc total,
    (0 <= acc)%Q ->
    forEachM (fun sum rule =>
                sc <- calculateRuleMatchScore node rule options ;; Ok (F64.add sum sc))
             rules acc = Ok total ->
    (0 <= total)%Q /\ (rules <> [] -> (0 < total)%Q).
Proof.
  induction rules as [|rule rules IH]; intros Hall acc total Hacc H; simpl in H.
  - inversion H; subst. split; [assumption | intros []; reflexivity].
  - destruct (Hall rule (or_introl eq_refl)) as [Hs Hpos].
    rewrite Hs in H. cbn [bind] in H.
    pose proof (add_positive_r acc _ Hacc Hpos) as Hsum.
    destruct rules as [|rule' rules'].
    + simpl in H. inversion H; subst. split; [lra | intros _; exact Hsum].
    + apply IH in H as [_ Hlt]; [|intros; apply Hall; now right | lra].
      assert (0 < total)%Q by (apply Hlt; discriminate).
      split; [lra | intros _; assumption].
Qed.

Lemma calculateMappingConfidence_bounds node options (rules : list CSSRule) conf :
  (forall rule, In rule rules ->
     calculateRuleMatchScore node rule options = Ok (scoreOf node options rule)
     /\ (0 < scoreOf node options rule)%Q) ->
  rules <> [] ->
  calculateMappingConfidence node rules options = Ok conf ->
  (0 < conf <= 1)%Q.
Proof.
  intros Hall Hne H. unfold calculateMappingConfidence in H.
  destruct (forEachM _ rules 0%Q) as [total|e] eqn:E; cbn [bind] in H; [|discriminate].
  apply (sum_scores node options rules Hall) in E as [_ Hlt]; [|lra].
  specialize (Hlt Hne).
  assert (Hn : (0 < Qnat (List.length rules))%Q).
  { apply Qnat_pos. destruct rules; [contradiction | simpl; lia]. }
  pose proof (div_positive total _ Hlt Hn) as Havg.
  assert (H12 : (0 < F64.round (12 # 10))%Q) by (apply round_positive; reflexivity).
  assert (H8 : (0 < F64.round (8 # 10))%Q) by (apply round_positive; reflexivity).
  inversion H; subst; clear H. unfold Math_min.
  set (avg := F64.div total (Qnat (List.length rules))) in *.
  pose proof (mul_positive avg _ Havg H12) as Hboost.
  pose proof (mul_positive avg _ Havg H8) as Hred.
  pose proof (mul_positive _ _ Hboost H8) as Hboth.
  destruct (existsb _ rules), (existsb _ rules);
    match goal with |- context [Qle_bool ?x 1] =>
      destruct (Qle_bool x 1) eqn:Eq; [apply Qle_bool_iff in Eq|]
    end; lra.
Qed.

(** X2.  Every mapping of a returned result has a confidence above 0 and at
    most 1. *)
Theorem confidence_in_unit_interval :
  forall clk figmaData cssText options res m,
    enhance clk figmaData cssText options = Ok res ->
    In m (mappingResults res) ->
    (0 < confidence m <= 1)%Q.
Proof.
  intros clk figmaData cssText options res m H Hm.
  apply enhance_Ok in H as (H & _).
  destruct (createNodeMappings_origin _ _ _ _ H m Hm)
    as (node & _ & matchingRules & conf & Hf & Hne & Hc & _ & ->).
  simpl. apply (calculateMappingConfidence_bounds node options matchingRules); auto.
  intros rule Hr.
  destruct (findMatchingCSSRules_kept node _ options matchingRules Hf rule Hr)
    as (_ & Hs & Hp).
  auto.
Qed.

Lemma confidence_in_unit_interval_witness :
  (0 < confidence rankedMapping <= 1)%Q.
Proof.
  apply (confidence_in_unit_interval clock0 sampleData rankedCSS defaultOptions
           rankedResult rankedMapping).
  - vm_compute. reflexivity.
  - vm_compute. left. reflexivity.
Defined.

(** *** Order of the mappings *)

Lemma forEachM_mapNode_subseq rs options (nodes : list FigmaNode) :
  forall st out, forEachM (mapNode rs options) nodes st = Ok out ->
    exists kept new,
      out = st ++ new
      /\ Subseq kept nodes
      /\ Forall2 (mapping_of rs options) kept new.
Proof.
  induction nodes as [|node nodes IH]; intros st out H; simpl in H.
  - inversion H; subst. exists [], []. rewrite app_nil_r.
    repeat split; constructor.
  - destruct (mapNode rs options st node) as [st'|e] eqn:E; simpl in H; [|discriminate].
    apply IH in H as (kept & new & -> & Hsub & Hall).
    apply mapNode_cases in E as [->|(m & -> & Hm)].
    + exists kept, new. repeat split; [now constructor | assumption].
    + exists (node :: kept), (m :: new). rewrite <- app_assoc.
      repeat split; now constructor.
Qed.

(** X3.  The mappings of a returned result follow the pre-order of the
    tree: they are the mappings of a subsequence of its nodes, one mapping
    for each node of that subsequence, in the same order. *)
Theorem mappings_follow_tree_order :
  forall clk figmaData cssText options res,
    enhance clk figmaData cssText options = Ok res ->
    exists kept,
      Subseq kept (preorder (document figmaData))
      /\ Forall2 (mapping_of
                    (rules (parse (performance_now clk 1) (performance_now clk 2) cssText))
                    options)
                 kept (mappingResults res)
      /\ map nodeId (mappingResults res) = map id kept.
Proof.
  intros clk figmaData cssText options res H.
  apply enhance_Ok in H as (H & _).
  unfold createNodeMappings in H.
  apply forEachM_mapNode_subseq in H as (kept & new & Hout & Hsub & Hall).
  simpl in Hout. rewrite getAllNodes_preorder in Hsub. simpl in Hsub.
  exists kept. rewrite Hout. repeat split; try assumption.
  clear Hout Hsub. induction Hall as [|node m kept new Hm Hall IH]; [reflexivity|].
  simpl. rewrite IH. destruct Hm as (? & ? & _ & _ & _ & _ & ->). reflexivity.
Qed.

Lemma mappings_follow_tree_order_witness :
  exists kept,
    Subseq kept (preorder (document sampleData))
    /\ Forall2 (mapping_of
                  (rules (parse (performance_now clock0 1) (performance_now clock0 2)
                            rankedCSS))
                  defaultOptions)
               kept (mappingResults rankedResult)
    /\ map nodeId (mappingResults rankedResult) = map id kept.
Proof.
  apply (mappings_follow_tree_order clock0 sampleData rankedCSS defaultOptions rankedResult).
  vm_compute. reflexivity.
Defined.

(** X4.  [getAllNodes] leaves the array it is given in front and appends
    the subtree in pre-order: the node first, then each child's subtree from
    the first child to the last.  With the default empty array the result
    starts with the root. *)
Theorem getAllNodes_appends_preorder :
  forall node nodes,
    getAllNodes node nodes = nodes ++ preorder node
    /\ hd_error (getAllNodes node []) = Some node.
Proof.
  intros node nodes. split; [apply getAllNodes_preorder|].
  rewrite getAllNodes_preorder. now destruct node.
Qed.

(** *** Conflicts *)

Lemma getConflictSeverity_not_high (figmaValue cssValue : string) :
  getConflictSeverity figmaValue cssValue <> high.
Proof.
  unfold getConflictSeverity.
  destruct (Str.includes figmaValue "rgb" && Str.includes cssValue "rgb"); discriminate.
Qed.

Lemma detectPropertyConflict_kinds node prop options c :
  detectPropertyConflict node prop options = Some c ->
  conflict_property c = property prop
  /\ severity c <> high
  /\ ((conflict_type c = color_conflict
       /\ ignoreColors options = false /\ hasFills node = true
       /\ Str.includes (property prop) "color" = true)
      \/ (conflict_type c = typography
          /\ ignoreTypography options = false /\ style node <> None
          /\ severity c = medium /\ cssValue c = value prop
          /\ cssValue c <> figmaValue c)).
Proof.
  unfold detectPropertyConflict, hasFills. intros H.
  destruct (Str.includes (property prop) "color") eqn:Ecolor;
    destruct (fills node) as [nodeFills|];
    destruct (ignoreColors options); cbn [negb] in H;
    try (destruct (extractFigmaColor nodeFills) as [figmaColor|];
         [destruct (extractCSSColor (value prop)) as [cssColor|]|];
         try destruct (Str.truthy figmaColor && Str.truthy cssColor
                       && negb (areColorsEqual figmaColor cssColor)));
    try (inversion H; subst; clear H; simpl;
         repeat split; try apply getConflictSeverity_not_high; left; now repeat split);
    (destruct (includes_any _ (property prop)); [|discriminate];
     destruct (style node) as [nodeStyle|]; [|discriminate];
     destruct (ignoreTypography options); cbn [negb] in H; [discriminate|];
     destruct (extractFigmaTypography nodeStyle (property prop)) as [fv|];
       [|discriminate];
     destruct (Str.truthy fv && negb (String.eqb (value prop) fv)) eqn:Et;
       [|discriminate];
     inversion H; subst; clear H; simpl;
     repeat split; try discriminate; right; repeat split; try discriminate;
     apply andb_prop in Et as [_ Et]; apply negb_true_iff in Et;
     now apply String.eqb_neq in Et).
Qed.

Lemma detectConflicts_In mappings document options c :
  In c (detectConflicts mappings document options) ->
  exists mapping node rule prop,
    In mapping mappings
    /\ find (fun n => String.eqb (id n) (nodeId mapping)) (getAllNodes document [])
       = Some node
    /\ In rule (cssRules mapping) /\ In prop (properties rule)
    /\ detectPropertyConflict node prop options = Some c.
Proof.
  unfold detectConflicts. intros H.
  apply in_flat_map in H as (mapping & Hm & H).
  destruct (find _ (getAllNodes document [])) as [node|] eqn:Ef; [|contradiction].
  apply in_flat_map in H as (rule & Hr & H).
  apply in_flat_map in H as (prop & Hp & H).
  exists mapping, node, rule, prop. repeat split; try assumption.
  destruct (detectPropertyConflict node prop options) as [c'|]; [|contradiction].
  destruct H as [->|[]]. reflexivity.
Qed.

(** X5.  Every conflict the detector reports is of kind color or
    typography and of severity low or medium, never high.  A color conflict
    is reported only when colours are not ignored, for a node with fills and
    a property whose name contains [color]; a typography conflict only when
    typography is not ignored, for a node with a text style, always with
    severity medium and with the declared value as its CSS value.  Each
    conflict is computed against the first node of the tree that has the
    mapping's node id. *)
Theorem conflicts_are_color_or_typography :
  forall mappings document options c,
    In c (detectConflicts mappings document options) ->
    severity c <> high
    /\ exists mapping node rule prop,
         In mapping mappings
         /\ find (fun n => String.eqb (id n) (nodeId mapping)) (getAllNodes document [])
            = Some node
         /\ In rule (cssRules mapping) /\ In prop (properties rule)
         /\ conflict_property c = property prop
         /\ ((conflict_type c = color_conflict
              /\ ignoreColors options = false /\ hasFills node = true
              /\ Str.includes (property prop) "color" = true)
             \/ (conflict_type c = typography
                 /\ ignoreTypography options = false /\ style node <> None
                 /\ severity c = medium /\ cssValue c = value prop
                 /\ cssValue c <> figmaValue c)).
Proof.
  intros mappings document options c H.
  apply detectConflicts_In in H as (mapping & node & rule & prop & Hm & Hf & Hr & Hp & H).
  apply detectPropertyConflict_kinds in H as (H1 & H2 & H3).
  split; [assumption|].
  exists mapping, node, rule, prop. repeat split; assumption.
Qed.

Lemma conflicts_are_color_or_typography_witness :
  severity scenario2Conflict <> high
  /\ exists mapping node rule prop,
       In mapping [mkMapping "0:1" "Header" "FRAME" (rules (parse 0 0 headerCSS))
                     1 method_class None]
       /\ find (fun n => String.eqb (id n) (nodeId mapping)) (getAllNodes blueHeader [])
          = Some node
       /\ In rule (cssRules mapping) /\ In prop (properties rule)
       /\ conflict_property scenario2Conflict = property prop
       /\ ((conflict_type scenario2Conflict = color_conflict
            /\ ignoreColors defaultOptions = false /\ hasFills node = true
            /\ Str.includes (property prop) "color" = true)
           \/ (conflict_type scenario2Conflict = typography
               /\ ignoreTypography defaultOptions = false /\ style node <> None
               /\ severity scenario2Conflict = medium
               /\ cssValue scenario2Conflict = value prop
               /\ cssValue scenario2Conflict <> figmaValue scenario2Conflict)).
Proof.
  apply (conflicts_are_color_or_typography
           [mkMapping "0:1" "Header" "FRAME" (rules (parse 0 0 headerCSS))
              1 method_class None]
           blueHeader defaultOptions scenario2Conflict).
  vm_compute. left. reflexivity.
Defined.

(** X6.  With colours and typography both ignored no conflict is ever
    reported. *)
Theorem no_conflicts_when_ignored :
  forall mappings document options,
    ignoreColors options = true ->
    ignoreTypography options = true ->
    detectConflicts mappings document options = [].
Proof.
  intros mappings document options Hc Ht.
  destruct (detectConflicts mappings document options) as [|c l] eqn:E; [reflexivity|].
  assert (Hin : In c (detectConflicts mappings document options))
    by (rewrite E; now left).
  apply detectConflicts_In in Hin as (_ & node & _ & prop & _ & _ & _ & _ & H).
  apply detectPropertyConflict_kinds in H as (_ & _ & [(_ & H & _)|(_ & H & _)]);
    congruence.
Qed.

Lemma no_conflicts_when_ignored_witness :
  detectConflicts
    [mkMapping "0:1" "Header" "FRAME" (rules (parse 0 0 headerCSS)) 1 method_class None]
    blueHeader quietOptions = [].
Proof.
  apply (no_conflicts_when_ignored _ blueHeader quietOptions); reflexivity.
Defined.

(** *** Suggestions *)





(** *** Scores *)

Lemma forEachM_color_Ok nodeFills (colorProps : list CSSProperty) st out :
  forEachM (fun '(score, totalChecks) prop =>
              let figmaColor := extractFigmaColor nodeFills in
              let cssColor := extractCSSColor (value prop) in
              similar <- areColorssimilar figmaColor cssColor ;;
              Ok (if similar then F64.add score (F64.round (3 # 10)) else score,
                  S totalChecks))
           colorProps st = Ok out ->
  out = st.
Proof.
  destruct colorProps as [|prop l]; simpl; intros H.
  - now inversion H.
  - destruct st. discriminate.
Qed.

(** One more similar declaration: the running sum stays below a quarter of
    the number of checks, which is a double as long as that number has at
    most 53 bits, and below 2^51, from where adding a weight changes
    nothing. *)
Lemma bonus_step (s w : Q) (k : nat) :
  (0 <= w <= F64.round (2 # 10))%Q ->
  (0 <= s)%Q -> (s <= inject_Z (2 ^ 51))%Q -> (s * 4 <= Qnat k)%Q ->
  (0 <= F64.add s w)%Q
  /\ (F64.add s w <= inject_Z (2 ^ 51))%Q
  /\ (F64.add s w * 4 <= Qnat (S k))%Q.
Proof.
  intros [Hw0 Hw1] Hs0 Hs1 Hs2.
  assert (Htop : F64.add (inject_Z (2 ^ 51)) (F64.round (2 # 10)) = inject_Z (2 ^ 51))
    by (vm_compute; reflexivity).
  assert (Hw : (F64.round (2 # 10) <= 1 # 4)%Q)
    by (apply Qle_bool_iff; vm_compute; reflexivity).
  assert (Hk : (Qnat (S k) == Qnat k + 1)%Q).
  { unfold Qnat. rewrite Nat2Z.inj_succ, <- Z.add_1_r, inject_Z_plus. reflexivity. }
  assert (Hstall : (F64.add s w <= inject_Z (2 ^ 51))%Q)
    by (rewrite <- Htop; now apply add_le).
  split; [now apply add_nonneg|]. split; [exact Hstall|].
  destruct (Z_lt_ge_dec (Z.of_nat (S k)) (2 ^ 53)) as [Hsmall|Hbig].
  - assert (Hq : (F64.add s w <= inject_Z (Z.of_nat (S k)) * F64.pow2 (-2))%Q).
    { rewrite <- round_representable by lia. apply round_le.
      change (inject_Z (Z.of_nat (S k))) with (Qnat (S k)).
      change (F64.pow2 (-2)) with (1 # 4). lra. }
    change (inject_Z (Z.of_nat (S k))) with (Qnat (S k)) in Hq.
    change (F64.pow2 (-2)) with (1 # 4) in Hq. lra.
  - assert (Hn : (inject_Z (2 ^ 53) <= Qnat (S k))%Q)
      by (unfold Qnat; rewrite <- Zle_Qle; lia).
    change (inject_Z (2 ^ 51)) with (2251799813685248 # 1) in Hstall.
    change (inject_Z (2 ^ 53)) with (9007199254740992 # 1) in Hn. lra.
Qed.

Lemma fold_bonus_bounds (test : CSSProperty -> bool) (w : Q) (props : list CSSProperty) :
  (0 <= w <= F64.round (2 # 10))%Q ->
  forall st,
    (0 <= fst st)%Q /\ (fst st <= inject_Z (2 ^ 51))%Q /\ (fst st * 4 <= Qnat (snd st))%Q ->
    let st' :=
      fold_left (fun '(score, totalChecks) prop =>
                   (if test prop then F64.add score w else score, S totalChecks))
                props st in
    (0 <= fst st')%Q /\ (fst st' <= inject_Z (2 ^ 51))%Q
    /\ (fst st' * 4 <= Qnat (snd st'))%Q.
Proof.
  intros Hw. induction props as [|prop props IH]; intros [score totalChecks] H; simpl.
  - exact H.
  - apply IH. simpl in *. destruct H as (H0 & H1 & H2).
    destruct (test prop); [now apply bonus_step|].
    repeat split; try assumption.
    apply Qle_trans with (1 := H2). apply Qnat_le. lia.
Qed.

(** The bonus lies between 0 and a quarter, whatever the number of
    declarations. *)
Lemma calculateStyleSimilarityScore_bounds node rule options bonus :
  calculateStyleSimilarityScore node rule options = Ok bonus ->
  (0 <= bonus <= 1 # 4)%Q.
Proof.
  unfold calculateStyleSimilarityScore. intros H.
  match type of H with bind ?m _ = _ => destruct m as [st1|e] eqn:E1 end;
    cbn [bind] in H; [|discriminate].
  assert (Hst1 : st1 = (0%Q, 0)).
  { destruct (negb (ignoreColors options)), (fills node); try now inversion E1.
    now apply forEachM_color_Ok in E1. }
  subst st1. cbv zeta in H.
  assert (H0 : (0 <= fst (0%Q, 0%nat))%Q /\ (fst (0%Q, 0%nat) <= inject_Z (2 ^ 51))%Q
               /\ (fst (0%Q, 0%nat) * 4 <= Qnat (snd (0%Q, 0%nat)))%Q)
    by (repeat split; discriminate).
  assert (H2 : (0 <= F64.round (2 # 10) <= F64.round (2 # 10))%Q)
    by (split; [apply round_nonneg; discriminate | apply Qle_refl]).
  assert (H1 : (0 <= F64.round (1 # 10) <= F64.round (2 # 10))%Q)
    by (split; [apply round_nonneg | apply round_le]; discriminate).
  match type of H with
  | context [let '(_, _) := ?st3 in _] =>
      assert (H3 : (0 <= fst st3)%Q /\ (fst st3 <= inject_Z (2 ^ 51))%Q
                   /\ (fst st3 * 4 <= Qnat (snd st3))%Q);
      [|destruct st3 as [sc tc]]
  end.
  - destruct (negb (ignoreSpacing options)), (absoluteBoundingBox node);
      try match goal with
          | |- context [isSpacingSimilar ?box] =>
              apply (fold_bonus_bounds (isSpacingSimilar box)); [exact H1|]
          end;
      destruct (negb (ignoreTypography options)), (style node);
      try exact H0;
      match goal with
      | |- context [isTypographySimilar ?st] =>
          apply (fold_bonus_bounds (isTypographySimilar st)); [exact H2 | exact H0]
      end.
  - simpl in H3. destruct H3 as (Hs0 & _ & Hs2). inversion H; subst; clear H.
    destruct (0 <? tc) eqn:Et; [|split; discriminate].
    apply Nat.ltb_lt in Et. pose proof (Qnat_pos tc Et) as Hp.
    split; [now apply div_nonneg|].
    replace (1 # 4) with (F64.round (1 # 4)) by (vm_compute; reflexivity).
    apply round_le. apply Qle_shift_div_r; [exact Hp | lra].
Qed.

(** [calculateRuleMatchScore] is the base score, plus the bonus for a node
    with fills. *)
Lemma calculateRuleMatchScore_base node rule options :
  calculateRuleMatchScore node rule options
  = let base := baseScore (mappingStrategy options) (Str.toLowerCase (name node))
                          (Str.toLowerCase (selector rule)) in
    match fills node with
    | Some _ =>
        bonus <- calculateStyleSimilarityScore node rule options ;;
        Ok (F64.add base bonus)
    | None => Ok base
    end.
Proof.
  unfold calculateRuleMatchScore, baseScore. destruct (mappingStrategy options); reflexivity.
Qed.

(** The largest base score of the hybrid strategy, all three sub-scores
    being 1, is 1: the three weights add up without an error. *)
Lemma hybrid_weights :
  F64.add (F64.add (F64.add 0 (F64.mul 1 (F64.round (4 # 10))))
                   (F64.mul 1 (F64.round (4 # 10))))
          (F64.mul 1 (F64.round (2 # 10))) = 1%Q.
Proof. vm_compute. reflexivity. Qed.

Lemma baseScore_bounds (strategy : MappingStrategy) (nodeName sel : string) :
  (0 <= baseScore strategy nodeName sel <= 1)%Q.
Proof.
  destruct (subscores_bounds nodeName sel) as ([Hn0 Hn1] & [Hc0 Hc1] & [Hi0 Hi1]).
  assert (H4 : (0 <= F64.round (4 # 10))%Q) by (apply round_nonneg; discriminate).
  assert (H2 : (0 <= F64.round (2 # 10))%Q) by (apply round_nonneg; discriminate).
  assert (Hone : F64.add 0 1 = 1%Q) by (vm_compute; reflexivity).
  unfold baseScore. destruct strategy.
  - split; [apply add_nonneg; lra|]. rewrite <- Hone. apply add_le; lra.
  - split; [apply add_nonneg; lra|]. rewrite <- Hone. apply add_le; lra.
  - split; [apply add_nonneg; lra|]. rewrite <- Hone. apply add_le; lra.
  - split.
    + repeat apply add_nonneg; try lra; now apply mul_nonneg.
    + rewrite <- hybrid_weights.
      repeat apply add_le; try lra; now apply mul_le_l.
Qed.

Lemma baseScore_positive (strategy : MappingStrategy) (nodeName sel : string) :
  strategy = strategy_name \/ strategy = strategy_hybrid ->
  (0 < calculateNameMatchScore nodeName sel)%Q ->
  (0 < baseScore strategy nodeName sel)%Q.
Proof.
  intros Hs Hname.
  destruct (subscores_bounds nodeName sel) as (_ & [Hc0 _] & [Hi0 _]).
  assert (H4 : (0 < F64.round (4 # 10))%Q) by (apply round_positive; reflexivity).
  assert (H2 : (0 < F64.round (2 # 10))%Q) by (apply round_positive; reflexivity).
  unfold baseScore. destruct Hs as [-> | ->].
  - apply add_positive_r; [lra | exact Hname].
  - apply add_positive_l; [|apply mul_nonneg; lra].
    apply add_positive_l; [|apply mul_nonneg; lra].
    apply add_positive_r; [lra|]. now apply mul_positive.
Qed.

(** X8.  The name, class and id sub-scores lie between 0 and 1 (their
    divisors are never zero).  A match score that is computed lies between
    0 and 1.25, and between 0 and 1 for a node without fills, which gets no
    style-similarity bonus.  The bound is not 1.2, the sum of the largest
    base score and the largest weight: eighteen similar font sizes add up
    to a bonus of 0.20000000000000007, the rounding errors of the additions
    included, and to a score of 1.2000000000000002 on a base score of 1. *)
Theorem match_score_bounds :
  (forall nodeName sel,
     (0 <= calculateNameMatchScore nodeName sel <= 1)%Q
     /\ (0 <= calculateClassMatchScore nodeName sel <= 1)%Q
     /\ (0 <= calculateIdMatchScore nodeName sel <= 1)%Q)
  /\ (forall node rule options sc,
        calculateRuleMatchScore node rule options = Ok sc ->
        (0 <= sc <= 5 # 4)%Q /\ (fills node = None -> (sc <= 1)%Q))
  /\ (exists sc,
        calculateRuleMatchScore textCard fontSizesRule nameOptions = Ok sc
        /\ (12 # 10 < sc)%Q).
Proof.
  split; [exact subscores_bounds|]. split.
  - intros node rule options sc H. rewrite calculateRuleMatchScore_base in H.
    cbv zeta in H.
    pose proof (baseScore_bounds (mappingStrategy options)
                  (Str.toLowerCase (name node)) (Str.toLowerCase (selector rule)))
      as [Hb0 Hb1].
    destruct (fills node) as [nodeFills|].
    + destruct (calculateStyleSimilarityScore node rule options) as [bonus|e] eqn:E;
        cbn [bind] in H; [|discriminate].
      apply calculateStyleSimilarityScore_bounds in E as [He0 He1].
      inversion H; subst; clear H. split; [|discriminate].
      split; [now apply add_nonneg|].
      replace (5 # 4) with (F64.add 1 (1 # 4)) by (vm_compute; reflexivity).
      now apply add_le.
    + inversion H; subst; clear H. split; [lra | intros _; exact Hb1].
  - eexists. split; [vm_compute; reflexivity | vm_compute; reflexivity].
Qed.

Lemma match_score_bounds_witness :
  (0 <= scoreOf plainTree defaultOptions sampleRule <= 5 # 4)%Q
  /\ (fills plainTree = None -> (scoreOf plainTree defaultOptions sampleRule <= 1)%Q).
Proof.
  apply (proj1 (proj2 match_score_bounds) plainTree sampleRule defaultOptions).
  vm_compute. reflexivity.
Defined.

(** A selector that begins with a separator splits into words of which the
    first is empty. *)
Lemma match_at_sep_run (p : ascii -> bool) (a : ascii) (s : string) :
  p a = true ->
  exists m, match_at (Plus true (Cls p)) (String a s) = Some m
            /\ 1 <= String.length (m0 m).
Proof.
  intros Hp.
  assert (H : exists res, rmatch (Plus true (Cls p)) (String a s) [] accept = Some res).
  { unfold Plus. rewrite rmatch_Seq. cbn [rmatch]. rewrite Hp.
    change (exists res,
              star_loop (rmatch (Cls p)) true accept (S (String.length s)) s []
              = Some res).
    rewrite star_greedy_class by (try lia; intros; discriminate).
    eexists. reflexivity. }
  destruct H as [[s' c'] H].
  assert (Hm : match_at (Plus true (Cls p)) (String a s) = Some (mkMatch (taken (String a s) s') c'))
    by (unfold match_at; now rewrite H).
  eexists. split; [exact Hm|].
  apply (match_at_min_length (Plus true (Cls p))) in Hm. exact Hm.
Qed.

Lemma split_leading_sep (p : ascii -> bool) (a : ascii) (s : string) :
  p a = true ->
  exists rest, split (Plus true (Cls p)) (String a s) = "" :: rest.
Proof.
  intros Hp. destruct (match_at_sep_run p a s Hp) as (m & Hm & Hlen).
  unfold split. cbn [split_from]. rewrite Hm.
  destruct (String.length (m0 m)) as [|l]; [lia|].
  eexists. reflexivity.
Qed.

Lemma includes_empty (s : string) : Str.includes s "" = true.
Proof. destruct s; reflexivity. Qed.

Lemma count_all {A : Type} (f : A -> bool) (l : list A) :
  (forall x, In x l -> f x = true) -> count f l = List.length l.
Proof.
  unfold count. induction l as [|x l IH]; intros H; simpl; [reflexivity|].
  rewrite (H x (or_introl eq_refl)). simpl. f_equal. apply IH.
  intros y Hy. apply H. now right.
Qed.

Lemma name_score_leading_sep (nodeName : string) (a : ascii) (sel : string) :
  is_selector_sep a = true ->
  (0 < calculateNameMatchScore nodeName (String a sel))%Q.
Proof.
  intros Ha. unfold calculateNameMatchScore.
  destruct (split_leading_sep is_selector_sep a sel Ha) as [rest Hsplit].
  change (split selectorSepRegex (String a sel))
    with (split (Plus true (Cls is_selector_sep)) (String a sel)).
  rewrite Hsplit.
  pose proof (nameWords_nonempty nodeName) as Hn.
  rewrite count_all.
  - apply ratio_positive; lia.
  - intros nameWord _. cbn [existsb]. now rewrite includes_empty, orb_true_r.
Qed.

(** X9.  Under the [name] and the [hybrid] strategy a rule whose selector
    begins with [.] or [#] scores above zero for every node for which its
    score is computed, whatever the node is called: splitting such a
    selector gives an empty first word, which every word of the node's name
    contains.  The rule is therefore a candidate of every node. *)
Theorem leading_separator_matches_every_node :
  forall node rule options a sel sc,
    selector rule = String a sel ->
    a = "."%char \/ a = "#"%char ->
    mappingStrategy options = strategy_name \/ mappingStrategy options = strategy_hybrid ->
    calculateRuleMatchScore node rule options = Ok sc ->
    (0 < sc)%Q.
Proof.
  intros node rule options a sel sc Hsel Ha Hstrat H.
  rewrite calculateRuleMatchScore_base in H. cbv zeta in H. rewrite Hsel in H.
  assert (Hlow : Str.toLowerCase (String a sel) = String a (Str.toLowerCase sel))
    by (destruct Ha; subst a; reflexivity).
  rewrite Hlow in H.
  assert (Hsep : is_selector_sep a = true) by (destruct Ha; subst a; reflexivity).
  pose proof (name_score_leading_sep (Str.toLowerCase (name node)) a
                (Str.toLowerCase sel) Hsep) as Hname.
  pose proof (baseScore_positive (mappingStrategy options) (Str.toLowerCase (name node))
                (String a (Str.toLowerCase sel)) Hstrat Hname) as Hbase.
  destruct (fills node) as [nodeFills|].
  - destruct (calculateStyleSimilarityScore node rule options) as [bonus|e] eqn:E;
      cbn [bind] in H; [|discriminate].
    apply calculateStyleSimilarityScore_bounds in E as [He0 _].
    inversion H; subst; clear H. now apply add_positive_l.
  - inversion H; subst; clear H. exact Hbase.
Qed.

Lemma leading_separator_matches_every_node_witness :
  (0 < scoreOf (leaf "0:2" "zzz") defaultOptions sampleRule)%Q.
Proof.
  apply (leading_separator_matches_every_node (leaf "0:2" "zzz") sampleRule
           defaultOptions "."%char "header"
           (scoreOf (leaf "0:2" "zzz") defaultOptions sampleRule)).
  - reflexivity.
  - left. reflexivity.
  - right. reflexivity.
  - vm_compute. reflexivity.
Defined.

End EnhancerFurther.

(** ** Further properties of the parser *)

Section ParserFurther.
Import RegExp CSSParser Spec Scenario RegExpFacts ParserFacts.

Opaque parsePropertiesEnhanced calculateSpecificity.

Lemma parseStep_report (st : ParseState) (m : RegExpMatch) :
  st_errors st = [] ->
  st_totalProperties st
  = list_sum (map (fun rule => List.length (properties rule)) (st_rules st)) ->
  st_totalSelectors st
  = list_sum (map (fun rule => List.length (Str.split_char "," (selector rule)))
                  (st_rules st)) ->
  st_errors (parseStep st m) = []
  /\ st_totalProperties (parseStep st m)
     = list_sum (map (fun rule => List.length (properties rule))
                     (st_rules (parseStep st m)))
  /\ st_totalSelectors (parseStep st m)
     = list_sum (map (fun rule => List.length (Str.split_char "," (selector rule)))
                     (st_rules (parseStep st m)))
  /\ List.length (st_rules (parseStep st m)) + List.length (st_warnings (parseStep st m))
     = S (List.length (st_rules st) + List.length (st_warnings st)).
Proof.
  intros He Hp Hs. parse_step st m.
  - rewrite length_app. simpl. repeat split; try assumption. lia.
  - rewrite !map_app, !list_sum_app, !length_app. simpl.
    repeat split; try assumption; lia.
  - rewrite parsePropertiesEnhanced_Ok in Eprops. discriminate.
Qed.

Lemma fold_parseStep_report (ms : list RegExpMatch) :
  forall st,
    st_errors st = [] ->
    st_totalProperties st
    = list_sum (map (fun rule => List.length (properties rule)) (st_rules st)) ->
    st_totalSelectors st
    = list_sum (map (fun rule => List.length (Str.split_char "," (selector rule)))
                    (st_rules st)) ->
    let st' := fold_left parseStep ms st in
    st_errors st' = []
    /\ st_totalProperties st'
       = list_sum (map (fun rule => List.length (properties rule)) (st_rules st'))
    /\ st_totalSelectors st'
       = list_sum (map (fun rule => List.length (Str.split_char "," (selector rule)))
                       (st_rules st'))
    /\ List.length (st_rules st') + List.length (st_warnings st')
       = List.length (st_rules st) + List.length (st_warnings st) + List.length ms.
Proof.
  induction ms as [|m ms IH]; intros st He Hp Hs; simpl.
  - repeat split; try assumption. lia.
  - destruct (parseStep_report st m He Hp Hs) as (He' & Hp' & Hs' & Hn').
    destruct (IH (parseStep st m) He' Hp' Hs') as (I1 & I2 & I3 & I4).
    repeat split; try assumption. lia.
Qed.

Transparent parsePropertiesEnhanced calculateSpecificity.

(** X10.  The parser never reports an error and never clears [isValid],
    whatever the text.  Its statistics agree with its rules: [totalRules] is
    their number, [totalProperties] the number of their declarations,
    [totalSelectors] the number of comma-separated parts of their selectors,
    and [processingTime] the difference of the two clock readings, as the
    runtime computes it.  Every
    block the scan matches gives either one rule or one warning. *)
Theorem parse_report_consistent :
  forall t0 t1 cssText,
    let res := parse t0 t1 cssText in
    errors res = []
    /\ isValid res = true
    /\ totalRules (statistics res) = List.length (rules res)
    /\ totalProperties (statistics res)
       = list_sum (map (fun rule => List.length (properties rule)) (rules res))
    /\ totalSelectors (statistics res)
       = list_sum (map (fun rule => List.length (Str.split_char "," (selector rule)))
                       (rules res))
    /\ processingTime (statistics res) = F64.sub t1 t0
    /\ List.length (rules res) + List.length (warnings res)
       = List.length (match_all ruleRegex (remove_all commentRegex cssText)).
Proof.
  intros t0 t1 cssText. unfold parse. cbv zeta. simpl.
  destruct (fold_parseStep_report
              (match_all ruleRegex (remove_all commentRegex cssText)) initialState)
    as (H1 & H2 & H3 & H4); try reflexivity.
  fold (scan (remove_all commentRegex cssText)) in *.
  repeat split; try assumption. apply scan_isValid.
Qed.

(** *** What a rule looks like *)

Lemma properties_of_matches_lines (ms : list RegExpMatch) :
  forall startLine lineOffset,
    map line (properties_of_matches ms startLine lineOffset)
    = seq (startLine + lineOffset) (List.length ms)
    /\ List.length (properties_of_matches ms startLine lineOffset) = List.length ms.
Proof.
  induction ms as [|m ms IH]; intros startLine lineOffset; simpl; [split; reflexivity|].
  destruct (IH startLine (S lineOffset)) as [IH1 IH2].
  rewrite IH1, IH2, Nat.add_succ_r. split; reflexivity.
Qed.

Lemma scan_rule_shape (cleanCSS : string) :
  Forall rule_shape (st_rules (scan cleanCSS)).
Proof.
  unfold scan. apply fold_left_invariant; [|constructor].
  intros st m Hst. unfold parseStep.
  destruct (Str.truthy (Str.trim (group_text 1 m))) eqn:Esel; simpl; [|exact Hst].
  destruct (negb (Str.truthy (Str.trim (group_text 2 m)))); simpl; [exact Hst|].
  apply Forall_app. split; [exact Hst|]. constructor; [|constructor].
  unfold rule_shape. simpl.
  destruct (properties_of_matches_lines
              (match_all propRegex (Str.trim (group_text 2 m))) (st_lineNumber st) 0)
    as [Hl Hn].
  rewrite Nat.add_0_r in Hl. rewrite Hl, Hn. repeat split. exact Esel.
Qed.

(** X11.  The [i]-th rule the parser returns (counting from 0) has line
    [i + 1]: [line] numbers the rules that were kept, not the lines of the
    text.  Its column is 1, its selector is not empty, its specificity is
    that of its selector, and its declarations carry the lines [i + 1],
    [i + 2], ... in their order. *)
Theorem rule_lines_are_ordinals :
  forall t0 t1 cssText i rule,
    nth_error (rules (parse t0 t1 cssText)) i = Some rule ->
    rule_line rule = S i
    /\ rule_column rule = 1
    /\ Str.truthy (selector rule) = true
    /\ specificity rule = calculateSpecificity (selector rule)
    /\ map line (properties rule) = seq (S i) (List.length (properties rule)).
Proof.
  intros t0 t1 cssText i rule H.
  pose proof (parse_lines t0 t1 cssText i rule H) as Hline.
  apply nth_error_In in H. unfold parse in H. simpl in H.
  pose proof (scan_rule_shape (remove_all commentRegex cssText)) as Hshape.
  rewrite Forall_forall in Hshape.
  destruct (Hshape rule H) as (H1 & H2 & H3 & H4).
  rewrite Hline in H4. auto.
Qed.

Lemma rule_lines_are_ordinals_witness :
  rule_line importantRule = 1
  /\ rule_column importantRule = 1
  /\ Str.truthy (selector importantRule) = true
  /\ specificity importantRule = calculateSpecificity (selector importantRule)
  /\ map line (properties importantRule)
     = seq 1 (List.length (properties importantRule)).
Proof.
  apply (rule_lines_are_ordinals 0%Q 0%Q importantCSS 0 importantRule).
  vm_compute. reflexivity.
Defined.

(** *** Specificity of concatenated selectors *)

Lemma count_chars_app (p : ascii -> bool) (s1 s2 : string) :
  count_chars p (s1 ++ s2) = count_chars p s1 + count_chars p s2.
Proof.
  induction s1 as [|a s1 IH]; simpl; [reflexivity|]. rewrite IH. lia.
Qed.

Lemma calculateSpecificity_counts (sel : string) :
  calculateSpecificity sel
  = count_chars (Str.is_char "#") sel * 100
    + count_chars is_class_mark sel * 10
    + count_chars Str.is_alpha sel.
Proof.
  unfold calculateSpecificity.
  rewrite (match_all_one_char _ _ (one_char_Cls (Str.is_char "#"))).
  rewrite (match_all_one_char _ is_class_mark
             (one_char_Alt _ _ _ _ (one_char_Cls (Str.is_char "."))
                (one_char_Alt _ _ _ _ (one_char_Cls (Str.is_char ":"))
                   (one_char_Cls (Str.is_char "["))))).
  rewrite (match_all_one_char _ _ (one_char_Cls Str.is_alpha)).
  reflexivity.
Qed.

(** X12.  Specificity adds up over concatenation: a selector written as
    two parts one after the other has the sum of their specificities.  In
    particular a selector list scores the sum of its members, and the empty
    selector scores 0. *)
Theorem calculateSpecificity_additive :
  forall sel1 sel2,
    calculateSpecificity (sel1 ++ sel2)
    = calculateSpecificity sel1 + calculateSpecificity sel2.
Proof.
  intros sel1 sel2. rewrite !calculateSpecificity_counts, !count_chars_app. lia.
Qed.

(** *** The characters of selectors, names and values *)

Lemma substring_0_app (w s : string) :
  String.substring 0 (String.length w) (w ++ s) = w.
Proof.
  induction w as [|a w IH]; simpl; [now destruct s|]. now rewrite IH.
Qed.

Lemma length_app_string (w s : string) :
  String.length (w ++ s) = String.length w + String.length s.
Proof. induction w as [|a w IH]; simpl; [reflexivity|]. now rewrite IH. Qed.

Lemma taken_app (w s : string) : taken (w ++ s) s = w.
Proof.
  unfold taken. rewrite length_app_string.
  replace (String.length w + String.length s - String.length s) with (String.length w)
    by lia.
  apply substring_0_app.
Qed.

Lemma star_loop_class_run (p : ascii -> bool) (greedy : bool) (k : Cont) :
  forall n s c res,
    star_loop (rmatch (Cls p)) greedy k n s c = Some res ->
    exists w s1, s = (w ++ s1)%string /\ all_chars p w = true /\ k s1 c = Some res.
Proof.
  induction n as [|n IH]; intros s c res H; cbn [star_loop] in H.
  - exists "", s. auto.
  - set (K := fun (s' : string) (c' : captures) =>
                if String.length s' <? String.length s
                then star_loop (rmatch (Cls p)) greedy k n s' c' else None) in H.
    assert (Hagain : forall x, rmatch (Cls p) s c K = Some x ->
              exists w s1, s = (w ++ s1)%string /\ all_chars p w = true
                           /\ k s1 c = Some x).
    { intros x Hx. cbn [rmatch] in Hx.
      destruct s as [|a s']; [discriminate|].
      destruct (p a) eqn:Ea; [|discriminate].
      unfold K in Hx.
      destruct (String.length s' <? String.length (String a s')); [|discriminate].
      apply IH in Hx as (w & s1 & -> & Hw & Hk).
      exists (String a w), s1. simpl. rewrite Ea, Hw. auto. }
    destruct greedy.
    + destruct (rmatch (Cls p) s c K) as [x|] eqn:E.
      * inversion H; subst. now apply Hagain.
      * exists "", s. auto.
    + destruct (k s c) as [x|] eqn:Ek.
      * inversion H; subst. exists "", s. auto.
      * now apply Hagain.
Qed.

(** What a group [([class]+)] captures: a non-empty run of the class. *)
Lemma group_plus_class (i : nat) (greedy : bool) (p : ascii -> bool)
    (s : string) (c : captures) (k : Cont) (res : string * captures) :
  rmatch (Grp i (Plus greedy (Cls p))) s c k = Some res ->
  exists w s1,
    s = (w ++ s1)%string /\ Str.truthy w = true /\ all_chars p w = true
    /\ k s1 ((i, w) :: c) = Some res.
Proof.
  rewrite rmatch_Grp. unfold Plus. rewrite rmatch_Seq.
  destruct s as [|a s]; [discriminate|]. cbn [rmatch].
  destruct (p a) eqn:Ea; [|discriminate].
  intros H.
  change (star_loop (rmatch (Cls p)) greedy
            (fun s' c' => k s' ((i, taken (String a s) s') :: c'))
            (S (String.length s)) s c = Some res) in H.
  apply star_loop_class_run in H as (w & s1 & -> & Hw & Hk).
  exists (String a w), s1. simpl. rewrite Ea, Hw.
  change (String a (w ++ s1)) with (String a w ++ s1)%string in Hk.
  rewrite taken_app in Hk. auto.
Qed.

Lemma propRegex_groups (s : string) (m : RegExpMatch) :
  match_at propRegex s = Some m ->
  exists w1 w2,
    group 1 (groups m) = Some w1 /\ Str.truthy w1 = true
    /\ all_chars is_prop_char w1 = true
    /\ group 2 (groups m) = Some w2 /\ all_chars not_semicolon w2 = true.
Proof.
  unfold match_at.
  destruct (rmatch propRegex s [] accept) as [[s' c']|] eqn:E; [|discriminate].
  intros H. inversion H; subst; clear H. simpl groups.
  unfold propRegex in E.
  rewrite rmatch_Seq in E. apply group_plus_class in E as (w1 & s1 & _ & Ht1 & Hw1 & E).
  rewrite rmatch_Seq in E. apply rmatch_cont in E as (s2 & c2 & E & _ & P2).
  rewrite rmatch_Seq in E. apply rmatch_cont in E as (s3 & c3 & E & _ & P3).
  rewrite rmatch_Seq in E. apply rmatch_cont in E as (s4 & c4 & E & _ & P4).
  rewrite rmatch_Seq in E. apply group_plus_class in E as (w2 & s5 & _ & _ & Hw2 & E).
  apply rmatch_cont in E as (s6 & c6 & E & _ & P6).
  unfold accept in E. inversion E; subst; clear E.
  exists w1, w2. repeat split; try assumption.
  - rewrite P6 by (simpl; intros [H|[]]; discriminate). simpl.
    rewrite P4, P3, P2 by (simpl; tauto). reflexivity.
  - rewrite P6 by (simpl; intros [H|[]]; discriminate). reflexivity.
Qed.

Lemma ruleRegex_group_1 (s : string) (m : RegExpMatch) :
  match_at ruleRegex s = Some m ->
  exists w, group 1 (groups m) = Some w /\ all_chars not_open_brace w = true.
Proof.
  unfold match_at.
  destruct (rmatch ruleRegex s [] accept) as [[s' c']|] eqn:E; [|discriminate].
  intros H. inversion H; subst; clear H. simpl groups.
  unfold ruleRegex in E.
  rewrite rmatch_Seq in E. apply group_plus_class in E as (w & s1 & _ & _ & Hw & E).
  apply rmatch_cont in E as (s2 & c2 & E & _ & P2).
  unfold accept in E. inversion E; subst; clear E.
  exists w. split; [|exact Hw].
  rewrite P2 by (simpl; intros [H|[]]; discriminate). reflexivity.
Qed.

Lemma all_chars_rev_onto (p : ascii -> bool) (s acc : string) :
  all_chars p (Str.rev_onto s acc) = all_chars p s && all_chars p acc.
Proof.
  revert acc. induction s as [|a s IH]; intros acc; simpl; [reflexivity|].
  rewrite IH. simpl. destruct (p a), (all_chars p s); reflexivity.
Qed.

Lemma all_chars_trimStart (p : ascii -> bool) (s : string) :
  all_chars p s = true -> all_chars p (Str.trimStart s) = true.
Proof.
  induction s as [|a s IH]; simpl; [reflexivity|].
  intros H. apply andb_prop in H as [Ha Hs].
  destruct (Str.is_space a); [now apply IH | simpl; now rewrite Ha, Hs].
Qed.

Lemma all_chars_trim (p : ascii -> bool) (s : string) :
  all_chars p s = true -> all_chars p (Str.trim s) = true.
Proof.
  intros H. unfold Str.trim, Str.trimEnd, Str.rev.
  rewrite all_chars_rev_onto, andb_true_r. apply all_chars_trimStart.
  rewrite all_chars_rev_onto, andb_true_r. now apply all_chars_trimStart.
Qed.

Lemma rev_onto_rev_onto (s a b : string) :
  Str.rev_onto (Str.rev_onto s a) b = Str.rev_onto a (s ++ b)%string.
Proof.
  revert a b. induction s as [|x s IH]; intros a b; simpl; [reflexivity|].
  rewrite IH. reflexivity.
Qed.

Lemma rev_rev (s : string) : Str.rev (Str.rev s) = s.
Proof.
  unfold Str.rev. rewrite rev_onto_rev_onto. simpl.
  induction s as [|a s IH]; simpl; [reflexivity | now rewrite IH].
Qed.

Lemma prop_char_not_space (a : ascii) : is_prop_char a = true -> Str.is_space a = false.
Proof.
  destruct a as [[] [] [] [] [] [] [] []]; intros H;
    first [reflexivity | vm_compute in H; discriminate H].
Qed.

Lemma trimStart_no_space (s : string) :
  all_chars is_prop_char s = true -> Str.trimStart s = s.
Proof.
  destruct s as [|a s]; simpl; [reflexivity|].
  intros H. apply andb_prop in H as [Ha _].
  now rewrite (prop_char_not_space a Ha).
Qed.

Lemma trim_name (w : string) : all_chars is_prop_char w = true -> Str.trim w = w.
Proof.
  intros H. unfold Str.trim, Str.trimEnd.
  rewrite (trimStart_no_space w H).
  rewrite trimStart_no_space.
  - apply rev_rev.
  - unfold Str.rev. now rewrite all_chars_rev_onto, H.
Qed.

Lemma properties_of_matches_text (ms : list RegExpMatch) :
  (forall m, In m ms -> exists s, match_at propRegex s = Some m) ->
  forall startLine lineOffset p,
    In p (properties_of_matches ms startLine lineOffset) ->
    Str.truthy (property p) = true
    /\ all_chars is_prop_char (property p) = true
    /\ all_chars not_semicolon (value p) = true.
Proof.
  induction ms as [|m ms IH]; intros Hms startLine lineOffset p H; simpl in H.
  - contradiction.
  - destruct H as [<-|H].
    + destruct (Hms m (or_introl eq_refl)) as [s Hs].
      apply propRegex_groups in Hs as (w1 & w2 & H1 & Ht1 & Hw1 & H2 & Hw2).
      simpl. unfold group_text. rewrite H1, H2, (trim_name w1 Hw1).
      repeat split; try assumption. now apply all_chars_trim.
    + apply IH in H; [assumption|]. intros m' Hm'. apply Hms. now right.
Qed.

Lemma scan_rule_text (cleanCSS : string) :
  Forall rule_text_shape (st_rules (scan cleanCSS)).
Proof.
  unfold scan.
  assert (Hms : forall m, In m (match_all ruleRegex cleanCSS) ->
                  exists s, match_at ruleRegex s = Some m)
    by (intros m Hm; now apply match_all_from_In in Hm).
  revert Hms. generalize (match_all ruleRegex cleanCSS). intros ms Hms.
  assert (H0 : Forall rule_text_shape (st_rules initialState)) by constructor.
  revert H0. generalize initialState.
  induction ms as [|m ms IH]; intros st Hst; simpl; [exact Hst|].
  apply IH; [intros; apply Hms; now right|].
  unfold parseStep.
  destruct (negb (Str.truthy (Str.trim (group_text 1 m)))
            || negb (Str.truthy (Str.trim (group_text 2 m)))); simpl; [exact Hst|].
  apply Forall_app. split; [exact Hst|]. constructor; [|constructor].
  destruct (Hms m (or_introl eq_refl)) as [s Hs].
  apply ruleRegex_group_1 in Hs as (w & Hg & Hw).
  split; simpl.
  - unfold group_text. rewrite Hg. now apply all_chars_trim.
  - intros p Hp.
    apply (properties_of_matches_text
             (match_all propRegex (Str.trim (group_text 2 m)))) in Hp; [assumption|].
    intros m' Hm'. now apply match_all_from_In in Hm'.
Qed.

(** X13.  In every rule the parser returns, the selector contains no [{],
    every declaration name is non-empty and consists of ASCII letters and
    hyphens only (a name with a digit or an underscore is cut at that
    character), and no declaration value contains a [;]. *)
Theorem parsed_text_is_clean :
  forall t0 t1 cssText rule,
    In rule (rules (parse t0 t1 cssText)) ->
    all_chars not_open_brace (selector rule) = true
    /\ forall p, In p (properties rule) ->
         Str.truthy (property p) = true
         /\ all_chars is_prop_char (property p) = true
         /\ all_chars not_semicolon (value p) = true.
Proof.
  intros t0 t1 cssText rule H. unfold parse in H. simpl in H.
  pose proof (scan_rule_text (remove_all commentRegex cssText)) as Hall.
  rewrite Forall_forall in Hall. exact (Hall rule H).
Qed.

Lemma parsed_text_is_clean_witness :
  all_chars not_open_brace (selector importantRule) = true
  /\ forall p, In p (properties importantRule) ->
       Str.truthy (property p) = true
       /\ all_chars is_prop_char (property p) = true
       /\ all_chars not_semicolon (value p) = true.
Proof.
  apply (parsed_text_is_clean 0%Q 0%Q importantCSS importantRule).
  vm_compute. left. reflexivity.
Defined.

End ParserFurther.

(** ** Further properties of colours and of the coordinator *)

Section ColorFurther.
Import RegExp CSSParser CSSEnhancer Spec Scenario RegExpFacts ParserFacts F64Facts
  EnhancerFacts.

Lemma search_finds (r : regex) (s : string) :
  search r s = None -> match_at r s = None
                       /\ match s with
                          | String _ s' => search r s' = None
                          | EmptyString => True
                          end.
Proof.
  destruct s as [|a s']; simpl; destruct (match_at r _); try discriminate; auto.
Qed.

Lemma search_min_length (r : regex) (s : string) (m : RegExpMatch) :
  search r s = Some m -> min_length r <= String.length (m0 m).
Proof.
  induction s as [|a s IH]; simpl.
  - destruct (match_at r "") as [m'|] eqn:E; [|discriminate].
    intros H. inversion H; subst. now apply match_at_min_length in E.
  - destruct (match_at r (String a s)) as [m'|] eqn:E; [|exact IH].
    intros H. inversion H; subst. now apply match_at_min_length in E.
Qed.

Lemma colorRegex_at_letter (a : ascii) (s : string) :
  Str.is_alpha a = true -> match_at colorRegex (String a s) <> None.
Proof.
  intros Ha. unfold match_at.
  assert (H : rmatch colorRegex (String a s) [] accept <> None).
  { unfold colorRegex. rewrite rmatch_Grp.
    set (k := fun (s' : string) (c' : captures) =>
                accept s' ((1, taken (String a s) s') :: c')).
    assert (Hword : rmatch (Plus true (Cls Str.is_alpha)) (String a s) [] k <> None).
    { unfold Plus. rewrite rmatch_Seq. cbn [rmatch]. rewrite Ha.
      change (star_loop (rmatch (Cls Str.is_alpha)) true k (S (String.length s)) s []
              <> None).
      rewrite star_greedy_class by (try lia; intros; discriminate).
      discriminate. }
    cbn [rmatch] in *.
    repeat match goal with
           | |- match ?x with Some y => Some y | None => _ end <> None =>
               destruct x; [discriminate|]
           end.
    exact Hword. }
  destruct (rmatch colorRegex (String a s) [] accept) as [[s' c']|];
    [discriminate | contradiction].
Qed.

(** X14.  [extractCSSColor] finds a colour in every value that contains an
    ASCII letter, and what it returns is never empty: where no hex or
    [rgb(...)] form comes first, the first word of the value is taken for a
    colour name, whatever the word is. *)
Theorem extractCSSColor_takes_any_word :
  forall value,
    0 < count_chars Str.is_alpha value ->
    exists c, extractCSSColor value = Some c /\ Str.truthy c = true.
Proof.
  intros value H. unfold extractCSSColor.
  destruct (search colorRegex value) as [m|] eqn:E.
  - exists (m0 m). split; [reflexivity|].
    apply search_min_length in E.
    assert (Hmin : min_length colorRegex = 1) by reflexivity.
    destruct (m0 m); [simpl in E; lia | reflexivity].
  - exfalso. induction value as [|a value IH]; simpl in H; [lia|].
    apply search_finds in E as [E1 E2].
    destruct (Str.is_alpha a) eqn:Ea.
    + exact (colorRegex_at_letter a value Ea E1).
    + apply IH; [exact H | exact E2].
Qed.

Lemma extractCSSColor_takes_any_word_witness :
  exists c, extractCSSColor "1px solid" = Some c /\ Str.truthy c = true.
Proof.
  apply (extractCSSColor_takes_any_word "1px solid"). simpl. lia.
Defined.

(** On that value the unit of the length is what is taken for the colour. *)
Example extractCSSColor_unit : extractCSSColor "1px solid" = Some "px".
Proof. reflexivity. Qed.

Lemma Math_round_channel (x : Q) :
  (0 <= x <= 1)%Q -> (0 <= Math_round (F64.mul x (inject_Z 255)) <= 255)%Z.
Proof.
  intros [H0 H1]. unfold Math_round.
  assert (Hm0 : (0 <= F64.mul x (inject_Z 255))%Q)
    by (apply mul_nonneg; [exact H0 | discriminate]).
  assert (Hm1 : (F64.mul x (inject_Z 255) <= 255 # 1)%Q).
  { replace (255 # 1) with (F64.mul 1 (inject_Z 255)) by (vm_compute; reflexivity).
    apply mul_le_l; [discriminate | exact H1]. }
  assert (Hlo : (Qfloor (inject_Z 0) <= Qfloor (F64.mul x (inject_Z 255) + (1 # 2)))%Z)
    by (apply Qfloor_resp_le; change (inject_Z 0) with (0 # 1); lra).
  assert (Hhi : (Qfloor (F64.mul x (inject_Z 255) + (1 # 2)) <= Qfloor (511 # 2))%Z)
    by (apply Qfloor_resp_le; lra).
  rewrite Qfloor_Z in Hlo. change (Qfloor (511 # 2)) with 255%Z in Hhi.
  split; assumption.
Qed.

(** X15.  [extractFigmaColor] reports the first paint of type SOLID and
    looks at no later one: as [rgb(R, G, B)] when that paint has a colour,
    as nothing when it has none, whatever follows it.  Without a SOLID paint
    it reports nothing.  Each of R, G, B is the channel multiplied by 255
    and rounded, which lies between 0 and 255 for a channel between 0 and
    1. *)
Theorem extractFigmaColor_first_solid :
  forall (before after : list Paint) (solid : Paint),
    Forall (fun fill => String.eqb (paint_type fill) "SOLID" = false) before ->
    paint_type solid = "SOLID" ->
    extractFigmaColor (before ++ solid :: after)
    = match color solid with
      | Some c => Some (rgb_text c)
      | None => None
      end
    /\ extractFigmaColor before = None
    /\ forall x, (0 <= x <= 1)%Q ->
                 (0 <= Math_round (F64.mul x (inject_Z 255)) <= 255)%Z.
Proof.
  intros before after solid Hb Hs.
  assert (Hboth : find (fun fill => String.eqb (paint_type fill) "SOLID")
                       (before ++ solid :: after) = Some solid
                  /\ find (fun fill => String.eqb (paint_type fill) "SOLID") before
                     = None).
  { induction Hb as [|x l Hx Hl IH]; simpl.
    - now rewrite Hs.
    - now rewrite Hx. }
  destruct Hboth as [Hfind Hnone].
  unfold extractFigmaColor. rewrite Hfind, Hnone.
  split; [reflexivity|]. split; [reflexivity|]. exact Math_round_channel.
Qed.

Lemma extractFigmaColor_first_solid_witness :
  extractFigmaColor
    ([mkPaint "IMAGE" None]
       ++ mkPaint "SOLID" (Some (mkColor 0 0 1)) :: [mkPaint "SOLID" None])
  = Some "rgb(0, 0, 255)".
Proof.
  apply (extractFigmaColor_first_solid [mkPaint "IMAGE" None] [mkPaint "SOLID" None]
           (mkPaint "SOLID" (Some (mkColor 0 0 1)))).
  - repeat constructor.
  - reflexivity.
Defined.



End ColorFurther.

(** ** Further properties of comment stripping *)

Section CommentFurther.
Import RegExp CSSParser Spec Scenario RegExpFacts ParserFacts.

Lemma includes_cons (a : ascii) (s needle : string) :
  Str.includes (String a s) needle = false ->
  String.prefix needle (String a s) = false /\ Str.includes s needle = false.
Proof.
  cbn [Str.includes].
  destruct (String.prefix needle (String a s)); [discriminate | auto].
Qed.

Lemma prefix_2 (x y a b : ascii) (s : string) :
  String.prefix (String x (String y "")) (String a (String b s))
  = Ascii.eqb a x && Ascii.eqb b y.
Proof.
  simpl. destruct (ascii_dec x a) as [->|Hn].
  - rewrite Ascii.eqb_refl. destruct (ascii_dec y b) as [->|Hn].
    + rewrite Ascii.eqb_refl. now destruct s.
    + symmetry. apply Ascii.eqb_neq. congruence.
  - replace (Ascii.eqb a x) with false; [reflexivity|].
    symmetry. apply Ascii.eqb_neq. congruence.
Qed.

(** A comment can only start where the text reads [/*]. *)
Lemma comment_starts (s : string) :
  match_at commentRegex s <> None ->
  exists t, s = String "/" (String "*" t).
Proof.
  unfold match_at, commentRegex. rewrite rmatch_Seq.
  destruct s as [|a [|b t]]; cbn [rmatch Lit Chr]; unfold Str.is_char.
  - intros H. now elim H.
  - destruct (Ascii.eqb a "/"); intros H; now elim H.
  - destruct (Ascii.eqb a "/") eqn:Ea; [|intros H; now elim H].
    destruct (Ascii.eqb b "*") eqn:Eb; [|intros H; now elim H].
    apply Ascii.eqb_eq in Ea, Eb. subst. intros _. now exists t.
Qed.

Lemma no_comment_in (pre rest : string) :
  Str.includes pre "/*" = false ->
  forall a pre', pre = String a pre' ->
    match_at commentRegex (pre ++ String "/" rest) = None.
Proof.
  intros H a pre' ->.
  destruct (match_at commentRegex (String a pre' ++ String "/" rest)) eqn:E;
    [|reflexivity].
  exfalso.
  destruct (comment_starts (String a pre' ++ String "/" rest)) as [t Ht];
    [rewrite E; discriminate|].
  apply includes_cons in H as [Hp _].
  simpl in Ht. inversion Ht as [[Ha Ht']]. subst a.
  destruct pre' as [|b pre'']; simpl in Ht'; [discriminate|].
  inversion Ht'; subst. rewrite prefix_2 in Hp. discriminate.
Qed.

Lemma remove_before_comment (pre rest : string) :
  Str.includes pre "/*" = false ->
  remove_all_from commentRegex (pre ++ String "/" rest) 0
  = (pre ++ remove_all_from commentRegex (String "/" rest) 0)%string.
Proof.
  induction pre as [|a pre IH]; intros H; [reflexivity|].
  pose proof (no_comment_in (String a pre) rest H a pre eq_refl) as Hnone.
  apply includes_cons in H as [_ H].
  change (String a pre ++ String "/" rest)%string
    with (String a (pre ++ String "/" rest)) in *.
  cbn [remove_all_from]. rewrite Hnone, (IH H). reflexivity.
Qed.

Lemma remove_skip (r : regex) (w rest : string) :
  remove_all_from r (w ++ rest) (String.length w) = remove_all_from r rest 0.
Proof.
  induction w as [|a w IH]; simpl; [now destruct rest | exact IH].
Qed.

Lemma closing_fails (s : string) (c : captures) :
  String.prefix "*/" s = false -> rmatch (Lit "*/") s c accept = None.
Proof.
  destruct s as [|a [|b t]]; cbn [rmatch Lit Chr]; unfold Str.is_char.
  - reflexivity.
  - destruct (Ascii.eqb a "*"); reflexivity.
  - rewrite prefix_2. destruct (Ascii.eqb a "*"), (Ascii.eqb b "/");
      try discriminate; reflexivity.
Qed.

Lemma body_then_closing (body post : string) :
  Str.includes body "*/" = false ->
  forall a body', body = String a body' ->
    String.prefix "*/" (body ++ String "*" (String "/" post)) = false.
Proof.
  intros H a body' ->. apply includes_cons in H as [Hp _].
  destruct body' as [|b body'']; cbn [String.append].
  - rewrite prefix_2. destruct (Ascii.eqb a "*"); reflexivity.
  - change (String a (String b body'') ++ String "*" (String "/" post))%string
      with (String a (String b (body'' ++ String "*" (String "/" post)))).
    rewrite prefix_2. rewrite prefix_2 in Hp. exact Hp.
Qed.

(** The lazy [[\s\S]*?] stops at the first [*/]. *)
Lemma lazy_body (body post : string) (c : captures) :
  Str.includes body "*/" = false ->
  forall n, String.length (body ++ String "*" (String "/" post)) < n ->
    star_loop (rmatch Any) false (fun s' c' => rmatch (Lit "*/") s' c' accept) n
      (body ++ String "*" (String "/" post)) c
    = Some (post, c).
Proof.
  induction body as [|a body IH]; intros H n Hn; (destruct n as [|n]; [inversion Hn|]).
  - reflexivity.
  - pose proof (body_then_closing (String a body) post H a body eq_refl) as Hp.
    apply includes_cons in H as [_ H].
    cbn [star_loop]. rewrite (closing_fails _ c Hp).
    change (String a body ++ String "*" (String "/" post))%string
      with (String a (body ++ String "*" (String "/" post))) in *.
    cbn [rmatch Any].
    replace (String.length (body ++ String "*" (String "/" post))
             <? String.length (String a (body ++ String "*" (String "/" post))))
      with true by (symmetry; apply Nat.ltb_lt; simpl; lia).
    apply IH; [exact H | simpl in Hn; lia].
Qed.

Lemma comment_match (body post : string) :
  Str.includes body "*/" = false ->
  match_at commentRegex (String "/" (String "*" (body ++ String "*" (String "/" post))))
  = Some (mkMatch (String "/" (String "*" (body ++ String "*" (String "/" ""))))%string []).
Proof.
  intros H. unfold match_at, commentRegex.
  rewrite rmatch_Seq. cbn [rmatch Lit Chr]. unfold Str.is_char.
  rewrite !Ascii.eqb_refl.
  change (rmatch (Seq (Star false Any) (Lit "*/"))
            (body ++ String "*" (String "/" post)) [] accept)
    with (star_loop (rmatch Any) false (fun s' c' => rmatch (Lit "*/") s' c' accept)
            (S (String.length (body ++ String "*" (String "/" post))))
            (body ++ String "*" (String "/" post)) []).
  rewrite lazy_body by (try assumption; lia).
  f_equal. f_equal.
  change (String "/" (String "*" (body ++ String "*" (String "/" post))))
    with (String "/" (String "*" body) ++ String "*" (String "/" post))%string.
  replace (String "/" (String "*" body) ++ String "*" (String "/" post))%string
    with ((String "/" (String "*" body) ++ String "*" (String "/" "")) ++ post)%string.
  - now rewrite taken_app.
  - simpl. f_equal. f_equal. clear H.
    induction body as [|a body IH]; simpl; [reflexivity | now rewrite IH].
Qed.

(** X17.  Comment stripping removes a complete comment and nothing else:
    in a text made of a part without [/*], a comment [/* body */] whose body
    has no [*/], and a rest, the first part is kept as it is, the comment
    disappears (without a space in its place) and stripping goes on in the
    rest. *)
Theorem comment_is_removed :
  forall pre body post,
    Str.includes pre "/*" = false ->
    Str.includes body "*/" = false ->
    remove_all commentRegex (pre ++ "/*" ++ body ++ "*/" ++ post)
    = (pre ++ remove_all commentRegex post)%string.
Proof.
  intros pre body post Hpre Hbody. unfold remove_all.
  change (pre ++ "/*" ++ body ++ "*/" ++ post)%string
    with (pre ++ String "/" (String "*" (body ++ String "*" (String "/" post))))%string.
  rewrite (remove_before_comment pre _ Hpre). f_equal.
  cbn [remove_all_from]. rewrite (comment_match body post Hbody).
  cbn [m0 String.length].
  replace (body ++ String "*" (String "/" post))%string
    with ((body ++ "*/") ++ post)%string.
  - apply remove_skip.
  - clear Hbody.
    induction body as [|a body IH]; simpl; [reflexivity | now rewrite IH].
Qed.

Lemma comment_is_removed_witness :
  remove_all commentRegex (".a { x: y } " ++ "/*" ++ " b { " ++ "*/" ++ ".c { z: w }")
  = (".a { x: y } " ++ remove_all commentRegex ".c { z: w }")%string.
Proof.
  apply (comment_is_removed ".a { x: y } " " b { " ".c { z: w }"); reflexivity.
Defined.

End CommentFurther.

(** ** Properties of the legacy helpers *)

Section LegacyFurther.
Import RegExp CSSParser LegacyParser Spec Scenario RegExpFacts ParserFacts.

Lemma rmatch_LitI (lit : string) :
  forall s c k,
    rmatch (LitI lit) s c k
    = if prefixI lit s then k (drop (String.length lit) s) c else None.
Proof.
  induction lit as [|x lit IH]; intros s c k.
  - simpl. now destruct s.
  - cbn [LitI]. rewrite rmatch_Seq. unfold ChrI. cbn [rmatch].
    destruct s as [|a s]; [reflexivity|]. cbn [prefixI String.length drop].
    destruct (Ascii.eqb (Str.lower_char a) (Str.lower_char x)); [|reflexivity].
    apply IH.
Qed.

Lemma rmatch_Cls_cons (p : ascii -> bool) (a : ascii) (s : string) (c : captures)
    (k : Cont) :
  rmatch (Cls p) (String a s) c k = if p a then k s c else None.
Proof. reflexivity. Qed.

Lemma layerName_prefix (kind : string) (s : string) (c : captures) (k : Cont) :
  rmatch (layerName kind) s c k <> None -> prefixI kind s = true.
Proof.
  unfold layerName. rewrite rmatch_Seq, rmatch_LitI.
  destruct (prefixI kind s); [reflexivity | intros H; now elim H].
Qed.

Lemma layer_is_component_at (s : string) :
  match_at layerRegex s <> None -> match_at componentRegex s <> None.
Proof.
  unfold match_at, layerRegex, componentRegex. rewrite !rmatch_Seq.
  destruct s as [|a s]; [intros H; now elim H|].
  unfold Chr. rewrite !rmatch_Cls_cons.
  destruct (Str.is_char "." a); [|intros H; now elim H].
  rewrite !rmatch_Grp.
  set (k := fun (s' : string) (c' : captures) =>
              accept s' ((1, taken s s') :: c')).
  intros H.
  assert (Hkind : prefixI "layer" s = true \/ prefixI "component" s = true
                  \/ prefixI "frame" s = true).
  { cbn [rmatch] in H.
    destruct (rmatch (layerName "layer") s [] k) eqn:E1.
    - left. apply (layerName_prefix "layer" s [] k). rewrite E1. discriminate.
    - destruct (rmatch (layerName "component") s [] k) eqn:E2.
      + right. left. apply (layerName_prefix "component" s [] k).
        rewrite E2. discriminate.
      + right. right. apply (layerName_prefix "frame" s [] k).
        destruct (rmatch (layerName "frame") s [] k); [discriminate | now elim H]. }
  clear H.
  assert (Hc : rmatch (Alt (LitI "component")
                      (Alt (LitI "figma")
                      (Alt (LitI "layer")
                      (Alt (LitI "frame") (LitI "group"))))) s [] k <> None).
  { cbn [rmatch]. rewrite !rmatch_LitI. unfold k, accept.
    destruct Hkind as [H|[H|H]]; rewrite H;
      repeat match goal with
             | |- context [if ?b then _ else _] => destruct b
             end; discriminate. }
  destruct (rmatch _ s [] k) as [[s' c']|]; [discriminate | now elim Hc].
Qed.

Lemma search_monotone (r1 r2 : regex) :
  (forall s, match_at r1 s <> None -> match_at r2 s <> None) ->
  forall s, search r1 s <> None -> search r2 s <> None.
Proof.
  intros Hat s. induction s as [|a s IH]; simpl.
  - specialize (Hat "").
    destruct (match_at r1 ""); [|intros H; now elim H].
    destruct (match_at r2 ""); [discriminate|]. intros _. apply Hat. discriminate.
  - specialize (Hat (String a s)).
    destruct (match_at r2 (String a s)); [discriminate|].
    destruct (match_at r1 (String a s)); [exfalso; apply Hat; [discriminate | reflexivity]|].
    exact IH.
Qed.

(** X18.  A selector from which [extractFigmaLayer] reads a layer name is
    always a component selector for [isComponentSelector]: a rule of
    [parseRules] that has a [figmaLayer] has [isComponent] set. *)
Theorem figmaLayer_implies_component :
  forall selector layer,
    extractFigmaLayer selector = Some layer ->
    isComponentSelector selector = true.
Proof.
  intros selector layer H. unfold extractFigmaLayer in H.
  unfold isComponentSelector, test.
  pose proof (search_monotone layerRegex componentRegex layer_is_component_at selector)
    as Hm.
  destruct (search layerRegex selector); [|discriminate].
  destruct (search componentRegex selector); [reflexivity|].
  exfalso. apply Hm; [discriminate | reflexivity].
Qed.

Lemma figmaLayer_implies_component_witness :
  isComponentSelector ".card .Layer-hero_1:hover" = true.
Proof.
  apply (figmaLayer_implies_component ".card .Layer-hero_1:hover" "Layer-hero_1").
  vm_compute. reflexivity.
Defined.

Lemma hex_match_length (s : string) (m : RegExpMatch) :
  match_at hexRegex s = Some m -> String.length (m0 m) = 4.
Proof.
  unfold match_at, hexRegex.
  destruct s as [|a [|b [|c [|d t]]]]; cbn [rmatch Chr Repeat];
    repeat match goal with
           | |- context [if ?x then _ else _] => destruct x
           end;
    try discriminate.
  all: unfold accept; intros H; inversion H; subst; clear H; simpl m0.
  all: change (String a (String b (String c (String d t))))
         with (String a (String b (String c (String d ""))) ++ t)%string.
  all: now rewrite taken_app.
Qed.

Lemma functionalColor_first (fn : string) (x : ascii) (fn' : string) (s : string)
    (m : RegExpMatch) :
  fn = String x fn' ->
  match_at (functionalColor fn) s = Some m ->
  exists t, m0 m = String x t.
Proof.
  intros -> H.
  pose proof (match_at_min_length _ _ _ H) as Hlen.
  unfold match_at in H.
  destruct (rmatch (functionalColor (String x fn')) s [] accept) as [[s' c']|] eqn:E;
    [|discriminate].
  inversion H; subst; clear H. simpl m0 in *.
  unfold functionalColor in E. rewrite rmatch_Seq in E. cbn [Lit] in E.
  rewrite rmatch_Seq in E. cbn [rmatch Chr] in E.
  destruct s as [|a s]; [discriminate|].
  destruct (Str.is_char x a) eqn:Ea; [|discriminate].
  unfold Str.is_char in Ea. apply Ascii.eqb_eq in Ea. subst a.
  unfold taken in *. 
  destruct (String.length (String x s) - String.length s') eqn:En.
  - simpl in Hlen. lia.
  - simpl. eexists. reflexivity.
Qed.

(** X19.  [extractColorValues] never returns a six-digit hex colour: every
    colour it returns that begins with [#] has exactly four characters.
    The pattern tries three digits before six, so [#aabbcc] is reported as
    [#aab]. *)
Theorem hex_colors_are_cut_to_three_digits :
  forall value c t,
    In c (extractColorValues value) ->
    c = String "#" t ->
    String.length c = 4.
Proof.
  intros value c t H Hc. unfold extractColorValues in H.
  apply in_app_or in H as [H|H].
  - unfold hexMatches in H. apply in_map_iff in H as (m & <- & Hm).
    apply match_all_from_In in Hm as [s Hs]. now apply hex_match_length in Hs.
  - exfalso. apply in_app_or in H as [H|H].
    + unfold rgbMatches in H. apply in_map_iff in H as (m & <- & Hm).
      apply match_all_from_In in Hm as [s Hs].
      destruct (functionalColor_first "rgb" "r" "gb" s m eq_refl Hs) as [t' Ht'].
      rewrite Ht' in Hc. discriminate.
    + unfold hslMatches in H. apply in_map_iff in H as (m & <- & Hm).
      apply match_all_from_In in Hm as [s Hs].
      destruct (functionalColor_first "hsl" "h" "sl" s m eq_refl Hs) as [t' Ht'].
      rewrite Ht' in Hc. discriminate.
Qed.

Lemma hex_colors_are_cut_to_three_digits_witness :
  String.length "#aab" = 4.
Proof.
  apply (hex_colors_are_cut_to_three_digits "1px solid #aabbcc" "#aab" "aab").
  - vm_compute. left. reflexivity.
  - reflexivity.
Defined.

End LegacyFurther.
